(** * gostockfish: a shallow embedding of the UCI driver and the match loop

    The development follows the two Go files of the repository:
    the engine driver (package gostockfish: [ParseInfo], [ParseBestMove],
    [IsReady], [SetPosition], [Go], [BestMove], [NewEngineWithAllOptions])
    and match.go ([NewMatch], [Move], [Run]).

    Conventions.
    - A Go [string] is a byte sequence: Rocq's [string] (a list of [ascii]).
    - A Go [int] is the 64-bit two's complement integer of the usual
      targets: a [Z] in the range [minInt, maxInt], arithmetic written with
      [wrap].
    - A Go function returning [(T, error)] returns [Ret v] or [Fail msg],
      where [msg] is the text of [err.Error()]; a run-time panic is the
      third outcome [Panic msg].
    - [*Engine] pointers are addresses into a heap of engine records.
    - The child process is what it prints: the finite sequence of lines its
      pipe delivers before end of file.  A read that blocks for ever has no
      outcome and is not modelled.  The protocol is ASCII text. *)

From Stdlib Require Import ZArith Ascii String List Bool Lia Permutation
  DecimalString.
From stdpp Require Import base option list gmap strings.

Local Open Scope Z_scope.

(** ** Outcomes of a Go call *)

Inductive result (A : Type) : Type :=
| Ret (v : A)
| Fail (err : string)
| Panic (msg : string).
Arguments Ret {A} v.
Arguments Fail {A} err.
Arguments Panic {A} msg.

(** ** Go's [int] *)

Module GoInt.

Definition intSize : Z := 64.
Definition minInt : Z := - 2 ^ 63.
Definition maxInt : Z := 2 ^ 63 - 1.

(** Two's complement wrap-around of an arithmetic result. *)
Definition wrap (z : Z) : Z := (z + 2 ^ 63) mod 2 ^ 64 - 2 ^ 63.

Definition sub (a b : Z) : Z := wrap (a - b).
Definition add (a b : Z) : Z := wrap (a + b).

Definition in_range (z : Z) : Prop := minInt <= z <= maxInt.

End GoInt.

(** ** Bytes and strings *)

Module Str.

Definition is_digit (c : ascii) : bool :=
  (Ascii.leb "0" c && Ascii.leb c "9")%char.

Definition is_lower (c : ascii) : bool :=
  (Ascii.leb "a" c && Ascii.leb c "z")%char.

Definition is_upper (c : ascii) : bool :=
  (Ascii.leb "A" c && Ascii.leb c "Z")%char.

(** Perl class [\w] of RE2: [0-9A-Za-z_]. *)
Definition is_word (c : ascii) : bool :=
  is_digit c || is_lower c || is_upper c || Ascii.eqb c "_".

(** [[a-h]] *)
Definition is_file (c : ascii) : bool :=
  (Ascii.leb "a" c && Ascii.leb c "h")%char.

(** [[qrnb]] *)
Definition is_promo (c : ascii) : bool :=
  (Ascii.eqb c "q" || Ascii.eqb c "r" || Ascii.eqb c "n" || Ascii.eqb c "b")%char.

(** [[^ ]] *)
Definition not_space (c : ascii) : bool := negb (Ascii.eqb c " ").

(** The white space [strings.TrimSpace] removes from ASCII text:
    tab, line feed, vertical tab, form feed, carriage return, space. *)
Definition is_space (c : ascii) : bool :=
  let n := nat_of_ascii c in
  (Nat.eqb n 9 || Nat.eqb n 10 || Nat.eqb n 11 || Nat.eqb n 12
   || Nat.eqb n 13 || Nat.eqb n 32)%bool.

(** [strip_prefix p s] is [Some t] when [s = p ++ t]. *)
Fixpoint strip_prefix (p s : string) : option string :=
  match p with
  | EmptyString => Some s
  | String a p' =>
      match s with
      | String b s' => if Ascii.eqb a b then strip_prefix p' s' else None
      | EmptyString => None
      end
  end.

(** [strings.Contains(s, sub)] *)
Fixpoint Contains (s sub : string) : bool :=
  match strip_prefix sub s with
  | Some _ => true
  | None =>
      match s with
      | EmptyString => false
      | String _ s' => Contains s' sub
      end
  end.

(** [strings.Split] with a single space as separator: the pieces between
    the spaces; the result always has at least one element. *)
Fixpoint Split (s : string) : list string :=
  match s with
  | EmptyString => [EmptyString]
  | String c s' =>
      if Ascii.eqb c " " then EmptyString :: Split s'
      else match Split s' with
           | tok :: rest => String c tok :: rest
           | [] => [String c EmptyString]
           end
  end.

(** [strings.Join] with a single space as separator. *)
Fixpoint Join (elems : list string) : string :=
  match elems with
  | [] => EmptyString
  | [e] => e
  | e :: rest => e +:+ " " +:+ Join rest
  end.

Fixpoint trim_left (s : string) : string :=
  match s with
  | String c s' => if is_space c then trim_left s' else s
  | EmptyString => EmptyString
  end.

Fixpoint rev_string (s acc : string) : string :=
  match s with
  | EmptyString => acc
  | String c s' => rev_string s' (String c acc)
  end.

(** [strings.TrimSpace] on ASCII text. *)
Definition TrimSpace (s : string) : string :=
  rev_string (trim_left (rev_string (trim_left s) EmptyString)) EmptyString.

End Str.

(** ** strconv *)

Module Strconv.

Definition quote : string := String (ascii_of_nat 34) EmptyString.

Definition syntax_error (s : string) : string :=
  "strconv.Atoi: parsing " +:+ quote +:+ s +:+ quote +:+ ": invalid syntax".

Definition range_error (s : string) : string :=
  "strconv.Atoi: parsing " +:+ quote +:+ s +:+ quote +:+ ": value out of range".

Definition digit_val (c : ascii) : Z := Z.of_nat (nat_of_ascii c) - 48.

(** Value of a run of decimal digits, [None] at the first other byte. *)
Fixpoint digits_val (s : string) (acc : Z) : option Z :=
  match s with
  | EmptyString => Some acc
  | String c s' =>
      if Str.is_digit c then digits_val s' (10 * acc + digit_val c) else None
  end.

(** [strconv.Atoi]: an optional sign, then at least one decimal digit; the
    value must fit an [int]. *)
Definition Atoi (s : string) : result Z :=
  let '(neg, body) :=
    match s with
    | String "-"%char t => (true, t)
    | String "+"%char t => (false, t)
    | _ => (false, s)
    end in
  match body with
  | EmptyString => Fail (syntax_error s)
  | _ =>
      match digits_val body 0 with
      | None => Fail (syntax_error s)
      | Some v =>
          let n := if neg then - v else v in
          if Z.leb GoInt.minInt n && Z.leb n GoInt.maxInt then Ret n
          else Fail (range_error s)
      end
  end.

(** [strconv.Itoa] *)
Definition Itoa (n : Z) : string :=
  NilZero.string_of_int (Z.to_int n).

End Strconv.

(** ** Regular expressions

    The four patterns of [ParseInfo] use literals, character classes,
    concatenation, greedy star, plus and option, and capture groups.  Go's
    [regexp] returns the leftmost match and, among the matches starting
    there, the one a backtracking matcher finds first; [run] is that
    backtracking matcher, written with an explicit continuation.  The
    patterns are matched byte by byte: their literals and classes are
    ASCII, and the only negated class excludes the space, which is no part
    of a multi-byte character, so that runes and bytes give the same
    matches.  No starred sub-pattern matches the empty text. *)

Module Regexp.

Inductive regex : Type :=
| Lit (s : string)
| Cls (p : ascii -> bool)
| Cat (r1 r2 : regex)
| Star (r : regex)
| Opt (r : regex)
| Grp (i : nat) (r : regex).

Definition Plus (r : regex) : regex := Cat r (Star r).

(** Capture groups: the most recent binding of a group comes first. *)
Definition caps : Type := list (nat * string).

Fixpoint cap_lookup (i : nat) (cs : caps) : string :=
  match cs with
  | [] => EmptyString
  | (j, s) :: cs' => if Nat.eqb i j then s else cap_lookup i cs'
  end.

Section Run.
Context {A : Type}.

(** A continuation receives the text just consumed, the remaining
    input and the captures. *)
Definition cont : Type := string -> string -> caps -> option A.

Definition orelse (x : option A) (y : option A) : option A :=
  match x with Some _ => x | None => y end.

(** The iterations of a greedy star whose body is matched by [step]: one
    more iteration is tried first, then the continuation.  An iteration
    must consume input; [n] bounds the number of iterations and is the
    length of the input at the entry of the star. *)
Section Star.
Variable step : string -> caps -> cont -> option A.

Fixpoint star_loop (n : nat) (s : string) (cs : caps) (k : cont) : option A :=
  match n with
  | O => k EmptyString s cs
  | S n' =>
      orelse
        (step s cs (fun c1 s1 cs1 =>
           if Nat.ltb (String.length s1) (String.length s)
           then star_loop n' s1 cs1 (fun c2 s2 cs2 => k (c1 +:+ c2) s2 cs2)
           else None))
        (k EmptyString s cs)
  end.
End Star.

Fixpoint run (r : regex) (s : string) (cs : caps) (k : cont) : option A :=
  match r with
  | Lit l =>
      match Str.strip_prefix l s with
      | Some s' => k l s' cs
      | None => None
      end
  | Cls p =>
      match s with
      | String c s' => if p c then k (String c EmptyString) s' cs else None
      | EmptyString => None
      end
  | Cat r1 r2 =>
      run r1 s cs (fun c1 s1 cs1 =>
        run r2 s1 cs1 (fun c2 s2 cs2 => k (c1 +:+ c2) s2 cs2))
  | Opt r1 => orelse (run r1 s cs k) (k EmptyString s cs)
  | Star r1 => star_loop (run r1) (String.length s) s cs k
  | Grp i r1 => run r1 s cs (fun c s' cs' => k c s' ((i, c) :: cs'))
  end.
End Run.

(** A match: the matched text (submatch 0) and the groups. *)
Definition submatches : Type := (string * caps)%type.

Definition match_here (r : regex) (s : string) : option submatches :=
  run r s [] (fun c _ cs => Some (c, cs)).

(** The leftmost match of [r] in [s]: element 0 of
    [FindAllStringSubmatch(s, -1)], [None] when that result is nil. *)
Fixpoint find (r : regex) (s : string) : option submatches :=
  match match_here r s with
  | Some m => Some m
  | None =>
      match s with
      | EmptyString => None
      | String _ s' => find r s'
      end
  end.

(** [m[i]] for [i >= 1]. *)
Definition group (i : nat) (m : submatches) : string := cap_lookup i (snd m).

End Regexp.

Import Regexp.

(** ** The driver's data (package gostockfish) *)

(** [UCIMoveRegex]: a file letter, a digit, a file letter, a digit and an
    optional promotion piece. *)
Definition UCIMoveRegex : regex :=
  Cat (Cls Str.is_file) (Cat (Cls Str.is_digit)
    (Cat (Cls Str.is_file) (Cat (Cls Str.is_digit) (Opt (Cls Str.is_promo))))).

(** [PVRegex]: a space, the word pv, a space, then group 1 (move_list): one
    move followed by any number of (space, move); the inner parenthesis is
    group 2. *)
Definition PVRegex : regex :=
  Cat (Lit " pv ")
      (Grp 1 (Cat UCIMoveRegex (Star (Grp 2 (Cat (Lit " ") UCIMoveRegex))))).

(** Field names are those of the Go structs, except where two structs
    share one or a field is named like a type: the field [Score] of [Info]
    is [InfoScore], the field [Info] of [BestMove] is [BestInfo] (absent for
    a nil pointer), and the fields [Depth] and [Ponder] of [Engine] are
    [EngineDepth] and [EnginePonder]. *)
Record Score : Type := mkScore { Eval : string; Value : Z }.

Record Info : Type := mkInfo {
  Depth : Z;
  Seldepth : Z;
  Multipv : Z;
  InfoScore : Score;
  Nodes : Z;
  Nps : Z;
  Tbhits : Z;
  Time : Z;
  Pv : string
}.

(** [&Info{}] *)
Definition zeroInfo : Info :=
  mkInfo 0 0 0 (mkScore EmptyString 0) 0 0 0 0 EmptyString.

Record BestMove : Type := mkBestMove {
  Move : string;
  Ponder : string;
  BestInfo : option Info
}.

(** ** ParseInfo *)

(** The notice pattern: info string W evaluation using W enabled, where
    each W is one or more bytes other than a space. *)
Definition noticeRegex : regex :=
  Cat (Lit "info string ")
    (Cat (Plus (Cls Str.not_space))
      (Cat (Lit " evaluation using ")
        (Cat (Plus (Cls Str.not_space)) (Lit " enabled")))).

(** The score pattern: the word score, group 1 (eval) of word bytes,
    group 2 (value) an optional minus sign and digits. *)
Definition scoreRegex : regex :=
  Cat (Lit "score ")
    (Cat (Grp 1 (Plus (Cls Str.is_word)))
      (Cat (Lit " ")
        (Grp 2 (Cat (Opt (Lit "-")) (Plus (Cls Str.is_digit)))))).

(** The pattern of one integer field: the field name, a space, group 1
    (value) of digits. *)
Definition fieldRegex (field : string) : regex :=
  Cat (Lit (field +:+ " ")) (Grp 1 (Plus (Cls Str.is_digit))).

Definition singleValueFields : list string :=
  ["depth"; "seldepth"; "multipv"; "nodes"; "nps"; "tbhits"; "time"].

Definition set_Pv (pv : string) (i : Info) : Info :=
  mkInfo (Depth i) (Seldepth i) (Multipv i) (InfoScore i) (Nodes i) (Nps i)
         (Tbhits i) (Time i) pv.

Definition set_Score (sc : Score) (i : Info) : Info :=
  mkInfo (Depth i) (Seldepth i) (Multipv i) sc (Nodes i) (Nps i)
         (Tbhits i) (Time i) (Pv i).

(** The [if field == ... else if ...] chain of the loop body. *)
Definition assign_field (field : string) (value : Z) (i : Info) : Info :=
  if String.eqb field "depth" then
    mkInfo value (Seldepth i) (Multipv i) (InfoScore i) (Nodes i) (Nps i) (Tbhits i) (Time i) (Pv i)
  else if String.eqb field "seldepth" then
    mkInfo (Depth i) value (Multipv i) (InfoScore i) (Nodes i) (Nps i) (Tbhits i) (Time i) (Pv i)
  else if String.eqb field "multipv" then
    mkInfo (Depth i) (Seldepth i) value (InfoScore i) (Nodes i) (Nps i) (Tbhits i) (Time i) (Pv i)
  else if String.eqb field "nodes" then
    mkInfo (Depth i) (Seldepth i) (Multipv i) (InfoScore i) value (Nps i) (Tbhits i) (Time i) (Pv i)
  else if String.eqb field "nps" then
    mkInfo (Depth i) (Seldepth i) (Multipv i) (InfoScore i) (Nodes i) value (Tbhits i) (Time i) (Pv i)
  else if String.eqb field "tbhits" then
    mkInfo (Depth i) (Seldepth i) (Multipv i) (InfoScore i) (Nodes i) (Nps i) value (Time i) (Pv i)
  else if String.eqb field "time" then
    mkInfo (Depth i) (Seldepth i) (Multipv i) (InfoScore i) (Nodes i) (Nps i) (Tbhits i) value (Pv i)
  else i.

(** The [for _, field := range singleValueFields] loop. *)
Fixpoint parse_fields (fields : list string) (line : string) (res : Info)
  : result Info :=
  match fields with
  | [] => Ret res
  | field :: rest =>
      match find (fieldRegex field) line with
      | None => Fail ("Could not parse " +:+ field +:+ ": " +:+ line)
      | Some m =>
          match Strconv.Atoi (group 1 m) with
          | Ret value => parse_fields rest line (assign_field field value res)
          | Fail e => Fail e
          | Panic p => Panic p
          end
      end
  end.

Definition ParseInfo (line : string) : result Info :=
  let res := zeroInfo in
  match find noticeRegex line with
  | Some _ => Ret res
  | None =>
      match find PVRegex line with
      | None => Fail ("Could not parse pv: " +:+ line)
      | Some mpv =>
          let res := set_Pv (group 1 mpv) res in
          match find scoreRegex line with
          | None => Fail ("Could not parse score: " +:+ line)
          | Some msc =>
              match Strconv.Atoi (group 2 msc) with
              | Fail e => Fail e
              | Panic p => Panic p
              | Ret v =>
                  let res := set_Score (mkScore (group 1 msc) v) res in
                  parse_fields singleValueFields line res
              end
          end
      end
  end.

(** ** ParseBestMove *)

Definition show_nat (n : nat) : string := NilZero.string_of_uint (Nat.to_uint n).

Definition index_out_of_range (i len : nat) : string :=
  "runtime error: index out of range [" +:+ show_nat i +:+ "] with length "
  +:+ show_nat len.

Definition nil_dereference : string :=
  "runtime error: invalid memory address or nil pointer dereference".

(** [xs[i]] on a slice: a run-time panic when [i] is out of range. *)
Definition index (xs : list string) (i : nat) : result string :=
  match xs !! i with
  | Some x => Ret x
  | None => Panic (index_out_of_range i (length xs))
  end.

Definition ParseBestMove (line : string) : result BestMove :=
  let splitText := Str.Split line in
  let ponder :=
    if Nat.ltb (length splitText) 3 then Ret EmptyString
    else index splitText 3 in
  match ponder with
  | Ret ponder =>
      match index splitText 1 with
      | Ret move => Ret (mkBestMove move ponder None)
      | Fail e => Fail e
      | Panic p => Panic p
      end
  | Fail e => Fail e
  | Panic p => Panic p
  end.

(** ** The engine and its process

    [Stdin] is the log of what has been written to the pipe of the child
    process, one entry per write.  [Stdout] holds the results the next calls
    of [ReadLine] deliver, in order; once it is empty [ReadLine] reports
    end of file. *)

Record Engine : Type := mkEngine {
  Executable : string;
  Stdin : list string;
  Stdout : list string;
  EngineDepth : Z;
  EnginePonder : bool;
  Param : gmap string string
}.

Abbreviation heap := (gmap N Engine).

Definition set_Stdin (w : list string) (e : Engine) : Engine :=
  mkEngine (Executable e) w (Stdout e) (EngineDepth e) (EnginePonder e) (Param e).

Definition set_Stdout (r : list string) (e : Engine) : Engine :=
  mkEngine (Executable e) (Stdin e) r (EngineDepth e) (EnginePonder e) (Param e).

Definition set_Param (pm : gmap string string) (e : Engine) : Engine :=
  mkEngine (Executable e) (Stdin e) (Stdout e) (EngineDepth e) (EnginePonder e) pm.

(** Computations over a state [S]: the receiver of a method, or the heap. *)
Definition ST (S A : Type) : Type := S -> result A * S.

Definition ret {S A : Type} (a : A) : ST S A := fun s => (Ret a, s).

Definition bind {S A B : Type} (m : ST S A) (f : A -> ST S B) : ST S B :=
  fun s =>
    match m s with
    | (Ret a, s') => f a s'
    | (Fail e, s') => (Fail e, s')
    | (Panic p, s') => (Panic p, s')
    end.

(** A call whose returned error is dropped by the caller. *)
Definition drop_error {S A : Type} (m : ST S A) : ST S unit :=
  fun s =>
    match m s with
    | (Panic p, s') => (Panic p, s')
    | (_, s') => (Ret tt, s')
    end.

Notation "'let*' x ':=' m 'in' k" := (bind m (fun x => k))
  (at level 10, x name, k at level 200).
Notation "'do' m 'then' k" := (bind m (fun _ => k))
  (at level 10, k at level 200).

(** A method called through an [*Engine]: the receiver is read from the
    heap and written back; a nil receiver panics at its first use, which
    in every method comes before any effect. *)
Definition call {A : Type} (engine : N) (method : ST Engine A) : ST heap A :=
  fun h =>
    match h !! engine with
    | None => (Panic nil_dereference, h)
    | Some e => let '(r, e') := method e in (r, <[engine := e']> h)
    end.

Definition newline : string := String (ascii_of_nat 10) EmptyString.

Definition EOF : string := "EOF".

Module Engine.

(** [Put] writes the command and a line feed to the pipe; the error of
    [io.WriteString] is dropped. *)
Definition Put (command : string) : ST Engine unit :=
  fun e => (Ret tt, set_Stdin (Stdin e ++ [command +:+ newline]) e).

(** The [for] loop of [IsReady] over the lines still to be read: the
    result and the lines left unread. *)
Fixpoint await_readyok (lines : list string) : result unit * list string :=
  match lines with
  | [] => (Fail EOF, [])
  | text :: rest =>
      let line := Str.TrimSpace text in
      if Str.Contains line "No such option:" then (Fail line, rest)
      else if Str.Contains line "Unknown command:" then (Fail line, rest)
      else if String.eqb line "readyok" then (Ret tt, rest)
      else await_readyok rest
  end.

Definition IsReady : ST Engine unit :=
  do Put "isready" then
  fun e => let '(r, rest) := await_readyok (Stdout e) in (r, set_Stdout rest e).

Definition SetOption (optionName value : string) : ST Engine unit :=
  do Put ("setoption name " +:+ optionName +:+ " value " +:+ value) then
  IsReady.

Definition NewGame : ST Engine unit :=
  do Put "ucinewgame" then IsReady.

Definition SetPosition (moves : list string) : ST Engine unit :=
  do Put ("position startpos moves " +:+ Str.Join moves) then IsReady.

Definition SetFENPosition (fen : string) : ST Engine unit :=
  do Put ("position fen " +:+ fen) then IsReady.

Definition Go : ST Engine unit :=
  fun e =>
    (do Put ("go depth " +:+ Strconv.Itoa (EngineDepth e)) then IsReady) e.

(** The [for] loop of [BestMove] over the lines still to be read. *)
Fixpoint await_bestmove (lines : list string) (lastInfo : option Info)
  : result BestMove * list string :=
  match lines with
  | [] => (Fail EOF, [])
  | text :: rest =>
      let line := Str.TrimSpace text in
      let splitText := Str.Split line in
      match index splitText 0 with
      | Ret first =>
          let parsed :=
            if String.eqb first "info" then
              match ParseInfo line with
              | Ret i => Ret (Some i)
              | Fail e => Fail e
              | Panic p => Panic p
              end
            else Ret lastInfo in
          match parsed with
          | Ret lastInfo' =>
              if String.eqb first "bestmove" then
                match ParseBestMove line with
                | Ret bestMove =>
                    (Ret (mkBestMove (Move bestMove) (Ponder bestMove) lastInfo'), rest)
                | Fail e => (Fail e, rest)
                | Panic p => (Panic p, rest)
                end
              else await_bestmove rest lastInfo'
          | Fail e => (Fail e, rest)
          | Panic p => (Panic p, rest)
          end
      | Fail e => (Fail e, rest)
      | Panic p => (Panic p, rest)
      end
  end.

Definition BestMove : ST Engine BestMove :=
  do drop_error Go then
  fun e =>
    let '(r, rest) := await_bestmove (Stdout e) None in (r, set_Stdout rest e).

End Engine.

(** ** NewEngineWithAllOptions *)

(** What the operating system and the run time contribute to one launch:
    whether the two pipes can be created, what the child process prints,
    the draw of the random source, and the order in which [range] visits
    the entries of the option map. *)
Record Launch : Type := mkLaunch {
  StdinPipeErr : option string;
  StdoutPipeErr : option string;
  Output : list string;
  Draw : Z;
  RangeOrder : list (string * string) -> list (string * string)
}.

(** [rand.Intn(n)]: a value in [0, n); a panic unless [0 < n]. *)
Definition Intn (draw n : Z) : result Z :=
  if Z.leb n 0 then Panic "invalid argument to Intn" else Ret (draw mod n).

Definition baseParam : gmap string string :=
  <["Contempt" := "0"]> (<["Threads" := "1"]> (<["Hash" := "16"]>
  (<["MultiPV" := "1"]> (<["Skill Level" := "20"]> (<["Move Overhead" := "30"]>
  (<["Slow Mover" := "80"]> (<["UCI_Chess960" := "false"]> ∅))))))).

(** The statement guarded by [random]: the Contempt entry becomes
    [Itoa (Intn (randMax - randMin) + randMin)]. *)
Definition randomContempt (random : bool) (randMin randMax draw : Z)
    (bp : gmap string string) : result (gmap string string) :=
  if random then
    match Intn draw (GoInt.sub randMax randMin) with
    | Ret n => Ret (<["Contempt" := Strconv.Itoa (GoInt.add n randMin)]> bp)
    | Fail e => Fail e
    | Panic p => Panic p
    end
  else Ret bp.

(** The loop over [param]: every caller-supplied entry is written into
    the base map. *)
Definition applyOverrides (param bp : gmap string string) : gmap string string :=
  map_fold (fun name value acc => <[name := value]> acc) bp param.

(** The loop over [engine.Param]: one [SetOption] per entry, leaving at
    the first error. *)
Fixpoint setOptions (entries : list (string * string)) : ST Engine unit :=
  match entries with
  | [] => ret tt
  | (name, value) :: rest =>
      do Engine.SetOption name value then setOptions rest
  end.

(** The part of the constructor that runs once both pipes exist and the
    process is started. *)
Definition configure (env : Launch) (ponder : bool) (param : gmap string string)
    (random : bool) (randMin randMax : Z) : ST Engine unit :=
  do Engine.Put "uci" then
  do (if negb ponder then drop_error (Engine.SetOption "Ponder" "false")
      else ret tt) then
  fun e =>
    match randomContempt random randMin randMax (Draw env) baseParam with
    | Panic p => (Panic p, e)
    | Fail err => (Fail err, e)
    | Ret bp =>
        let bp := applyOverrides param bp in
        setOptions (RangeOrder env (map_to_list bp)) (set_Param bp e)
    end.

(** The address of a new [Engine]: not nil, not in use. *)
Definition allocate (h : heap) : N :=
  N.succ (map_fold (fun (engine : N) (_ : Engine) (top : N) => N.max engine top) 0%N h).

(** [return nil, err] leaves the heap as it was: the engine built so far is
    unreachable. *)
Definition NewEngineWithAllOptions (env : Launch) (stockfishExecutable : string)
    (depth : Z) (ponder : bool) (param : gmap string string)
    (random : bool) (randMin randMax : Z) : ST heap N :=
  fun h =>
    match StdinPipeErr env with
    | Some err => (Fail err, h)
    | None =>
        match StdoutPipeErr env with
        | Some err => (Fail err, h)
        | None =>
            let engine :=
              mkEngine stockfishExecutable [] (Output env) depth ponder param in
            match configure env ponder param random randMin randMax engine with
            | (Ret _, engine') =>
                (Ret (allocate h), <[allocate h := engine']> h)
            | (Fail err, _) => (Fail err, h)
            | (Panic p, _) => (Panic p, h)
            end
        end
    end.

(** ** match.go *)

Definition MaxMoves : nat := 500.

Record Match : Type := mkMatch {
  White : string;
  WhiteEngine : N;
  Black : string;
  BlackEngine : N;
  Moves : list string;
  Winner : string;
  WinnerEngine : N
}.

Definition set_Moves (ms : list string) (m : Match) : Match :=
  mkMatch (White m) (WhiteEngine m) (Black m) (BlackEngine m) ms (Winner m) (WinnerEngine m).

Definition set_Winner (engine : N) (name : string) (m : Match) : Match :=
  mkMatch (White m) (WhiteEngine m) (Black m) (BlackEngine m) (Moves m) name engine.

(** [NewMatch]; [coin] is the value of [rand.Int()], nil is address 0. *)
Definition NewMatch (coin : Z) (e1 : string) (engine1 : N) (e2 : string) (engine2 : N)
  : ST heap Match :=
  let m :=
    if Z.eqb (coin mod 2) 0 then mkMatch e1 engine1 e2 engine2 [] EmptyString 0%N
    else mkMatch e2 engine2 e1 engine1 [] EmptyString 0%N in
  do call engine1 Engine.NewGame then
  do call engine2 Engine.NewGame then
  ret (set_Winner 0%N EmptyString m).

Module Match.

(** The engine whose turn it is, with its name, then the other one. *)
Definition sides (m : Match) : (N * string) * (N * string) :=
  if negb (Nat.eqb (length (Moves m) mod 2) 0)
  then ((BlackEngine m, Black m), (WhiteEngine m, White m))
  else ((WhiteEngine m, White m), (BlackEngine m, Black m)).

Definition Move (m : Match) (h : heap) : result bool * Match * heap :=
  if Nat.eqb (length (Moves m)) MaxMoves then (Ret false, m, h)
  else
    let '((activeEngine, activeEngineName), (inactiveEngine, inactiveEngineName)) :=
      sides m in
    match call activeEngine (drop_error (Engine.SetPosition (Moves m))) h with
    | (Panic p, h1) => (Panic p, m, h1)
    | (Fail e, h1) => (Fail e, m, h1)
    | (Ret _, h1) =>
        match call activeEngine Engine.BestMove h1 with
        | (Fail err, h2) => (Fail err, m, h2)
        | (Panic p, h2) => (Panic p, m, h2)
        | (Ret bestMove, h2) =>
            let m := set_Moves (Moves m ++ [Move bestMove]) m in
            match BestInfo bestMove with
            | None => (Panic nil_dereference, m, h2)
            | Some info =>
                if String.eqb (Eval (InfoScore info)) "mate" then
                  let matenum := Value (InfoScore info) in
                  let m :=
                    if Z.ltb 0 matenum then set_Winner activeEngine activeEngineName m
                    else if Z.ltb matenum 0 then set_Winner inactiveEngine inactiveEngineName m
                    else m in
                  (Ret false, m, h2)
                else if negb (String.eqb (Ponder bestMove) "(none)") then (Ret true, m, h2)
                else (Ret false, m, h2)
            end
        end
    end.

(** [Run]: the loop of [Move]s, unrolled at most [fuel] times; [None] when
    the fuel is used up before the loop ends. *)
Fixpoint Run (fuel : nat) (m : Match) (h : heap)
  : option (result string * Match * heap) :=
  match fuel with
  | O => None
  | S fuel' =>
      match Move m h with
      | (Fail err, m', h') => Some (Fail err, m', h')
      | (Panic p, m', h') => Some (Panic p, m', h')
      | (Ret move, m', h') =>
          if negb move then Some (Ret (Winner m'), m', h')
          else Run fuel' m' h'
      end
  end.

End Match.

(** ** Vocabulary of the statements *)

(** The engine [Move] drives, the other one, and their names. *)
Definition active (m : Match) : N := fst (fst (Match.sides m)).
Definition activeName (m : Match) : string := snd (fst (Match.sides m)).
Definition inactive (m : Match) : N := fst (snd (Match.sides m)).
Definition inactiveName (m : Match) : string := snd (snd (Match.sides m)).

(** What one [Move] below the ceiling writes to the active engine. *)
Definition moveCommands (m : Match) (e : Engine) : list string :=
  [("position startpos moves " +:+ Str.Join (Moves m)) +:+ newline;
   "isready" +:+ newline;
   ("go depth " +:+ Strconv.Itoa (EngineDepth e)) +:+ newline;
   "isready" +:+ newline].

(** The lines an engine has still to deliver. *)
Definition pending (h : heap) (engine : N) : nat :=
  match h !! engine with
  | Some e => length (Stdout e)
  | None => O
  end.

(** No line any engine will print carries a mate score. *)
Definition no_mate_score (h : heap) : Prop :=
  forall (engine : N) (e : Engine) (text : string) (i : Info),
    h !! engine = Some e -> In text (Stdout e) ->
    ParseInfo (Str.TrimSpace text) = Ret i -> Eval (InfoScore i) <> "mate".

(** The outcome of a [Move] below the ceiling once [BestMove] has
    answered [r]: the text of [Move] after the call. *)
Definition afterBestMove (m : Match) (r : result BestMove) : result bool * Match :=
  match r with
  | Fail err => (Fail err, m)
  | Panic p => (Panic p, m)
  | Ret bestMove =>
      let m1 := set_Moves (Moves m ++ [Move bestMove]) m in
      match BestInfo bestMove with
      | None => (Panic nil_dereference, m1)
      | Some info =>
          if String.eqb (Eval (InfoScore info)) "mate" then
            (Ret false,
             if Z.ltb 0 (Value (InfoScore info))
             then set_Winner (active m) (activeName m) m1
             else if Z.ltb (Value (InfoScore info)) 0
                  then set_Winner (inactive m) (inactiveName m) m1
                  else m1)
          else if negb (String.eqb (Ponder bestMove) "(none)") then (Ret true, m1)
          else (Ret false, m1)
      end
  end.

(** Concrete inputs used to exercise the statements. *)
Definition demoEngine (lines : list string) : Engine :=
  mkEngine "stockfish" [] lines 2 false ∅.

Definition mateLines (value : string) : list string :=
  ["readyok"; "readyok";
   "info depth 10 seldepth 12 multipv 1 score mate " +:+ value
     +:+ " nodes 2378 nps 1189000 tbhits 0 time 2 pv h3g3 g6f7";
   "bestmove h3g3 ponder g6f7"].

Definition quietLines : list string :=
  ["readyok"; "readyok";
   "info depth 2 seldepth 3 multipv 1 score cp -656 nodes 43 nps 43000 tbhits 0 time 1 pv g7g6 h3g3 g6f7";
   "bestmove g7g6 ponder h3g3"].

Definition demoMatch (moves : list string) : Match :=
  mkMatch "deep" 1%N "shallow" 2%N moves EmptyString 0%N.

Definition demoHeap (white black : list string) : heap :=
  <[1%N := demoEngine white]> (<[2%N := demoEngine black]> ∅).

(** A launch whose process acknowledges every probe; [range] visits the
    entries in the order of [map_to_list]. *)
Definition demoLaunch (draw : Z) : Launch :=
  mkLaunch None None (repeat "readyok" 12) draw (fun entries => entries).

(** ** Well-formed info lines

    The text of an info line is built from its fields; the statements
    about [ParseInfo] quantify over these descriptions. *)

Inductive intKey : Type :=
| KDepth | KSeldepth | KMultipv | KNodes | KNps | KTbhits | KTime.

Definition keyName (k : intKey) : string :=
  match k with
  | KDepth => "depth"
  | KSeldepth => "seldepth"
  | KMultipv => "multipv"
  | KNodes => "nodes"
  | KNps => "nps"
  | KTbhits => "tbhits"
  | KTime => "time"
  end.

(** An integer field with the digits of its value, or the score field with
    its kind, its sign and the digits of its value. *)
Inductive field : Type :=
| IntField (key : intKey) (digits : string)
| ScoreField (eval : string) (negative : bool) (digits : string).

Definition signText (negative : bool) : string :=
  if negative then "-" else EmptyString.

Definition fieldText (f : field) : string :=
  match f with
  | IntField key digits => " " +:+ keyName key +:+ " " +:+ digits
  | ScoreField eval negative digits =>
      " score " +:+ eval +:+ " " +:+ signText negative +:+ digits
  end.

Fixpoint fieldsText (fs : list field) : string :=
  match fs with
  | [] => EmptyString
  | f :: rest => fieldText f +:+ fieldsText rest
  end.

(** The line: the word info, the fields in the given order, then the pv
    field with the moves separated by single spaces. *)
Definition infoLine (fs : list field) (moves : list string) : string :=
  "info" +:+ fieldsText fs +:+ " pv " +:+ Str.Join moves.

(** The number a run of decimal digits denotes. *)
Fixpoint literal_from (acc : Z) (digits : string) : Z :=
  match digits with
  | EmptyString => acc
  | String c rest => literal_from (10 * acc + Strconv.digit_val c) rest
  end.

Definition literal (digits : string) : Z := literal_from 0 digits.

Definition signed (negative : bool) (digits : string) : Z :=
  if negative then - literal digits else literal digits.

Fixpoint all_chars (p : ascii -> bool) (s : string) : bool :=
  match s with
  | EmptyString => true
  | String c rest => p c && all_chars p rest
  end.

(** One or more decimal digits. *)
Definition is_digits (s : string) : bool :=
  match s with
  | EmptyString => false
  | String _ _ => all_chars Str.is_digit s
  end.

(** The lexical form of a move: file, digit, file, digit and an optional
    promotion piece. *)
Definition is_uci_move (mv : string) : bool :=
  match mv with
  | String f1 (String d1 (String f2 (String d2 tl))) =>
      Str.is_file f1 && Str.is_digit d1 && Str.is_file f2 && Str.is_digit d2
      && match tl with
         | EmptyString => true
         | String p EmptyString => Str.is_promo p
         | _ => false
         end
  | _ => false
  end.

(** A field is well formed when its value is a run of digits that fits an
    int, and the kind of a score is cp or mate. *)
Definition wf_field (f : field) : bool :=
  match f with
  | IntField _ digits => is_digits digits && Z.leb (literal digits) GoInt.maxInt
  | ScoreField eval negative digits =>
      (String.eqb eval "cp" || String.eqb eval "mate")
      && is_digits digits
      && Z.leb GoInt.minInt (signed negative digits)
      && Z.leb (signed negative digits) GoInt.maxInt
  end.

(** Among the depth and seldepth fields of the line, the first one is a
    depth field. *)
Fixpoint depth_first (fs : list field) : bool :=
  match fs with
  | [] => true
  | IntField KDepth _ :: _ => true
  | IntField KSeldepth _ :: _ => false
  | _ :: rest => depth_first rest
  end.

(** The info lines of the examples in the source, and two variations. *)
Definition sourceLine : string :=
  "info depth 2 seldepth 3 multipv 1 score cp -656 nodes 43 nps 43000 tbhits 0 time 1 pv g7g6 h3g3 g6f7".

Definition seldepthFirstLine : string :=
  "info seldepth 3 depth 2 multipv 1 score cp -656 nodes 43 nps 43000 tbhits 0 time 1 pv g7g6 h3g3 g6f7".

Definition noDepthLine : string :=
  "info seldepth 3 multipv 1 score cp -656 nodes 43 nps 43000 tbhits 0 time 1 pv g7g6 h3g3 g6f7".

Definition hugeDepthLine : string :=
  "info depth 9223372036854775808 seldepth 3 multipv 1 score cp -656 nodes 43 nps 43000 tbhits 0 time 1 pv g7g6 h3g3 g6f7".

(** ** Vocabulary of the statements about the patterns *)

(** The matcher answers with a result that satisfies [Q]. *)
Definition yields {A : Type} (Q : A -> Prop) (o : option A) : Prop :=
  exists y, o = Some y /\ Q y.

(** Where the next byte is not in the class, or the input has ended. *)
Definition head_not (p : ascii -> bool) (s : string) : bool :=
  match s with
  | EmptyString => true
  | String c _ => negb (p c)
  end.

Inductive pat : Type :=
| PField (k : intKey)
| PScore
| PPv
| PNotice.

Definition patRegex (p : pat) : regex :=
  match p with
  | PField k => fieldRegex (keyName k)
  | PScore => scoreRegex
  | PPv => PVRegex
  | PNotice => noticeRegex
  end.

Definition key_eqb (a b : intKey) : bool :=
  match a, b with
  | KDepth, KDepth | KSeldepth, KSeldepth | KMultipv, KMultipv | KNodes, KNodes
  | KNps, KNps | KTbhits, KTbhits | KTime, KTime => true
  | _, _ => false
  end.

(** The pattern finds nothing in the text of the field: the field is not
    the one it looks for, and the name it looks for does not end the name
    of the field. *)
Definition passes (p : pat) (f : field) : bool :=
  match p, f with
  | PField KDepth, IntField KSeldepth _ => false
  | PField k, IntField k' _ => negb (key_eqb k k')
  | PScore, ScoreField _ _ _ => false
  | _, _ => true
  end.

(** The moves after the first, each behind its space. *)
Fixpoint movesTail (moves : list string) : string :=
  match moves with
  | [] => EmptyString
  | mv :: rest => " " +:+ mv +:+ movesTail rest
  end.

Definition fieldKey (f : field) : option intKey :=
  match f with
  | IntField k _ => Some k
  | ScoreField _ _ _ => None
  end.

Definition canonicalFields (d sd mp eval : string) (neg : bool)
    (sv n np tb ti : string) : list field :=
  [IntField KDepth d; IntField KSeldepth sd; IntField KMultipv mp;
   ScoreField eval neg sv; IntField KNodes n; IntField KNps np;
   IntField KTbhits tb; IntField KTime ti].

(** The text of the pv field. *)
Definition pvText (moves : list string) : string := " pv " +:+ Str.Join moves.

(** The fields of the first example of the source in another order, depth
    still before seldepth, and its moves. *)
Definition shuffledFields : list field :=
  [IntField KTime "1"; ScoreField "cp" true "656"; IntField KDepth "2";
   IntField KNodes "43"; IntField KSeldepth "3"; IntField KTbhits "0";
   IntField KNps "43000"; IntField KMultipv "1"].

(** The same fields with seldepth before depth. *)
Definition seldepthFirstFields : list field :=
  [IntField KSeldepth "3"; IntField KDepth "2"; IntField KMultipv "1";
   ScoreField "cp" true "656"; IntField KNodes "43"; IntField KNps "43000";
   IntField KTbhits "0"; IntField KTime "1"].

Definition sourceMoves : list string := ["g7g6"; "h3g3"; "g6f7"].

(** The fields of the first example with a depth of 2^63. *)
Definition hugeDepthFields : list field :=
  canonicalFields "9223372036854775808" "3" "1" "cp" true "656" "43" "43000" "0" "1".

(** One or more bytes, none of them a space. *)
Definition is_word_run (s : string) : bool :=
  match s with
  | EmptyString => false
  | String _ _ => all_chars Str.not_space s
  end.

(** ** Vocabulary of the statements about the handshake and the search loop *)

(** What [IsReady] makes of one line: a diagnostic, the acknowledgement,
    or something it passes over. *)
Definition is_diagnostic (text : string) : bool :=
  Str.Contains (Str.TrimSpace text) "No such option:"
  || Str.Contains (Str.TrimSpace text) "Unknown command:".

Definition is_readyok (text : string) : bool :=
  String.eqb (Str.TrimSpace text) "readyok".

Definition is_chatter (text : string) : bool :=
  negb (is_diagnostic text) && negb (is_readyok text).

(** The line at which the handshake stops, with or without an error. *)
Definition ends_handshake (text : string) : bool :=
  is_diagnostic text || is_readyok text.

(** The first token of a line, as [BestMove] reads it. *)
Definition firstToken (text : string) : string :=
  match Str.Split (Str.TrimSpace text) with
  | tok :: _ => tok
  | [] => EmptyString
  end.

Definition is_info_line (text : string) : bool :=
  String.eqb (firstToken text) "info".

Definition is_bestmove_line (text : string) : bool :=
  String.eqb (firstToken text) "bestmove".

(** A line the search loop reads without stopping: not a bestmove line,
    and, if it is an info line, one that parses. *)
Definition is_passed (text : string) : bool :=
  negb (is_bestmove_line text)
  && (if is_info_line text
      then match ParseInfo (Str.TrimSpace text) with Ret _ => true | _ => false end
      else true).

(** A line the search loop ignores: neither info nor bestmove. *)
Definition is_ignored (text : string) : bool :=
  negb (is_bestmove_line text) && negb (is_info_line text).

(** The engine after some writes to its pipe, with [rest] left to read. *)
Definition advance (e : Engine) (writes rest : list string) : Engine :=
  mkEngine (Executable e) (Stdin e ++ writes) rest
           (EngineDepth e) (EnginePonder e) (Param e).

(** The two writes of [Go]. *)
Definition goCommands (e : Engine) : list string :=
  [("go depth " +:+ Strconv.Itoa (EngineDepth e)) +:+ newline;
   "isready" +:+ newline].

(** The engine [e'] is [e] later on: the same configuration, more written,
    less left to read. *)
Definition evolves (e e' : Engine) : Prop :=
  Executable e' = Executable e /\
  EngineDepth e' = EngineDepth e /\
  EnginePonder e' = EnginePonder e /\
  Param e' = Param e /\
  (exists writes, Stdin e' = Stdin e ++ writes) /\
  (exists read, Stdout e = read ++ Stdout e').

(** Outputs of a search used to exercise the statements. *)
Definition firstInfoLine : string :=
  "info depth 1 seldepth 1 multipv 1 score cp 30 nodes 20 nps 20000 tbhits 0 time 1 pv e2e4".

Definition mateInfoLine : string :=
  "info depth 10 seldepth 12 multipv 1 score mate 5 nodes 2378 nps 1189000 tbhits 0 time 2 pv h3g3 g6f7".

Definition searchOutput : list string :=
  ["readyok"; firstInfoLine; sourceLine; ""; "bestmove g7g6 ponder h3g3"; "left"].

Definition earlyInfoOutput : list string :=
  [mateInfoLine; "readyok"; "bestmove h3g3 ponder g6f7"].

Definition currmoveOutput : list string :=
  ["readyok"; "info depth 20 currmove e2e4 currmovenumber 1";
   "bestmove e2e4 ponder e7e5"].

(** The two writes of [NewGame]. *)
Definition newGameCommands : list string :=
  ["ucinewgame" +:+ newline; "isready" +:+ newline].

(** A match keeps its two sides. *)
Definition same_sides (m m' : Match) : Prop :=
  White m' = White m /\ WhiteEngine m' = WhiteEngine m /\
  Black m' = Black m /\ BlackEngine m' = BlackEngine m.

(** Output of an engine for one [Move] that ends without a reply: both
    handshakes acknowledged, an evaluation in centipawns, and a bestmove
    line whose ponder is the (none) marker. *)
Definition noReplyLines : list string :=
  ["readyok"; "readyok"; firstInfoLine; "bestmove e2e4 ponder (none)"].

(** Output for one [Move] without any info line. *)
Definition bareLines : list string :=
  ["readyok"; "readyok"; "bestmove e2e4 ponder e7e5"].

(** ** The two short constructors *)

Definition NewEngine (env : Launch) : ST heap N :=
  NewEngineWithAllOptions env "stockfish" 2 false ∅ false (-10) 10.

Definition NewEngineWithDepth (env : Launch) (depth : Z) : ST heap N :=
  NewEngineWithAllOptions env "stockfish" depth false ∅ false (-10) 10.

(** ** Vocabulary for the statements about the constructor *)

(** The two writes of one [SetOption]. *)
Definition optionCommands (name value : string) : list string :=
  [("setoption name " +:+ name +:+ " value " +:+ value) +:+ newline;
   "isready" +:+ newline].

(** The writes of the loop over [engine.Param]. *)
Definition optionsCommands (entries : list (string * string)) : list string :=
  flat_map (fun entry => optionCommands (fst entry) (snd entry)) entries.

(** Everything the constructor writes when it sets all of [entries]. *)
Definition constructorCommands (ponder : bool) (entries : list (string * string))
  : list string :=
  ("uci" +:+ newline)
    :: (if ponder then [] else optionCommands "Ponder" "false")
    ++ optionsCommands entries.

(** The answer of the engine to one probe: lines it passes over, then the
    acknowledgement. *)
Definition acknowledges (block : list string * string) : bool :=
  forallb is_chatter (fst block) && is_readyok (snd block).

Definition blockLines (blocks : list (list string * string)) : list string :=
  flat_map (fun block => fst block ++ [snd block]) blocks.

(** The lines read by the handshake of the Ponder option, which is only
    sent when [ponder] is not set. *)
Definition ponderLines (ponder : bool) (pre : list string) (stop : string)
  : list string :=
  if ponder then [] else pre ++ [stop].

(** The Contempt entry the constructor starts from. *)
Definition contemptOf (random : bool) (randMin randMax draw : Z) : string :=
  if random
  then Strconv.Itoa (GoInt.add (draw mod GoInt.sub randMax randMin) randMin)
  else "0".

(** A launch whose process rejects the second option it is sent. *)
Definition rejectingLaunch : Launch :=
  mkLaunch None None
    ["Stockfish 12"; "uciok"; "readyok"; "readyok"; "No such option: Style"; "readyok"]
    0 (fun entries => entries).
(** The seven counters of an evaluation are natural numbers that fit an
    [int]. *)
Definition is_count (value : Z) : Prop := 0 <= value <= GoInt.maxInt.

Definition counts_in_range (i : Info) : Prop :=
  is_count (Depth i) /\ is_count (Seldepth i) /\ is_count (Multipv i) /\
  is_count (Nodes i) /\ is_count (Nps i) /\ is_count (Tbhits i) /\
  is_count (Time i).

(** A line the engine prints while it searches a single move. *)
Definition currmoveLine : string :=
  "info depth 20 currmove e2e4 currmovenumber 1".

(** The line holds none of the markers [ParseInfo] searches for: the pv,
    the score and the seven counters. *)
Definition lacks_fields (line : string) : bool :=
  negb (Str.Contains line " pv ")
  && negb (Str.Contains line "score ")
  && forallb (fun field => negb (Str.Contains line (field +:+ " ")))
             singleValueFields.

(** Two notices in free form. *)
Definition helloNotice : string := "info string hello".

Definition classicalNotice : string := "info string classical evaluation enabled".

(* ===================================================================== *)
(** * Properties *)

(** ** ParseBestMove *)

(** [Split] never returns an empty slice. *)
Lemma Split_nonempty (s : string) : Str.Split s <> [].
Proof.
  destruct s as [|c s]; simpl; [discriminate|].
  destruct (Ascii.eqb c " "); [discriminate|].
  destruct (Str.Split s); discriminate.
Qed.

(** C5: a line with fewer than two tokens makes [ParseBestMove] panic on
    [splitText[1]]; no error is returned. *)
Theorem ParseBestMove_one_token_panics (line : string) :
  (length (Str.Split line) < 2)%nat ->
  ParseBestMove line = Panic "runtime error: index out of range [1] with length 1".
Proof.
  intros Hlen. unfold ParseBestMove.
  pose proof (Split_nonempty line) as Hne.
  destruct (Str.Split line) as [|t0 [|t1 rest]]; simpl in *;
    [congruence | reflexivity | lia].
Qed.

Lemma ParseBestMove_one_token_panics_witness :
  (length (Str.Split "bestmove") < 2)%nat /\
  ParseBestMove "bestmove" = Panic "runtime error: index out of range [1] with length 1".
Proof.
  split; [simpl; lia | apply ParseBestMove_one_token_panics; simpl; lia].
Defined.

(** C6: a line with exactly three tokens has no fourth token, yet the test
    [len(splitText) < 3] sends it to [splitText[3]], which panics. *)
Theorem ParseBestMove_three_tokens_panics (line : string) :
  length (Str.Split line) = 3%nat ->
  ParseBestMove line = Panic "runtime error: index out of range [3] with length 3".
Proof.
  intros Hlen. unfold ParseBestMove.
  destruct (Str.Split line) as [|t0 [|t1 [|t2 [|t3 rest]]]]; simpl in *;
    try discriminate. reflexivity.
Qed.

Lemma ParseBestMove_three_tokens_panics_witness :
  length (Str.Split "bestmove d2d4 ponder") = 3%nat /\
  ParseBestMove "bestmove d2d4 ponder"
  = Panic "runtime error: index out of range [3] with length 3".
Proof.
  split; [reflexivity | apply ParseBestMove_three_tokens_panics; reflexivity].
Defined.

(** ** The engine methods, seen from the receiver *)

Lemma await_readyok_suffix (lines : list string) :
  exists read, lines = read ++ snd (Engine.await_readyok lines).
Proof.
  induction lines as [|text rest IH]; simpl.
  - exists []. reflexivity.
  - destruct (Str.Contains (Str.TrimSpace text) "No such option:");
      [exists [text]; reflexivity|].
    destruct (Str.Contains (Str.TrimSpace text) "Unknown command:");
      [exists [text]; reflexivity|].
    destruct (String.eqb (Str.TrimSpace text) "readyok");
      [exists [text]; reflexivity|].
    destruct IH as [read IH]. exists (text :: read). simpl. congruence.
Qed.

Lemma await_bestmove_suffix (lines : list string) (last : option Info) :
  exists read, lines = read ++ snd (Engine.await_bestmove lines last).
Proof.
  revert last. induction lines as [|text rest IH]; intros last; simpl.
  - exists []. reflexivity.
  - destruct (index (Str.Split (Str.TrimSpace text)) 0) as [first|e|p];
      try (exists [text]; reflexivity).
    destruct (String.eqb first "info").
    + destruct (ParseInfo (Str.TrimSpace text)) as [i|e|p];
        try (exists [text]; reflexivity).
      destruct (String.eqb first "bestmove").
      * destruct (ParseBestMove (Str.TrimSpace text));
          exists [text]; reflexivity.
      * destruct (IH (Some i)) as [read Hr]. exists (text :: read).
        simpl. congruence.
    + destruct (String.eqb first "bestmove").
      * destruct (ParseBestMove (Str.TrimSpace text));
          exists [text]; reflexivity.
      * destruct (IH last) as [read Hr]. exists (text :: read).
        simpl. congruence.
Qed.

(** A returned best move has consumed at least its own line. *)
Lemma await_bestmove_consumes (lines : list string) (last : option Info)
    (bm : BestMove) (rest : list string) :
  Engine.await_bestmove lines last = (Ret bm, rest) ->
  (length rest < length lines)%nat.
Proof.
  intros H. destruct (await_bestmove_suffix lines last) as [read Hr].
  rewrite H in Hr. simpl in Hr.
  destruct read as [|t read].
  - destruct lines as [|text lines']; [discriminate H|].
    simpl in Hr. subst rest.
    (* the loop never returns its whole input *)
    exfalso. clear -H.
    assert (Hlen : forall ls lst r rs, Engine.await_bestmove ls lst = (r, rs) ->
                     (length rs <= length ls)%nat /\ (ls <> [] -> length rs < length ls)%nat).
    { induction ls as [|t ls IH]; intros lst r rs Hs; simpl in Hs.
      - injection Hs as <- <-. split; [simpl; lia | congruence].
      - assert (Hgoal : (length rs <= length ls)%nat).
        { destruct (index (Str.Split (Str.TrimSpace t)) 0) as [first|e|p];
            try (injection Hs as <- <-; lia).
          destruct (String.eqb first "info").
          - destruct (ParseInfo (Str.TrimSpace t)) as [i|e|p];
              try (injection Hs as <- <-; lia).
            destruct (String.eqb first "bestmove").
            + destruct (ParseBestMove (Str.TrimSpace t));
                injection Hs as <- <-; lia.
            + apply IH in Hs. lia.
          - destruct (String.eqb first "bestmove").
            + destruct (ParseBestMove (Str.TrimSpace t));
                injection Hs as <- <-; lia.
            + apply IH in Hs. lia. }
        split; simpl; [lia | intros _; lia]. }
    apply Hlen in H. destruct H as [_ H].
    specialize (H ltac:(discriminate)). simpl in H. lia.
  - rewrite Hr. simpl. rewrite length_app. lia.
Qed.

(** The info carried by a returned best move is the one given at the
    start or the parse of one of the lines read. *)
Lemma await_bestmove_info (lines : list string) (last : option Info)
    (bm : BestMove) (rest : list string) :
  Engine.await_bestmove lines last = (Ret bm, rest) ->
  BestInfo bm = last \/
  exists text i, In text lines /\ ParseInfo (Str.TrimSpace text) = Ret i
                 /\ BestInfo bm = Some i.
Proof.
  revert last. induction lines as [|text ls IH]; intros last H; simpl in H.
  - discriminate.
  - destruct (index (Str.Split (Str.TrimSpace text)) 0) as [first|e|p];
      try discriminate.
    destruct (String.eqb first "info").
    + destruct (ParseInfo (Str.TrimSpace text)) as [i|e|p] eqn:Hp;
        try discriminate.
      destruct (String.eqb first "bestmove").
      * destruct (ParseBestMove (Str.TrimSpace text)); try discriminate.
        injection H as <- <-. right. exists text, i. simpl. auto.
      * apply IH in H. destruct H as [H|(t & j & Hin & Hj & Hb)].
        -- right. exists text, i. simpl. auto.
        -- right. exists t, j. simpl. auto.
    + destruct (String.eqb first "bestmove").
      * destruct (ParseBestMove (Str.TrimSpace text)); try discriminate.
        injection H as <- <-. left. reflexivity.
      * apply IH in H. destruct H as [H|(t & j & Hin & Hj & Hb)].
        -- left. exact H.
        -- right. exists t, j. simpl. auto.
Qed.

Lemma await_readyok_no_panic (lines : list string) (p : string) :
  fst (Engine.await_readyok lines) <> Panic p.
Proof.
  induction lines as [|text rest IH]; simpl; [discriminate|].
  destruct (Str.Contains (Str.TrimSpace text) "No such option:"); [discriminate|].
  destruct (Str.Contains (Str.TrimSpace text) "Unknown command:"); [discriminate|].
  destruct (String.eqb (Str.TrimSpace text) "readyok"); [discriminate|].
  exact IH.
Qed.

Lemma SetPosition_eq (moves : list string) (e : Engine) :
  drop_error (Engine.SetPosition moves) e
  = (Ret tt,
     mkEngine (Executable e)
       (Stdin e ++ [("position startpos moves " +:+ Str.Join moves) +:+ newline;
                    "isready" +:+ newline])
       (snd (Engine.await_readyok (Stdout e)))
       (EngineDepth e) (EnginePonder e) (Param e)).
Proof.
  unfold drop_error, Engine.SetPosition, Engine.IsReady, bind, Engine.Put. simpl.
  pose proof (await_readyok_no_panic (Stdout e)) as Hnp.
  destruct (Engine.await_readyok (Stdout e)) as [[u|err|p] rest]; simpl;
    try (rewrite <- app_assoc; reflexivity).
  exfalso. exact (Hnp p eq_refl).
Qed.

Lemma Go_eq (e : Engine) :
  drop_error Engine.Go e
  = (Ret tt,
     mkEngine (Executable e)
       (Stdin e ++ [("go depth " +:+ Strconv.Itoa (EngineDepth e)) +:+ newline;
                    "isready" +:+ newline])
       (snd (Engine.await_readyok (Stdout e)))
       (EngineDepth e) (EnginePonder e) (Param e)).
Proof.
  unfold drop_error, Engine.Go, Engine.IsReady, bind, Engine.Put. simpl.
  pose proof (await_readyok_no_panic (Stdout e)) as Hnp.
  destruct (Engine.await_readyok (Stdout e)) as [[u|err|p] rest]; simpl;
    try (rewrite <- app_assoc; reflexivity).
  exfalso. exact (Hnp p eq_refl).
Qed.

Lemma BestMove_eq (e : Engine) :
  Engine.BestMove e
  = (fst (Engine.await_bestmove (snd (Engine.await_readyok (Stdout e))) None),
     mkEngine (Executable e)
       (Stdin e ++ [("go depth " +:+ Strconv.Itoa (EngineDepth e)) +:+ newline;
                    "isready" +:+ newline])
       (snd (Engine.await_bestmove (snd (Engine.await_readyok (Stdout e))) None))
       (EngineDepth e) (EnginePonder e) (Param e)).
Proof.
  unfold Engine.BestMove, bind. rewrite Go_eq. simpl.
  destruct (Engine.await_bestmove _ None) as [r rest]. reflexivity.
Qed.

(** ** Match.Move *)

Lemma sides_eq (m : Match) :
  Match.sides m = ((active m, activeName m), (inactive m, inactiveName m)).
Proof.
  unfold active, activeName, inactive, inactiveName.
  destruct (Match.sides m) as [[a an] [i inn]]. reflexivity.
Qed.

Lemma active_even (m : Match) :
  Nat.even (length (Moves m)) = true -> active m = WhiteEngine m /\ activeName m = White m
    /\ inactive m = BlackEngine m /\ inactiveName m = Black m.
Proof.
  intros He. unfold active, activeName, inactive, inactiveName, Match.sides.
  apply Nat.even_spec in He. destruct He as [k Hk].
  replace (length (Moves m) mod 2)%nat with O; [simpl; auto|].
  rewrite Hk. symmetry. rewrite Nat.mul_comm. apply Nat.Div0.mod_mul.
Qed.

Lemma active_odd (m : Match) :
  Nat.odd (length (Moves m)) = true -> active m = BlackEngine m /\ activeName m = Black m
    /\ inactive m = WhiteEngine m /\ inactiveName m = White m.
Proof.
  intros Ho. unfold active, activeName, inactive, inactiveName, Match.sides.
  apply Nat.odd_spec in Ho. destruct Ho as [k Hk].
  replace (length (Moves m) mod 2)%nat with 1%nat; [simpl; auto|].
  rewrite Hk. symmetry. rewrite Nat.add_comm, Nat.mul_comm.
  rewrite Nat.Div0.mod_add. reflexivity.
Qed.

(** C3: when the active engine's [BestMove] returns a mate score, [Move]
    appends the move, returns [false], and records the active side's name as
    winner for a positive value, the inactive side's name for a negative
    value, and leaves the winner as it was for zero. *)
Theorem Move_mate_score (m : Match) (h h1 h2 : heap) (bm : BestMove) (info : Info) :
  length (Moves m) <> MaxMoves ->
  call (active m) (drop_error (Engine.SetPosition (Moves m))) h = (Ret tt, h1) ->
  call (active m) Engine.BestMove h1 = (Ret bm, h2) ->
  BestInfo bm = Some info ->
  Eval (InfoScore info) = "mate" ->
  exists m',
    Match.Move m h = (Ret false, m', h2) /\
    Moves m' = Moves m ++ [Move bm] /\
    (0 < Value (InfoScore info) ->
       Winner m' = activeName m /\ WinnerEngine m' = active m) /\
    (Value (InfoScore info) < 0 ->
       Winner m' = inactiveName m /\ WinnerEngine m' = inactive m) /\
    (Value (InfoScore info) = 0 ->
       Winner m' = Winner m /\ WinnerEngine m' = WinnerEngine m).
Proof.
  intros Hlen Hpos Hbest Hinfo Hmate.
  unfold Match.Move.
  destruct (Nat.eqb_spec (length (Moves m)) MaxMoves) as [Heq|_]; [contradiction|].
  rewrite sides_eq, Hpos, Hbest, Hinfo, Hmate. simpl.
  destruct (Z.ltb_spec 0 (Value (InfoScore info))) as [Hp|Hp].
  - eexists. split; [reflexivity|]. simpl. repeat split; auto; lia.
  - destruct (Z.ltb_spec (Value (InfoScore info)) 0) as [Hn|Hn].
    + eexists. split; [reflexivity|]. simpl. repeat split; auto; lia.
    + eexists. split; [reflexivity|]. simpl. repeat split; auto; lia.
Qed.

Lemma Move_mate_score_witness :
  exists m' h2,
    Match.Move (demoMatch ["e2e4"]) (demoHeap [] (mateLines "-1")) = (Ret false, m', h2)
    /\ Moves m' = ["e2e4"; "h3g3"] /\ Winner m' = "deep" /\ WinnerEngine m' = 1%N.
Proof.
  pose (m := demoMatch ["e2e4"]).
  pose (h := demoHeap [] (mateLines "-1")).
  pose (h1 := snd (call (active m) (drop_error (Engine.SetPosition (Moves m))) h)).
  pose (h2 := snd (call (active m) Engine.BestMove h1)).
  pose (info := mkInfo 10 12 1 (mkScore "mate" (-1)) 2378 1189000 0 2 "h3g3 g6f7").
  pose (bm := mkBestMove "h3g3" "g6f7" (Some info)).
  destruct (Move_mate_score m h h1 h2 bm info) as (m' & HM & Hmoves & _ & Hneg & _).
  - vm_compute. discriminate.
  - vm_compute. reflexivity.
  - vm_compute. reflexivity.
  - reflexivity.
  - reflexivity.
  - exists m', h2. split; [exact HM|]. split; [exact Hmoves|].
    apply Hneg. vm_compute. reflexivity.
Defined.

(** The three signs on concrete runs: a mate score of 1 for white, of -7
    for white, and of 0. *)
Example Move_mate_positive :
  exists m' h', Match.Move (demoMatch []) (demoHeap (mateLines "1") []) = (Ret false, m', h')
                /\ Winner m' = "deep".
Proof. eexists _, _. vm_compute. split; reflexivity. Qed.

Example Move_mate_negative :
  exists m' h', Match.Move (demoMatch []) (demoHeap (mateLines "-7") []) = (Ret false, m', h')
                /\ Winner m' = "shallow".
Proof. eexists _, _. vm_compute. split; reflexivity. Qed.

Example Move_mate_zero :
  exists m' h', Match.Move (demoMatch []) (demoHeap (mateLines "0") []) = (Ret false, m', h')
                /\ Winner m' = "".
Proof. eexists _, _. vm_compute. split; reflexivity. Qed.

(** ** Calls through a pointer *)

Lemma call_some {A : Type} (engine : N) (method : ST Engine A) (h : heap) (e : Engine) :
  h !! engine = Some e ->
  call engine method h = (fst (method e), <[engine := snd (method e)]> h).
Proof.
  intros He. unfold call. rewrite He. destruct (method e). reflexivity.
Qed.

Lemma call_nil {A : Type} (engine : N) (method : ST Engine A) (h : heap) :
  h !! engine = None -> call engine method h = (Panic nil_dereference, h).
Proof. intros He. unfold call. rewrite He. reflexivity. Qed.

(** [Move] below the ceiling, with the active engine in the heap: the two
    calls run on the active engine's record and nothing else is written. *)
Lemma Move_below_ceiling (m : Match) (h : heap) (e : Engine) :
  length (Moves m) <> MaxMoves ->
  h !! active m = Some e ->
  Match.Move m h
  = (afterBestMove m
       (fst (Engine.BestMove (snd (drop_error (Engine.SetPosition (Moves m)) e)))),
     <[active m := snd (Engine.BestMove (snd (drop_error (Engine.SetPosition (Moves m)) e)))]> h).
Proof.
  intros Hlen He. unfold Match.Move.
  destruct (Nat.eqb_spec (length (Moves m)) MaxMoves) as [Heq|_]; [contradiction|].
  rewrite sides_eq.
  rewrite (call_some _ _ _ _ He).
  rewrite SetPosition_eq. cbn [fst snd].
  erewrite call_some by apply lookup_insert_eq.
  rewrite insert_insert_eq.
  unfold afterBestMove.
  destruct (Engine.BestMove _) as [[bm|err|p] e2]; cbn [fst snd]; try reflexivity.
  destruct (BestInfo bm) as [info|]; [|reflexivity].
  destruct (String.eqb (Eval (InfoScore info)) "mate"); [reflexivity|].
  destruct (negb (String.eqb (Ponder bm) "(none)")); reflexivity.
Qed.

Lemma Move_nil_engine (m : Match) (h : heap) :
  length (Moves m) <> MaxMoves ->
  h !! active m = None ->
  Match.Move m h = (Panic nil_dereference, m, h).
Proof.
  intros Hlen He. unfold Match.Move.
  destruct (Nat.eqb_spec (length (Moves m)) MaxMoves) as [Heq|_]; [contradiction|].
  rewrite sides_eq. unfold call. rewrite He. reflexivity.
Qed.

Lemma Move_at_ceiling (m : Match) (h : heap) :
  length (Moves m) = MaxMoves -> Match.Move m h = (Ret false, m, h).
Proof.
  intros Hlen. unfold Match.Move. rewrite Hlen. reflexivity.
Qed.

Lemma sides_cases (m : Match) :
  (active m = WhiteEngine m /\ inactive m = BlackEngine m) \/
  (active m = BlackEngine m /\ inactive m = WhiteEngine m).
Proof.
  unfold active, inactive, Match.sides.
  destruct (negb (Nat.eqb (length (Moves m) mod 2) 0)); simpl; auto.
Qed.

(** The record of the active engine after the two calls of [Move]. *)
Lemma Move_engine_after (m : Match) (e : Engine) :
  let e2 := snd (Engine.BestMove (snd (drop_error (Engine.SetPosition (Moves m)) e))) in
  Stdin e2 = Stdin e ++ moveCommands m e /\
  (exists read, Stdout e = read ++ Stdout e2) /\
  (forall bm, fst (Engine.BestMove (snd (drop_error (Engine.SetPosition (Moves m)) e))) = Ret bm ->
     (length (Stdout e2) < length (Stdout e))%nat /\
     (BestInfo bm = None \/
      exists text i, In text (Stdout e) /\ ParseInfo (Str.TrimSpace text) = Ret i
                     /\ BestInfo bm = Some i)).
Proof.
  rewrite SetPosition_eq. cbn [snd]. rewrite BestMove_eq. cbn [fst snd Stdin Stdout EngineDepth].
  destruct (await_readyok_suffix (Stdout e)) as [rd1 H1].
  set (l1 := snd (Engine.await_readyok (Stdout e))) in *.
  destruct (await_readyok_suffix l1) as [rd2 H2].
  set (l2 := snd (Engine.await_readyok l1)) in *.
  destruct (await_bestmove_suffix l2 None) as [rd3 H3].
  split; [|split].
  - unfold moveCommands. rewrite <- app_assoc. reflexivity.
  - exists (rd1 ++ rd2 ++ rd3). rewrite H1 at 1. rewrite H2 at 1. rewrite H3 at 1.
    rewrite <- !app_assoc. reflexivity.
  - intros bm Hbm.
    destruct (Engine.await_bestmove l2 None) as [r rest] eqn:Hab.
    cbn [fst snd] in *. subst r.
    split.
    + apply await_bestmove_consumes in Hab.
      rewrite H1, H2, !length_app. lia.
    + apply await_bestmove_info in Hab. destruct Hab as [Hn|(text & i & Hin & Hp & Hb)].
      * left. exact Hn.
      * right. exists text, i. split; [|auto].
        rewrite H1. apply in_or_app. right. rewrite H2. apply in_or_app. right. exact Hin.
Qed.

(** C4: below the ceiling the active engine is the white one for an even
    history and the black one for an odd history; every other engine of the
    heap, the inactive one included, is left exactly as it was, and the four
    commands of [SetPosition] and [BestMove] are written to the active
    engine. *)
Theorem Move_drives_active_engine_only (m : Match) (h : heap)
    (r : result bool) (m' : Match) (h' : heap) :
  length (Moves m) <> MaxMoves ->
  Match.Move m h = (r, m', h') ->
  (Nat.even (length (Moves m)) = true ->
     active m = WhiteEngine m /\ inactive m = BlackEngine m) /\
  (Nat.odd (length (Moves m)) = true ->
     active m = BlackEngine m /\ inactive m = WhiteEngine m) /\
  (forall engine, engine <> active m -> h' !! engine = h !! engine) /\
  (inactive m <> active m -> h' !! inactive m = h !! inactive m) /\
  (forall e, h !! active m = Some e ->
     exists e', h' !! active m = Some e' /\ Stdin e' = Stdin e ++ moveCommands m e).
Proof.
  intros Hlen HM.
  split; [intros He; destruct (active_even m He) as (? & ? & ? & ?); auto|].
  split; [intros Ho; destruct (active_odd m Ho) as (? & ? & ? & ?); auto|].
  assert (Hframe : forall engine, engine <> active m -> h' !! engine = h !! engine).
  { intros engine Hne.
    destruct (h !! active m) as [e|] eqn:He.
    - rewrite (Move_below_ceiling m h e Hlen He) in HM.
      injection HM as _ <-. apply lookup_insert_ne. congruence.
    - rewrite (Move_nil_engine m h Hlen He) in HM.
      injection HM as _ _ <-. reflexivity. }
  split; [exact Hframe|]. split; [apply Hframe|].
  intros e He.
  rewrite (Move_below_ceiling m h e Hlen He) in HM. injection HM as _ <-.
  eexists. split; [apply lookup_insert_eq|].
  apply (Move_engine_after m e).
Qed.

Lemma Move_drives_active_engine_only_witness :
  exists r m' h',
    Match.Move (demoMatch ["e2e4"]) (demoHeap quietLines quietLines) = (r, m', h') /\
    active (demoMatch ["e2e4"]) = 2%N /\
    h' !! 1%N = Some (demoEngine quietLines) /\
    exists e', h' !! 2%N = Some e' /\
      Stdin e' = ["position startpos moves e2e4" +:+ newline; "isready" +:+ newline;
                  "go depth 2" +:+ newline; "isready" +:+ newline].
Proof.
  pose (m := demoMatch ["e2e4"]).
  pose (h := demoHeap quietLines quietLines).
  destruct (Match.Move m h) as [[r m'] h'] eqn:HM.
  assert (Hlen : length (Moves m) <> MaxMoves) by (vm_compute; discriminate).
  destruct (Move_drives_active_engine_only m h r m' h' Hlen HM)
    as (_ & Hodd & _ & Hin & Hact).
  exists r, m', h'. split; [exact HM|].
  destruct (Hodd eq_refl) as [Ha Hi].
  split; [exact Ha|]. split.
  - change 1%N with (inactive m). rewrite Hin; [reflexivity|].
    rewrite Ha, Hi. vm_compute. discriminate.
  - change 2%N with (active m). apply (Hact (demoEngine quietLines)). reflexivity.
Defined.

(** ** Match.Run *)

(** Without a mate score in any engine's output, a [Move] leaves the
    winner as it was, and the outputs still hold no mate score. *)
Lemma Move_without_mate (m : Match) (h : heap) (r : result bool) (m' : Match) (h' : heap) :
  no_mate_score h ->
  Match.Move m h = (r, m', h') ->
  Winner m' = Winner m /\ no_mate_score h'.
Proof.
  intros Hno HM.
  destruct (Nat.eq_dec (length (Moves m)) MaxMoves) as [Hlen|Hlen].
  { rewrite (Move_at_ceiling m h Hlen) in HM. injection HM as _ <- <-. auto. }
  destruct (h !! active m) as [e|] eqn:He.
  2:{ rewrite (Move_nil_engine m h Hlen He) in HM. injection HM as _ <- <-. auto. }
  rewrite (Move_below_ceiling m h e Hlen He) in HM.
  destruct (Move_engine_after m e) as (_ & [read Hread] & Hret).
  set (e1 := snd (drop_error (Engine.SetPosition (Moves m)) e)) in *.
  set (e2 := snd (Engine.BestMove e1)) in *.
  injection HM as Hafter <-.
  split.
  - unfold afterBestMove in Hafter.
    destruct (fst (Engine.BestMove e1)) as [bm|err|p] eqn:Hbm;
      try (injection Hafter as _ <-; reflexivity).
    destruct (Hret bm eq_refl) as [_ Hinfo].
    destruct (BestInfo bm) as [info|] eqn:Hbi;
      [|injection Hafter as _ <-; reflexivity].
    destruct Hinfo as [Hn|(text & i & Hin & Hp & Hb)]; [discriminate|].
    injection Hb as <-.
    pose proof (Hno _ _ _ _ He Hin Hp) as Hnomate.
    destruct (String.eqb_spec (Eval (InfoScore info)) "mate") as [Hm|_];
      [contradiction|].
    destruct (negb (String.eqb (Ponder bm) "(none)"));
      injection Hafter as _ <-; reflexivity.
  - intros engine e' text i Hl Hin Hp.
    destruct (decide (engine = active m)) as [->|Hne].
    + rewrite lookup_insert_eq in Hl. injection Hl as <-.
      apply (Hno (active m) e text i He); [|exact Hp].
      rewrite Hread. apply in_or_app. right. exact Hin.
    + rewrite lookup_insert_ne in Hl by congruence.
      exact (Hno engine e' text i Hl Hin Hp).
Qed.

(** A [Move] that returns [true] keeps the two engines of the match and
    uses up at least one pending line of theirs. *)
Lemma Move_true_progress (m : Match) (h : heap) (m' : Match) (h' : heap) :
  Match.Move m h = (Ret true, m', h') ->
  WhiteEngine m' = WhiteEngine m /\ BlackEngine m' = BlackEngine m /\
  (pending h' (WhiteEngine m) + pending h' (BlackEngine m)
   < pending h (WhiteEngine m) + pending h (BlackEngine m))%nat.
Proof.
  intros HM.
  destruct (Nat.eq_dec (length (Moves m)) MaxMoves) as [Hlen|Hlen].
  { rewrite (Move_at_ceiling m h Hlen) in HM. discriminate. }
  destruct (h !! active m) as [e|] eqn:He.
  2:{ rewrite (Move_nil_engine m h Hlen He) in HM. discriminate. }
  rewrite (Move_below_ceiling m h e Hlen He) in HM.
  destruct (Move_engine_after m e) as (_ & [read Hread] & Hret).
  set (e1 := snd (drop_error (Engine.SetPosition (Moves m)) e)) in *.
  set (e2 := snd (Engine.BestMove e1)) in *.
  injection HM as Hafter <-.
  unfold afterBestMove in Hafter.
  destruct (fst (Engine.BestMove e1)) as [bm|err|p] eqn:Hbm; try discriminate.
  destruct (Hret bm eq_refl) as [Hlt _].
  assert (Hm' : m' = set_Moves (Moves m ++ [Move bm]) m).
  { destruct (BestInfo bm) as [info|]; [|discriminate].
    destruct (String.eqb (Eval (InfoScore info)) "mate"); [discriminate|].
    destruct (negb (String.eqb (Ponder bm) "(none)")); [|discriminate].
    injection Hafter as <-. reflexivity. }
  subst m'. simpl. split; [reflexivity|]. split; [reflexivity|].
  assert (Hact : (pending (<[active m := e2]> h) (active m) < pending h (active m))%nat).
  { unfold pending. rewrite lookup_insert_eq, He. exact Hlt. }
  assert (Hoth : forall q, (pending (<[active m := e2]> h) q <= pending h q)%nat).
  { intros q. destruct (decide (q = active m)) as [->|Hne]; [lia|].
    unfold pending. rewrite lookup_insert_ne by congruence. lia. }
  destruct (sides_cases m) as [[Ha _]|[Ha _]]; rewrite Ha in *.
  - pose proof (Hoth (BlackEngine m)). lia.
  - pose proof (Hoth (WhiteEngine m)). lia.
Qed.

(** [Run] always ends: one unit of fuel more than the lines the two
    engines have still to deliver is enough. *)
Lemma Run_terminates (fuel : nat) (m : Match) (h : heap) :
  (pending h (WhiteEngine m) + pending h (BlackEngine m) < fuel)%nat ->
  exists out, Match.Run fuel m h = Some out.
Proof.
  revert m h. induction fuel as [|fuel IH]; intros m h Hlt; [lia|].
  simpl. destruct (Match.Move m h) as [[[move|err|p] m'] h'] eqn:HM;
    try (eexists; reflexivity).
  destruct move; simpl; [|eexists; reflexivity].
  destruct (Move_true_progress m h m' h' HM) as (HW & HB & Hdec).
  apply IH. rewrite HW, HB. lia.
Qed.

Lemma Run_without_mate (fuel : nat) (m : Match) (h : heap)
    (w : string) (m' : Match) (h' : heap) :
  no_mate_score h ->
  Match.Run fuel m h = Some (Ret w, m', h') ->
  w = Winner m /\ Winner m' = Winner m.
Proof.
  revert m h. induction fuel as [|fuel IH]; intros m h Hno HR; [discriminate|].
  simpl in HR.
  destruct (Match.Move m h) as [[[move|err|p] m1] h1] eqn:HM; try discriminate.
  destruct (Move_without_mate m h _ m1 h1 Hno HM) as [HW Hno1].
  destruct move; simpl in HR.
  - destruct (IH m1 h1 Hno1 HR) as [H1 H2]. split; congruence.
  - injection HR as <- <- <-. split; congruence.
Qed.

(** C8: at the ceiling [Move] returns [false] and changes neither the
    match (history, winner) nor any engine; and a run that starts without a
    winner and meets no mate score ends with the empty winner, the run that
    stops at the ceiling included. *)
Theorem Move_ceiling_Run_no_winner :
  (forall (m : Match) (h : heap),
     length (Moves m) = MaxMoves -> Match.Move m h = (Ret false, m, h)) /\
  (forall (fuel : nat) (m : Match) (h : heap) (w : string) (m' : Match) (h' : heap),
     Winner m = "" ->
     no_mate_score h ->
     Match.Run fuel m h = Some (Ret w, m', h') ->
     w = "" /\ Winner m' = "").
Proof.
  split; [exact Move_at_ceiling|].
  intros fuel m h w m' h' HW Hno HR.
  destruct (Run_without_mate fuel m h w m' h' Hno HR) as [H1 H2].
  split; congruence.
Qed.

Lemma quietLines_no_mate : no_mate_score (demoHeap quietLines quietLines).
Proof.
  intros engine e text i Hl Hin Hp. unfold demoHeap in Hl.
  assert (He : e = demoEngine quietLines).
  { destruct (decide (engine = 1%N)) as [->|H1].
    - rewrite lookup_insert_eq in Hl. congruence.
    - rewrite lookup_insert_ne in Hl by congruence.
      destruct (decide (engine = 2%N)) as [->|H2].
      + rewrite lookup_insert_eq in Hl. congruence.
      + rewrite lookup_insert_ne in Hl by congruence.
        rewrite lookup_empty in Hl. discriminate. }
  subst e. simpl in Hin.
  destruct Hin as [<-|[<-|[<-|[<-|[]]]]]; vm_compute in Hp;
    try discriminate.
  injection Hp as <-. simpl. discriminate.
Qed.

Lemma Move_ceiling_Run_no_winner_witness :
  exists m' h',
    Match.Run 3 (demoMatch (repeat "e2e4" 498)) (demoHeap quietLines quietLines)
    = Some (Ret "", m', h')
    /\ length (Moves m') = MaxMoves
    /\ Match.Move m' h' = (Ret false, m', h').
Proof.
  pose (m := demoMatch (repeat "e2e4" 498)).
  pose (h := demoHeap quietLines quietLines).
  destruct (Match.Run 3 m h) as [[[[w|err|p] m'] h']|] eqn:HR;
    try (vm_compute in HR; discriminate).
  destruct Move_ceiling_Run_no_winner as [Hceil Hrun].
  destruct (Hrun 3%nat m h w m' h' eq_refl quietLines_no_mate HR) as [-> _].
  assert (Hlen : length (Moves m') = MaxMoves).
  { vm_compute in HR. injection HR as <- _. reflexivity. }
  exists m', h'. split; [exact HR|]. split; [exact Hlen|].
  apply Hceil. exact Hlen.
Defined.

(** ** NewEngineWithAllOptions *)

Lemma wrap_in_range (z : Z) : GoInt.in_range z -> GoInt.wrap z = z.
Proof.
  unfold GoInt.in_range, GoInt.wrap, GoInt.minInt, GoInt.maxInt.
  change (2 ^ 63) with 9223372036854775808.
  change (2 ^ 64) with 18446744073709551616.
  intros Hz. rewrite Z.mod_small by lia. lia.
Qed.

Lemma applyOverrides_lookup (param bp : gmap string string) (name : string) :
  applyOverrides param bp !! name
  = match param !! name with Some value => Some value | None => bp !! name end.
Proof.
  unfold applyOverrides.
  apply (map_fold_weak_ind (fun (r m : gmap string string) =>
           r !! name = match m !! name with Some value => Some value | None => bp !! name end)).
  - rewrite lookup_empty. reflexivity.
  - intros i x m r Hi IH.
    destruct (decide (i = name)) as [->|Hne].
    + rewrite !lookup_insert_eq. reflexivity.
    + rewrite !lookup_insert_ne by assumption. exact IH.
Qed.

Lemma IsReady_Param (e : Engine) :
  Param (snd (Engine.IsReady e)) = Param e /\
  (forall p, fst (Engine.IsReady e) <> Panic p).
Proof.
  unfold Engine.IsReady, bind, Engine.Put. simpl.
  pose proof (await_readyok_no_panic (Stdout e)) as Hnp.
  destruct (Engine.await_readyok (Stdout e)) as [r rest]. simpl in *.
  split; [reflexivity|exact Hnp].
Qed.

Lemma SetOption_Param (name value : string) (e : Engine) :
  Param (snd (Engine.SetOption name value e)) = Param e /\
  (forall p, fst (Engine.SetOption name value e) <> Panic p).
Proof.
  unfold Engine.SetOption, bind, Engine.Put. cbn [fst snd].
  set (e1 := set_Stdin _ e).
  destruct (IsReady_Param e1) as [HP Hnp].
  destruct (Engine.IsReady e1) as [[u|err|p] e2]; simpl in *;
    (split; [exact HP|]); intros q Hq; try discriminate.
  exact (Hnp p eq_refl).
Qed.

Lemma setOptions_Param (entries : list (string * string)) (e : Engine) :
  Param (snd (setOptions entries e)) = Param e /\
  (forall p, fst (setOptions entries e) <> Panic p).
Proof.
  revert e. induction entries as [|[name value] rest IH]; intros e; simpl.
  - split; [reflexivity|discriminate].
  - unfold bind. destruct (SetOption_Param name value e) as [HP Hnp].
    destruct (Engine.SetOption name value e) as [[u|err|p] e1]; simpl in *.
    + destruct (IH e1) as [HP1 Hnp1]. split; [congruence|exact Hnp1].
    + split; [exact HP|discriminate].
    + exfalso. exact (Hnp p eq_refl).
Qed.

(** The engine record at the point where the constructor reaches the
    random statement: [uci] is written and, unless [ponder] is set, the
    Ponder option is sent and its handshake read; no panic occurs before. *)
Lemma configure_eq (env : Launch) (ponder : bool) (param : gmap string string)
    (random : bool) (randMin randMax : Z) (e : Engine) :
  exists e1,
    configure env ponder param random randMin randMax e
    = match randomContempt random randMin randMax (Draw env) baseParam with
      | Panic p => (Panic p, e1)
      | Fail err => (Fail err, e1)
      | Ret bp =>
          setOptions (RangeOrder env (map_to_list (applyOverrides param bp)))
                     (set_Param (applyOverrides param bp) e1)
      end.
Proof.
  unfold configure, bind, Engine.Put. cbn [fst snd].
  set (e0 := set_Stdin _ e).
  destruct ponder; simpl.
  - exists e0. reflexivity.
  - unfold drop_error.
    destruct (SetOption_Param "Ponder" "false" e0) as [_ Hnp].
    destruct (Engine.SetOption "Ponder" "false" e0) as [[u|err|p] e1]; simpl in *.
    + exists e1. reflexivity.
    + exists e1. reflexivity.
    + exfalso. exact (Hnp p eq_refl).
Qed.

(** C9 (amended): with [random] set and a difference [randMax - randMin]
    that is positive and fits an int, the Contempt entry of the base map
    becomes the decimal text of a value in [randMin, randMax), for every
    draw of the random source; in the engine that is returned a
    caller-supplied Contempt replaces it, and without one it is kept. *)
Theorem randomContempt_in_range (env : Launch) (exe : string) (depth : Z)
    (ponder : bool) (param : gmap string string) (randMin randMax : Z)
    (h h' : heap) (engine : N) :
  GoInt.in_range randMin -> GoInt.in_range randMax ->
  0 < randMax - randMin <= GoInt.maxInt ->
  exists v,
    randMin <= v < randMax /\
    randomContempt true randMin randMax (Draw env) baseParam
    = Ret (<["Contempt" := Strconv.Itoa v]> baseParam) /\
    (NewEngineWithAllOptions env exe depth ponder param true randMin randMax h
     = (Ret engine, h') ->
     exists e, h' !! engine = Some e /\
       Param e = applyOverrides param (<["Contempt" := Strconv.Itoa v]> baseParam) /\
       Param e !! "Contempt"
       = Some (match param !! "Contempt" with
               | Some value => value
               | None => Strconv.Itoa v
               end)).
Proof.
  intros Hmin Hmax Hd.
  set (d := randMax - randMin) in *.
  exists (Draw env mod d + randMin).
  pose proof (Z.mod_pos_bound (Draw env) d ltac:(lia)) as Hmod.
  assert (Hrc : randomContempt true randMin randMax (Draw env) baseParam
                = Ret (<["Contempt" := Strconv.Itoa (Draw env mod d + randMin)]> baseParam)).
  { unfold randomContempt, Intn, GoInt.sub, GoInt.add. fold d.
    rewrite (wrap_in_range d)
      by (unfold GoInt.in_range, GoInt.minInt, GoInt.maxInt in *; lia).
    destruct (Z.leb_spec d 0) as [Hle|_]; [lia|].
    rewrite wrap_in_range
      by (unfold GoInt.in_range, GoInt.minInt, GoInt.maxInt in *; lia).
    reflexivity. }
  split; [unfold d in *; lia|]. split; [exact Hrc|].
  unfold NewEngineWithAllOptions. intros HN.
  destruct (StdinPipeErr env); [discriminate|].
  destruct (StdoutPipeErr env); [discriminate|].
  set (e0 := mkEngine exe [] (Output env) depth ponder param) in *.
  destruct (configure_eq env ponder param true randMin randMax e0) as [e1 Hc].
  rewrite Hrc in Hc. rewrite Hc in HN.
  set (bp := applyOverrides param _) in *.
  destruct (setOptions_Param (RangeOrder env (map_to_list bp)) (set_Param bp e1)) as [HP _].
  destruct (setOptions _ _) as [[u|err|p] e2]; try discriminate.
  injection HN as <- <-. simpl in HP.
  exists e2. split; [apply lookup_insert_eq|]. split; [exact HP|].
  rewrite HP. unfold bp. rewrite applyOverrides_lookup.
  destruct (param !! "Contempt"); [reflexivity|].
  rewrite lookup_insert_eq. reflexivity.
Qed.

Lemma randomContempt_in_range_witness :
  exists v engine h' e,
    -10 <= v < 10 /\
    NewEngineWithAllOptions (demoLaunch 7) "stockfish" 2 false
      (<["Contempt" := "42"]> ∅) true (-10) 10 ∅ = (Ret engine, h') /\
    h' !! engine = Some e /\ Param e !! "Contempt" = Some "42".
Proof.
  pose (param := <["Contempt" := "42"]> (∅ : gmap string string)).
  destruct (NewEngineWithAllOptions (demoLaunch 7) "stockfish" 2 false param true (-10) 10 ∅)
    as [[engine|err|p] h'] eqn:HN; try (vm_compute in HN; discriminate).
  destruct (randomContempt_in_range (demoLaunch 7) "stockfish" 2 false param (-10) 10
              ∅ h' engine) as (v & Hv & _ & Hnew).
  - vm_compute. split; discriminate.
  - vm_compute. split; discriminate.
  - vm_compute. split; [reflexivity|discriminate].
  - destruct (Hnew HN) as (e & He & _ & Hc).
    exists v, engine, h', e. split; [exact Hv|]. split; [exact HN|].
    split; [exact He|exact Hc].
Defined.

(** C9 as stated fails when the difference does not fit an int: with
    [randMin = -2^62] and [randMax = 2^62] the subtraction wraps to
    [-2^63] and [rand.Intn] panics. *)
Lemma randomContempt_overflow_panics :
  - 2 ^ 62 < 2 ^ 62 /\
  GoInt.in_range (- 2 ^ 62) /\ GoInt.in_range (2 ^ 62) /\
  NewEngineWithAllOptions (demoLaunch 7) "stockfish" 2 false ∅ true (- 2 ^ 62) (2 ^ 62) ∅
  = (Panic "invalid argument to Intn", ∅).
Proof.
  split; [reflexivity|]. split; [vm_compute; split; discriminate|].
  split; [vm_compute; split; discriminate|].
  vm_compute. reflexivity.
Qed.

(** C10 (amended): with [random] set, both pipes created, [randMax <=
    randMin] and a difference that fits an int, the constructor panics in
    [rand.Intn]; it returns neither an engine nor an error. *)
Theorem nonpositive_range_panics (env : Launch) (exe : string) (depth : Z)
    (ponder : bool) (param : gmap string string) (randMin randMax : Z) (h : heap) :
  StdinPipeErr env = None -> StdoutPipeErr env = None ->
  randMax <= randMin ->
  GoInt.minInt <= randMax - randMin ->
  NewEngineWithAllOptions env exe depth ponder param true randMin randMax h
  = (Panic "invalid argument to Intn", h).
Proof.
  intros Hin Hout Hle Hfit.
  unfold NewEngineWithAllOptions. rewrite Hin, Hout.
  set (e0 := mkEngine exe [] (Output env) depth ponder param).
  destruct (configure_eq env ponder param true randMin randMax e0) as [e1 Hc].
  rewrite Hc. unfold randomContempt, Intn, GoInt.sub.
  rewrite wrap_in_range
    by (unfold GoInt.in_range, GoInt.minInt, GoInt.maxInt in *; lia).
  destruct (Z.leb_spec (randMax - randMin) 0) as [_|Hgt]; [reflexivity|lia].
Qed.

Lemma nonpositive_range_panics_witness :
  NewEngineWithAllOptions (demoLaunch 7) "stockfish" 2 false ∅ true 10 (-10) ∅
  = (Panic "invalid argument to Intn", ∅).
Proof.
  apply nonpositive_range_panics; try reflexivity; vm_compute; discriminate.
Defined.

(** C10 as stated fails when the difference does not fit an int: with
    [randMin = maxInt] and [randMax = minInt] the subtraction wraps to [1],
    [rand.Intn] returns [0] and the engine is built. *)
Lemma nonpositive_range_wraps_no_panic :
  GoInt.minInt <= GoInt.maxInt /\
  let out := NewEngineWithAllOptions (demoLaunch 7) "stockfish" 2 false ∅ true
               GoInt.maxInt GoInt.minInt ∅ in
  fst out = Ret 1%N /\
  match snd out !! 1%N with
  | Some e => Param e !! "Contempt"
  | None => None
  end = Some "9223372036854775807".
Proof.
  split; [vm_compute; discriminate|].
  split; vm_compute; reflexivity.
Qed.

(** ** ParseInfo on concrete lines *)

Example ParseInfo_sourceLine :
  ParseInfo sourceLine
  = Ret (mkInfo 2 3 1 (mkScore "cp" (-656)) 43 43000 0 1 "g7g6 h3g3 g6f7").
Proof. vm_compute. reflexivity. Qed.

(** C2: a line that has a seldepth field and no depth field is accepted:
    the pattern of the depth field matches inside the text of the seldepth
    field, and [Depth] takes the value of seldepth. *)
Theorem ParseInfo_seldepth_read_as_depth :
  Str.Contains noDepthLine " depth " = false /\
  ParseInfo noDepthLine
  = Ret (mkInfo 3 3 1 (mkScore "cp" (-656)) 43 43000 0 1 "g7g6 h3g3 g6f7").
Proof. split; vm_compute; reflexivity. Qed.

(* ===================================================================== *)
(** * ParseInfo on well-formed lines *)

Local Arguments String.append : simpl nomatch.

(** ** Strings *)

Lemma app_assoc_s (a b c : string) : (a +:+ b) +:+ c = a +:+ (b +:+ c).
Proof. induction a as [|x a IH]; simpl; [reflexivity|]. rewrite IH. reflexivity. Qed.

Lemma app_empty_r (a : string) : a +:+ "" = a.
Proof. induction a as [|x a IH]; simpl; [reflexivity|]. rewrite IH. reflexivity. Qed.

Lemma length_app_s (a b : string) :
  String.length (a +:+ b) = (String.length a + String.length b)%nat.
Proof. induction a as [|x a IH]; simpl; [reflexivity|]. rewrite IH. reflexivity. Qed.

Lemma strip_prefix_app (p s : string) : Str.strip_prefix p (p +:+ s) = Some s.
Proof.
  induction p as [|a p IH]; simpl; [reflexivity|].
  rewrite Ascii.eqb_refl. exact IH.
Qed.

(** ** The matcher *)

Section RunLemmas.
Context {A : Type}.
Implicit Types (k : @cont A) (Q : A -> Prop).

Lemma yields_orelse Q (x y : option A) : yields Q x -> yields Q (orelse x y).
Proof. intros (v & -> & Hv). exists v. split; [reflexivity|exact Hv]. Qed.

Lemma orelse_None (y : option A) : orelse None y = y.
Proof. reflexivity. Qed.

Lemma run_Lit (l s : string) cs k :
  run (Lit l) (l +:+ s) cs k = k l s cs.
Proof. simpl. rewrite strip_prefix_app. reflexivity. Qed.

Lemma run_Cls_hit (p : ascii -> bool) (c : ascii) (s : string) cs k :
  p c = true -> run (Cls p) (String c s) cs k = k (String c "") s cs.
Proof. intros Hp. simpl. rewrite Hp. reflexivity. Qed.

Lemma run_Cls_miss (p : ascii -> bool) (s : string) cs k :
  head_not p s = true -> run (Cls p) s cs k = None.
Proof.
  destruct s as [|c s]; simpl; [reflexivity|].
  intros Hp. apply negb_true_iff in Hp. rewrite Hp. reflexivity.
Qed.

(** A greedy star over a class takes the whole run of bytes of the class
    when the continuation accepts there. *)
Lemma star_Cls_greedy (p : ascii -> bool) Q (ds : string) :
  forall (n : nat) (rest : string) cs k,
    all_chars p ds = true -> head_not p rest = true ->
    (String.length (ds +:+ rest) <= n)%nat ->
    yields Q (k ds rest cs) ->
    yields Q (star_loop (run (Cls p)) n (ds +:+ rest) cs k).
Proof.
  induction ds as [|c ds IH]; intros n rest cs k Hall Hhead Hn Hk.
  - change ("" +:+ rest) with rest.
    destruct n as [|n]; cbn [star_loop]; [exact Hk|].
    rewrite run_Cls_miss by exact Hhead. exact Hk.
  - simpl in Hall. apply andb_true_iff in Hall. destruct Hall as [Hc Hall].
    destruct n as [|n]; [simpl in Hn; lia|].
    cbn [star_loop]. apply yields_orelse.
    change (String c ds +:+ rest) with (String c (ds +:+ rest)).
    rewrite run_Cls_hit by exact Hc.
    replace (Nat.ltb (String.length (ds +:+ rest)) (String.length (String c (ds +:+ rest))))
      with true by (symmetry; apply Nat.ltb_lt; simpl; lia).
    apply IH; [exact Hall|exact Hhead|simpl in Hn; lia|exact Hk].
Qed.

(** [p+] on a non-empty run of bytes of the class [p]. *)
Lemma run_Plus_Cls (p : ascii -> bool) Q (c : ascii) (ds rest : string) cs k :
  all_chars p (String c ds) = true -> head_not p rest = true ->
  yields Q (k (String c ds) rest cs) ->
  yields Q (run (Plus (Cls p)) (String c ds +:+ rest) cs k).
Proof.
  intros Hall Hhead Hk. simpl in Hall. apply andb_true_iff in Hall.
  destruct Hall as [Hc Hall].
  unfold Plus. change (String c ds +:+ rest) with (String c (ds +:+ rest)).
  cbn [run]. rewrite Hc.
  apply (star_Cls_greedy p Q ds); [exact Hall|exact Hhead|lia|exact Hk].
Qed.
End RunLemmas.

(** ** Searching *)

Lemma yields_eq {A : Type} (x : A) (o : option A) : yields (eq x) o -> o = Some x.
Proof. intros (y & -> & ->). reflexivity. Qed.

Lemma find_here (Q : submatches -> Prop) (r : regex) (s : string) :
  yields Q (match_here r s) -> yields Q (find r s).
Proof.
  intros (y & Hy & HQ). exists y. split; [|exact HQ].
  destruct s; simpl; rewrite Hy; reflexivity.
Qed.

Lemma find_skip (r : regex) (c : ascii) (s : string) :
  match_here r (String c s) = None -> find r (String c s) = find r s.
Proof. intros H. simpl. rewrite H. reflexivity. Qed.

Lemma match_here_Lit_miss (l : string) (r : regex) (s : string) :
  Str.strip_prefix l s = None -> match_here (Cat (Lit l) r) s = None.
Proof. intros H. unfold match_here. simpl. rewrite H. reflexivity. Qed.

Lemma find_Lit_skip (l : string) (r : regex) (c : ascii) (s : string) :
  Str.strip_prefix l (String c s) = None ->
  find (Cat (Lit l) r) (String c s) = find (Cat (Lit l) r) s.
Proof. intros H. apply find_skip, match_here_Lit_miss, H. Qed.

(** A literal cannot start inside a stretch that lacks its first byte. *)
Lemma find_Lit_skip_all (a : ascii) (l : string) (r : regex) (pre rest : string) :
  all_chars (fun c => negb (Ascii.eqb a c)) pre = true ->
  find (Cat (Lit (String a l)) r) (pre +:+ rest) = find (Cat (Lit (String a l)) r) rest.
Proof.
  induction pre as [|c pre IH]; intros Hall; [reflexivity|].
  simpl in Hall. apply andb_true_iff in Hall. destruct Hall as [Hc Hall].
  change (String c pre +:+ rest) with (String c (pre +:+ rest)).
  rewrite find_Lit_skip; [exact (IH Hall)|].
  simpl. apply negb_true_iff in Hc. rewrite Hc. reflexivity.
Qed.

Lemma find_Lit_none (a : ascii) (l : string) (r : regex) (s : string) :
  all_chars (fun c => negb (Ascii.eqb a c)) s = true ->
  find (Cat (Lit (String a l)) r) s = None.
Proof.
  intros Hall. rewrite <- (app_empty_r s).
  rewrite find_Lit_skip_all by exact Hall. reflexivity.
Qed.

(** ** The pattern of an integer field *)

Lemma match_here_field (K : string) (c : ascii) (ds rest : string) :
  all_chars Str.is_digit (String c ds) = true ->
  head_not Str.is_digit rest = true ->
  match_here (fieldRegex K) (K +:+ " " +:+ String c ds +:+ rest)
  = Some (K +:+ " " +:+ String c ds, [(1%nat, String c ds)]).
Proof.
  intros Hall Hhead. apply yields_eq.
  unfold match_here, fieldRegex. cbn [run].
  replace (K +:+ " " +:+ String c ds +:+ rest)
    with ((K +:+ " ") +:+ (String c ds +:+ rest)) by apply app_assoc_s.
  rewrite strip_prefix_app.
  apply run_Plus_Cls; [exact Hall|exact Hhead|].
  eexists. split; [reflexivity|]. rewrite app_assoc_s. reflexivity.
Qed.

(** ** Which pattern can match where *)

Lemma digit_neq (a c : ascii) :
  Str.is_digit a = false -> Str.is_digit c = true -> Ascii.eqb a c = false.
Proof.
  intros Ha Hc. destruct (Ascii.eqb_spec a c) as [->|]; [congruence|reflexivity].
Qed.

Lemma digits_lack (a : ascii) (ds : string) :
  Str.is_digit a = false -> all_chars Str.is_digit ds = true ->
  all_chars (fun c => negb (Ascii.eqb a c)) ds = true.
Proof.
  intros Ha. induction ds as [|c ds IH]; simpl; [reflexivity|].
  intros H. apply andb_true_iff in H. destruct H as [Hc Hds].
  rewrite (digit_neq a c Ha Hc). simpl. exact (IH Hds).
Qed.

Lemma wf_eval (eval : string) :
  String.eqb eval "cp" || String.eqb eval "mate" = true -> eval = "cp" \/ eval = "mate".
Proof.
  intros H. apply orb_true_iff in H. destruct H as [H|H];
    apply String.eqb_eq in H; auto.
Qed.

Lemma is_digits_inv (s : string) :
  is_digits s = true ->
  exists c ds, s = String c ds /\ Str.is_digit c = true /\ all_chars Str.is_digit ds = true.
Proof.
  destruct s as [|c ds]; simpl; [discriminate|].
  intros H. apply andb_true_iff in H. destruct H. eauto.
Qed.

Ltac digit_miss :=
  repeat match goal with
  | H : Str.is_digit ?c = true |- context [Ascii.eqb ?a ?c] =>
      rewrite (digit_neq a c eq_refl H)
  end.

(** One byte further: the literal does not start here. *)
Ltac skip_byte :=
  rewrite find_Lit_skip by (first [reflexivity | cbn [Str.strip_prefix]; digit_miss; reflexivity]).

Ltac skip_digits :=
  rewrite find_Lit_skip_all by (apply digits_lack; [reflexivity|assumption]).

Lemma find_passes (p : pat) (f : field) (rest : string) :
  wf_field f = true -> passes p f = true ->
  find (patRegex p) (fieldText f +:+ rest) = find (patRegex p) rest.
Proof.
  intros Hwf Hpass.
  destruct f as [k ds|eval neg ds]; simpl in Hwf.
  - apply andb_true_iff in Hwf. destruct Hwf as [Hds _].
    apply is_digits_inv in Hds. destruct Hds as (c & ds' & -> & Hc & Hds').
    destruct p as [k0| | |]; [destruct k0| | |]; destruct k; try discriminate Hpass;
      unfold patRegex, fieldRegex, scoreRegex, PVRegex, noticeRegex;
      cbn [keyName fieldText String.append];
      repeat skip_byte; skip_digits; reflexivity.
  - apply andb_true_iff in Hwf. destruct Hwf as [Hwf _].
    apply andb_true_iff in Hwf. destruct Hwf as [Hwf _].
    apply andb_true_iff in Hwf. destruct Hwf as [Hev Hds].
    apply is_digits_inv in Hds. destruct Hds as (c & ds' & -> & Hc & Hds').
    apply wf_eval in Hev.
    destruct p as [k0| | |]; [destruct k0| | |]; try discriminate Hpass;
      destruct Hev as [-> | ->]; destruct neg;
      unfold patRegex, fieldRegex, scoreRegex, PVRegex, noticeRegex;
      cbn [keyName fieldText signText String.append];
      repeat skip_byte; skip_digits; reflexivity.
Qed.

Lemma class_neq (p : ascii -> bool) (a c : ascii) :
  p a = false -> p c = true -> Ascii.eqb a c = false.
Proof.
  intros Ha Hc. destruct (Ascii.eqb_spec a c) as [->|]; [congruence|reflexivity].
Qed.

(** ** Found: an integer field *)

Lemma find_own_field (k : intKey) (ds rest : string) :
  is_digits ds = true -> head_not Str.is_digit rest = true ->
  find (fieldRegex (keyName k)) (fieldText (IntField k ds) +:+ rest)
  = Some (keyName k +:+ " " +:+ ds, [(1%nat, ds)]).
Proof.
  intros Hds Hrest.
  apply is_digits_inv in Hds. destruct Hds as (c & ds' & -> & Hc & Hds').
  assert (Hall : all_chars Str.is_digit (String c ds') = true)
    by (simpl; rewrite Hc; exact Hds').
  pose proof (match_here_field (keyName k) c ds' rest Hall Hrest) as Hm.
  unfold fieldText.
  replace ((" " +:+ keyName k +:+ " " +:+ String c ds') +:+ rest)
    with (String " " (keyName k +:+ " " +:+ String c ds' +:+ rest)).
  2:{ change (" " +:+ keyName k +:+ " " +:+ String c ds')
        with (String " " (keyName k +:+ " " +:+ String c ds')).
      change (String " " (keyName k +:+ " " +:+ String c ds') +:+ rest)
        with (String " " ((keyName k +:+ " " +:+ String c ds') +:+ rest)).
      rewrite !app_assoc_s. reflexivity. }
  rewrite find_skip.
  - apply yields_eq, find_here. rewrite Hm. eexists. split; reflexivity.
  - apply match_here_Lit_miss. destruct k; reflexivity.
Qed.

(** ** Found: the score field *)

Lemma run_Opt_skip {A : Type} (r : regex) (s : string) cs (k : @cont A) :
  run r s cs k = None -> run (Opt r) s cs k = k "" s cs.
Proof. intros H. simpl. rewrite H. reflexivity. Qed.

Section Yields.
Context {A : Type}.
Implicit Types (k : @cont A) (Q : A -> Prop).

Lemma yields_Cat Q (r1 r2 : regex) (s : string) cs k :
  yields Q (run r1 s cs (fun c1 s1 cs1 =>
              run r2 s1 cs1 (fun c2 s2 cs2 => k (c1 +:+ c2) s2 cs2))) ->
  yields Q (run (Cat r1 r2) s cs k).
Proof. exact (fun H => H). Qed.

Lemma yields_Grp Q (i : nat) (r : regex) (s : string) cs k :
  yields Q (run r s cs (fun c s' cs' => k c s' ((i, c) :: cs'))) ->
  yields Q (run (Grp i r) s cs k).
Proof. exact (fun H => H). Qed.

Lemma yields_Lit Q (l s : string) cs k :
  yields Q (k l s cs) -> yields Q (run (Lit l) (l +:+ s) cs k).
Proof. rewrite run_Lit. exact (fun H => H). Qed.

Lemma yields_Cls Q (p : ascii -> bool) (c : ascii) (s : string) cs k :
  p c = true -> yields Q (k (String c "") s cs) ->
  yields Q (run (Cls p) (String c s) cs k).
Proof. intros Hp. rewrite run_Cls_hit by exact Hp. exact (fun H => H). Qed.

Lemma yields_Opt_take Q (r : regex) (s : string) cs k :
  yields Q (run r s cs k) -> yields Q (run (Opt r) s cs k).
Proof. intros H. cbn [run]. apply yields_orelse, H. Qed.

Lemma yields_Opt_skip Q (r : regex) (s : string) cs k :
  run r s cs k = None -> yields Q (k "" s cs) -> yields Q (run (Opt r) s cs k).
Proof. intros Hr H. cbn [run]. rewrite Hr. exact H. Qed.

End Yields.

Lemma match_here_score (eval : string) (neg : bool) (c : ascii) (ds rest : string) :
  eval = "cp" \/ eval = "mate" ->
  all_chars Str.is_digit (String c ds) = true ->
  head_not Str.is_digit rest = true ->
  match_here scoreRegex
    ("score " +:+ eval +:+ " " +:+ signText neg +:+ String c ds +:+ rest)
  = Some ("score " +:+ eval +:+ " " +:+ signText neg +:+ String c ds,
          [(2%nat, signText neg +:+ String c ds); (1%nat, eval)]).
Proof.
  intros Hev Hall Hrest. apply yields_eq.
  assert (Hc : Str.is_digit c = true)
    by (simpl in Hall; apply andb_true_iff in Hall; tauto).
  unfold match_here, scoreRegex.
  apply yields_Cat, yields_Lit. cbv beta.
  apply yields_Cat, yields_Grp.
  assert (Hword : exists e ev', eval = String e ev' /\ all_chars Str.is_word eval = true).
  { destruct Hev as [-> | ->]; eexists _, _; split; reflexivity. }
  destruct Hword as (e & ev' & -> & Hw).
  apply run_Plus_Cls; [exact Hw|reflexivity|]. cbv beta.
  apply yields_Cat, yields_Lit. cbv beta.
  apply yields_Grp, yields_Cat.
  destruct neg; cbn [signText].
  - apply yields_Opt_take, yields_Lit. cbv beta.
    apply run_Plus_Cls; [exact Hall|exact Hrest|].
    eexists. split; reflexivity.
  - change ("" +:+ String c ds +:+ rest) with (String c ds +:+ rest).
    apply yields_Opt_skip.
    + change (String c ds +:+ rest) with (String c (ds +:+ rest)).
      cbn [run Str.strip_prefix]. rewrite (digit_neq "-" c eq_refl Hc). reflexivity.
    + apply run_Plus_Cls; [exact Hall|exact Hrest|].
      eexists. split; reflexivity.
Qed.

Lemma find_own_score (eval : string) (neg : bool) (ds rest : string) :
  wf_field (ScoreField eval neg ds) = true ->
  head_not Str.is_digit rest = true ->
  find scoreRegex (fieldText (ScoreField eval neg ds) +:+ rest)
  = Some ("score " +:+ eval +:+ " " +:+ signText neg +:+ ds,
          [(2%nat, signText neg +:+ ds); (1%nat, eval)]).
Proof.
  intros Hwf Hrest. simpl in Hwf.
  apply andb_true_iff in Hwf. destruct Hwf as [Hwf _].
  apply andb_true_iff in Hwf. destruct Hwf as [Hwf _].
  apply andb_true_iff in Hwf. destruct Hwf as [Hev Hds].
  apply wf_eval in Hev.
  apply is_digits_inv in Hds. destruct Hds as (c & ds' & -> & Hc & Hds').
  assert (Hall : all_chars Str.is_digit (String c ds') = true)
    by (simpl; rewrite Hc; exact Hds').
  pose proof (match_here_score eval neg c ds' rest Hev Hall Hrest) as Hm.
  unfold fieldText.
  replace ((" score " +:+ eval +:+ " " +:+ signText neg +:+ String c ds') +:+ rest)
    with (String " " ("score " +:+ eval +:+ " " +:+ signText neg +:+ String c ds' +:+ rest)).
  2:{ change (" score " +:+ eval +:+ " " +:+ signText neg +:+ String c ds')
        with (String " " ("score " +:+ eval +:+ " " +:+ signText neg +:+ String c ds')).
      change (String " " ?x +:+ rest) with (String " " (x +:+ rest)).
      rewrite !app_assoc_s. reflexivity. }
  rewrite find_skip.
  - apply yields_eq, find_here. rewrite Hm. eexists. split; reflexivity.
  - apply match_here_Lit_miss. reflexivity.
Qed.

(** ** Found: the pv field *)

Lemma Join_cons (mv : string) (moves : list string) :
  Str.Join (mv :: moves) = mv +:+ movesTail moves.
Proof.
  revert mv. induction moves as [|m2 moves IH]; intros mv.
  - simpl. rewrite app_empty_r. reflexivity.
  - change (Str.Join (mv :: m2 :: moves)) with (mv +:+ " " +:+ Str.Join (m2 :: moves)).
    rewrite IH. reflexivity.
Qed.

Lemma head_movesTail (p : ascii -> bool) (moves : list string) :
  p " "%char = false -> head_not p (movesTail moves) = true.
Proof. intros Hp. destruct moves; simpl; [reflexivity|]. rewrite Hp. reflexivity. Qed.

Lemma run_UCIMove {A : Type} (Q : A -> Prop) (mv rest : string) cs (k : @cont A) :
  is_uci_move mv = true -> head_not Str.is_promo rest = true ->
  yields Q (k mv rest cs) ->
  yields Q (run UCIMoveRegex (mv +:+ rest) cs k).
Proof.
  intros Hmv Hrest Hk.
  destruct mv as [|f1 [|d1 [|f2 [|d2 tl]]]]; try discriminate Hmv.
  cbn [is_uci_move] in Hmv.
  do 4 (apply andb_true_iff in Hmv; destruct Hmv as [Hmv ?]).
  unfold UCIMoveRegex. cbn [String.append].
  apply yields_Cat, yields_Cls; [assumption|]. cbv beta.
  apply yields_Cat, yields_Cls; [assumption|]. cbv beta.
  apply yields_Cat, yields_Cls; [assumption|]. cbv beta.
  apply yields_Cat, yields_Cls; [assumption|]. cbv beta.
  destruct tl as [|p [|x tl]]; try discriminate.
  - apply yields_Opt_skip; [apply run_Cls_miss; exact Hrest|]. exact Hk.
  - apply yields_Opt_take. cbn [String.append].
    apply yields_Cls; [assumption|]. exact Hk.
Qed.

Lemma length_movesTail_cons (mv : string) (moves : list string) :
  (String.length (movesTail moves) < String.length (movesTail (mv :: moves)))%nat.
Proof.
  cbn [movesTail]. rewrite !length_app_s. simpl. lia.
Qed.

(** The star of the pv pattern takes every remaining move. *)
Lemma star_moves {A : Type} (Q : A -> Prop) (moves : list string) :
  forall (n : nat) cs (k : @cont A),
    Forall (fun mv => is_uci_move mv = true) moves ->
    (String.length (movesTail moves) <= n)%nat ->
    (forall cs', yields Q (k (movesTail moves) "" cs')) ->
    yields Q (star_loop (run (Grp 2 (Cat (Lit " ") UCIMoveRegex))) n
                (movesTail moves) cs k).
Proof.
  induction moves as [|mv moves IH]; intros n cs k Hwf Hn Hk.
  - cbn [movesTail]. destruct n as [|n]; cbn [star_loop]; [apply Hk|].
    cbn [run Str.strip_prefix orelse]. apply Hk.
  - inversion Hwf as [|? ? Hmv Hrest]; subst.
    destruct n as [|n].
    { pose proof (length_movesTail_cons mv moves). lia. }
    cbn [star_loop]. apply yields_orelse.
    apply yields_Grp, yields_Cat.
    cbn [movesTail]. apply yields_Lit. cbv beta.
    apply run_UCIMove; [exact Hmv|apply head_movesTail; reflexivity|].
    replace (Nat.ltb (String.length (movesTail moves))
                     (String.length (" " +:+ mv +:+ movesTail moves))) with true
      by (symmetry; apply Nat.ltb_lt; apply (length_movesTail_cons mv moves)).
    apply IH; [exact Hrest| |].
    + pose proof (length_movesTail_cons mv moves). lia.
    + intros cs'. rewrite app_assoc_s. apply Hk.
Qed.

Lemma match_here_pv (mv : string) (moves : list string) :
  Forall (fun m => is_uci_move m = true) (mv :: moves) ->
  yields (fun m => group 1 m = Str.Join (mv :: moves))
         (match_here PVRegex (" pv " +:+ Str.Join (mv :: moves))).
Proof.
  intros Hwf. inversion Hwf as [|? ? Hmv Hrest]; subst.
  rewrite Join_cons. unfold match_here, PVRegex.
  apply yields_Cat, yields_Lit. cbv beta.
  apply yields_Grp, yields_Cat.
  apply run_UCIMove; [exact Hmv|apply head_movesTail; reflexivity|].
  cbn [run]. apply star_moves; [exact Hrest|lia|].
  intros cs'. eexists. split; [reflexivity|].
  unfold group. cbn [snd cap_lookup Nat.eqb]. reflexivity.
Qed.

(** ** Through the fields of a line *)

Lemma fieldsText_cons (f : field) (fs : list field) (tail : string) :
  fieldsText (f :: fs) +:+ tail = fieldText f +:+ (fieldsText fs +:+ tail).
Proof. cbn [fieldsText]. apply app_assoc_s. Qed.

Lemma head_fieldText (p : ascii -> bool) (f : field) (rest : string) :
  p " "%char = false -> head_not p (fieldText f +:+ rest) = true.
Proof. intros Hp. destruct f; simpl; rewrite Hp; reflexivity. Qed.

Lemma head_fieldsText (p : ascii -> bool) (fs : list field) (tail : string) :
  p " "%char = false -> head_not p tail = true ->
  head_not p (fieldsText fs +:+ tail) = true.
Proof.
  intros Hp Ht. destruct fs as [|f fs]; [exact Ht|].
  rewrite fieldsText_cons. apply head_fieldText, Hp.
Qed.

(** A pattern that passes every field reaches the text behind them. *)
Lemma find_through_fields (p : pat) (fs : list field) (tail : string) :
  Forall (fun f => wf_field f = true) fs ->
  Forall (fun f => passes p f = true) fs ->
  find (patRegex p) (fieldsText fs +:+ tail) = find (patRegex p) tail.
Proof.
  induction fs as [|f fs IH]; intros Hwf Hp; [reflexivity|].
  inversion Hwf; subst. inversion Hp; subst.
  rewrite fieldsText_cons, find_passes by assumption. apply IH; assumption.
Qed.

Lemma passes_other_key (k : intKey) (f : field) :
  fieldKey f <> Some k ->
  (k = KDepth -> fieldKey f <> Some KSeldepth) ->
  passes (PField k) f = true.
Proof.
  intros Hne Hsel. destruct f as [k' ds|]; [|destruct k; reflexivity].
  destruct k, k'; try reflexivity; simpl in *; try congruence.
  exfalso. apply Hsel; reflexivity.
Qed.

Lemma depth_first_cons (f : field) (fs : list field) :
  fieldKey f <> Some KDepth -> depth_first (f :: fs) = true ->
  fieldKey f <> Some KSeldepth /\ depth_first fs = true.
Proof.
  intros Hne H. destruct f as [k ds|]; [|split; [discriminate|exact H]].
  destruct k; simpl in *; try (split; [discriminate|exact H]); congruence.
Qed.

(** The pattern of an integer field finds that field, when the field
    occurs once and, for depth, no seldepth field stands before it. *)
Lemma find_field_in (k : intKey) (ds : string) (fs : list field) (tail : string) :
  In (IntField k ds) fs ->
  Forall (fun f => wf_field f = true) fs ->
  (forall f, In f fs -> f = IntField k ds \/ fieldKey f <> Some k) ->
  (k = KDepth -> depth_first fs = true) ->
  head_not Str.is_digit tail = true ->
  find (fieldRegex (keyName k)) (fieldsText fs +:+ tail)
  = Some (keyName k +:+ " " +:+ ds, [(1%nat, ds)]).
Proof.
  intros Hin Hwf Huniq Hdf Htail.
  induction fs as [|f fs IH]; [destruct Hin|].
  inversion Hwf as [|? ? Hf Hfs]; subst.
  rewrite fieldsText_cons.
  destruct (Huniq f (or_introl eq_refl)) as [-> | Hkey].
  - apply find_own_field.
    + simpl in Hf. apply andb_true_iff in Hf. tauto.
    + apply head_fieldsText; [reflexivity|exact Htail].
  - assert (Hsel : k = KDepth -> fieldKey f <> Some KSeldepth /\ depth_first fs = true).
    { intros ->. apply depth_first_cons; [exact Hkey|apply Hdf; reflexivity]. }
    change (fieldRegex (keyName k)) with (patRegex (PField k)).
    rewrite find_passes; [|exact Hf|].
    2:{ apply passes_other_key; [exact Hkey|]. intros Hk. apply (Hsel Hk). }
    apply IH.
    + destruct Hin as [->|Hin]; [|exact Hin]. simpl in Hkey. congruence.
    + exact Hfs.
    + intros g Hg. apply Huniq. right. exact Hg.
    + intros Hk. apply (Hsel Hk).
Qed.

Lemma find_score_in (eval : string) (neg : bool) (ds : string)
    (fs : list field) (tail : string) :
  In (ScoreField eval neg ds) fs ->
  Forall (fun f => wf_field f = true) fs ->
  (forall f, In f fs -> f = ScoreField eval neg ds \/ fieldKey f <> None) ->
  head_not Str.is_digit tail = true ->
  find scoreRegex (fieldsText fs +:+ tail)
  = Some ("score " +:+ eval +:+ " " +:+ signText neg +:+ ds,
          [(2%nat, signText neg +:+ ds); (1%nat, eval)]).
Proof.
  intros Hin Hwf Huniq Htail.
  induction fs as [|f fs IH]; [destruct Hin|].
  inversion Hwf as [|? ? Hf Hfs]; subst.
  rewrite fieldsText_cons.
  destruct (Huniq f (or_introl eq_refl)) as [-> | Hkey].
  - apply find_own_score; [exact Hf|].
    apply head_fieldsText; [reflexivity|exact Htail].
  - change scoreRegex with (patRegex PScore).
    rewrite find_passes; [|exact Hf|].
    2:{ destruct f; [reflexivity|]. simpl in Hkey. congruence. }
    apply IH.
    + destruct Hin as [->|Hin]; [|exact Hin]. simpl in Hkey. congruence.
    + exact Hfs.
    + intros g Hg. apply Huniq. right. exact Hg.
Qed.

(** ** Atoi on the captured digits *)

Lemma digit_val_bounds (c : ascii) :
  Str.is_digit c = true -> 0 <= Strconv.digit_val c <= 9.
Proof.
  destruct c as [[] [] [] [] [] [] [] []]; intros H; try discriminate H;
    vm_compute; split; discriminate.
Qed.

Lemma literal_from_mono (ds : string) (acc : Z) :
  all_chars Str.is_digit ds = true -> 0 <= acc -> acc <= literal_from acc ds.
Proof.
  revert acc. induction ds as [|c ds IH]; intros acc Hall Hacc; simpl; [lia|].
  simpl in Hall. apply andb_true_iff in Hall. destruct Hall as [Hc Hds].
  pose proof (digit_val_bounds c Hc).
  specialize (IH (10 * acc + Strconv.digit_val c) Hds ltac:(lia)). lia.
Qed.

Lemma digits_val_literal (ds : string) (acc : Z) :
  all_chars Str.is_digit ds = true ->
  Strconv.digits_val ds acc = Some (literal_from acc ds).
Proof.
  revert acc. induction ds as [|c ds IH]; intros acc Hall; simpl; [reflexivity|].
  simpl in Hall. apply andb_true_iff in Hall. destruct Hall as [Hc Hds].
  rewrite Hc. apply IH, Hds.
Qed.

Lemma Atoi_digits (ds : string) :
  is_digits ds = true -> literal ds <= GoInt.maxInt ->
  Strconv.Atoi ds = Ret (literal ds).
Proof.
  intros Hds Hfit.
  apply is_digits_inv in Hds. destruct Hds as (c & ds' & -> & Hc & Hds').
  assert (Hall : all_chars Str.is_digit (String c ds') = true)
    by (simpl; rewrite Hc; exact Hds').
  pose proof (literal_from_mono (String c ds') 0 Hall ltac:(lia)) as Hpos.
  fold (literal (String c ds')) in Hpos.
  assert (Hbody : Strconv.Atoi (String c ds')
                  = match Strconv.digits_val (String c ds') 0 with
                    | None => Fail (Strconv.syntax_error (String c ds'))
                    | Some v =>
                        if Z.leb GoInt.minInt v && Z.leb v GoInt.maxInt then Ret v
                        else Fail (Strconv.range_error (String c ds'))
                    end).
  { destruct c as [[] [] [] [] [] [] [] []]; try discriminate Hc; reflexivity. }
  rewrite Hbody, (digits_val_literal _ 0 Hall). fold (literal (String c ds')).
  replace (Z.leb GoInt.minInt (literal (String c ds'))) with true
    by (symmetry; apply Z.leb_le; unfold GoInt.minInt; lia).
  replace (Z.leb (literal (String c ds')) GoInt.maxInt) with true
    by (symmetry; apply Z.leb_le; exact Hfit).
  reflexivity.
Qed.

Lemma Atoi_signed (neg : bool) (ds : string) :
  is_digits ds = true ->
  GoInt.minInt <= signed neg ds <= GoInt.maxInt ->
  Strconv.Atoi (signText neg +:+ ds) = Ret (signed neg ds).
Proof.
  intros Hds Hfit. destruct neg.
  - pose proof Hds as Hds0.
    apply is_digits_inv in Hds. destruct Hds as (c & ds' & -> & Hc & Hds').
    assert (Hall : all_chars Str.is_digit (String c ds') = true)
      by (simpl; rewrite Hc; exact Hds').
    cbn [signText String.append]. unfold Strconv.Atoi.
    rewrite (digits_val_literal _ 0 Hall). fold (literal (String c ds')).
    unfold signed in Hfit.
    replace (Z.leb GoInt.minInt (- literal (String c ds'))) with true
      by (symmetry; apply Z.leb_le; lia).
    replace (Z.leb (- literal (String c ds')) GoInt.maxInt) with true
      by (symmetry; apply Z.leb_le; lia).
    reflexivity.
  - change (signText false +:+ ds) with ds. apply Atoi_digits; [exact Hds|].
    unfold signed in Hfit. lia.
Qed.

(** ** The whole line *)

Lemma all_chars_app (q : ascii -> bool) (a b : string) :
  all_chars q (a +:+ b) = all_chars q a && all_chars q b.
Proof.
  induction a as [|c a IH]; [reflexivity|].
  change (String c a +:+ b) with (String c (a +:+ b)). simpl.
  rewrite IH, andb_assoc. reflexivity.
Qed.

Lemma uci_move_chars (q : ascii -> bool) (mv : string) :
  (forall c, Str.is_file c = true -> q c = true) ->
  (forall c, Str.is_digit c = true -> q c = true) ->
  (forall c, Str.is_promo c = true -> q c = true) ->
  is_uci_move mv = true -> all_chars q mv = true.
Proof.
  intros Hf Hd Hp Hmv.
  destruct mv as [|f1 [|d1 [|f2 [|d2 tl]]]]; try discriminate Hmv.
  cbn [is_uci_move] in Hmv.
  do 4 (apply andb_true_iff in Hmv; destruct Hmv as [Hmv ?]).
  cbn [all_chars]. rewrite (Hf f1), (Hd d1), (Hf f2), (Hd d2) by assumption.
  destruct tl as [|p [|x tl]]; try discriminate; cbn [all_chars andb];
    [reflexivity|]. rewrite (Hp p) by assumption. reflexivity.
Qed.

Lemma movesTail_chars (q : ascii -> bool) (moves : list string) :
  q " "%char = true ->
  Forall (fun mv => all_chars q mv = true) moves ->
  all_chars q (movesTail moves) = true.
Proof.
  intros Hsp. induction 1 as [|mv moves Hmv _ IH]; [reflexivity|].
  cbn [movesTail]. rewrite !all_chars_app, Hmv, IH. simpl. rewrite Hsp. reflexivity.
Qed.

(** The notice pattern starts with the byte i, which no move contains. *)
Lemma find_notice_pv (moves : list string) :
  Forall (fun mv => is_uci_move mv = true) moves ->
  find noticeRegex (" pv " +:+ Str.Join moves) = None.
Proof.
  intros Hwf. unfold noticeRegex.
  change "info string " with (String "i" "nfo string ").
  apply find_Lit_none.
  assert (Hq : forall p : ascii -> bool, p "i"%char = false ->
            forall c, p c = true -> negb (Ascii.eqb "i" c) = true).
  { intros p Hp c Hc. rewrite (class_neq p "i" c Hp Hc). reflexivity. }
  rewrite all_chars_app. apply andb_true_iff. split; [reflexivity|].
  destruct moves as [|mv moves]; [reflexivity|].
  rewrite Join_cons, all_chars_app.
  inversion Hwf as [|? ? Hmv Hrest]; subst.
  apply andb_true_iff. split.
  - apply uci_move_chars; [apply (Hq Str.is_file)|apply (Hq Str.is_digit)
                           |apply (Hq Str.is_promo)|exact Hmv]; reflexivity.
  - apply movesTail_chars; [reflexivity|].
    eapply Forall_impl; [exact Hrest|]. intros m Hm. cbv beta in *.
    apply uci_move_chars; [apply (Hq Str.is_file)|apply (Hq Str.is_digit)
                           |apply (Hq Str.is_promo)|exact Hm]; reflexivity.
Qed.

Lemma find_notice_info (f : field) (rest : string) :
  wf_field f = true ->
  find noticeRegex ("info" +:+ fieldText f +:+ rest) = find noticeRegex rest.
Proof.
  intros Hwf.
  destruct f as [k ds|eval neg ds]; simpl in Hwf.
  - apply andb_true_iff in Hwf. destruct Hwf as [Hds _].
    apply is_digits_inv in Hds. destruct Hds as (c & ds' & -> & Hc & Hds').
    destruct k; unfold noticeRegex; cbn [keyName fieldText String.append];
      repeat skip_byte; skip_digits; reflexivity.
  - apply andb_true_iff in Hwf. destruct Hwf as [Hwf _].
    apply andb_true_iff in Hwf. destruct Hwf as [Hwf _].
    apply andb_true_iff in Hwf. destruct Hwf as [Hev Hds].
    apply is_digits_inv in Hds. destruct Hds as (c & ds' & -> & Hc & Hds').
    apply wf_eval in Hev.
    destruct Hev as [-> | ->]; destruct neg;
      unfold noticeRegex; cbn [keyName fieldText signText String.append];
      repeat skip_byte; skip_digits; reflexivity.
Qed.

Lemma find_info_prefix (p : pat) (rest : string) :
  p <> PNotice ->
  find (patRegex p) ("info" +:+ rest) = find (patRegex p) rest.
Proof.
  intros Hp. destruct p as [k| | |]; [destruct k| | |congruence];
    unfold patRegex, fieldRegex, scoreRegex, PVRegex;
    cbn [keyName String.append]; repeat skip_byte; reflexivity.
Qed.

Lemma passes_pv (f : field) : passes PPv f = true.
Proof. destruct f; reflexivity. Qed.

Lemma passes_notice (f : field) : passes PNotice f = true.
Proof. destruct f; reflexivity. Qed.

(** ** The depth pattern inside a seldepth field *)

(** The pattern of the depth field also matches inside a seldepth field,
    whose name ends in depth. *)
Lemma find_depth_in_seldepth (ds rest : string) :
  is_digits ds = true -> head_not Str.is_digit rest = true ->
  find (fieldRegex "depth") (fieldText (IntField KSeldepth ds) +:+ rest)
  = Some ("depth " +:+ ds, [(1%nat, ds)]).
Proof.
  intros Hds Hrest.
  apply is_digits_inv in Hds. destruct Hds as (c & ds' & -> & Hc & Hds').
  assert (Hall : all_chars Str.is_digit (String c ds') = true)
    by (simpl; rewrite Hc; exact Hds').
  pose proof (match_here_field "depth" c ds' rest Hall Hrest) as Hm.
  unfold fieldText. cbn [keyName].
  replace ((" " +:+ "seldepth" +:+ " " +:+ String c ds') +:+ rest)
    with (String " " (String "s" (String "e" (String "l"
            ("depth" +:+ " " +:+ String c ds' +:+ rest))))).
  2:{ change (" " +:+ "seldepth" +:+ " " +:+ String c ds')
        with (String " " (String "s" (String "e" (String "l"
                ("depth" +:+ " " +:+ String c ds'))))).
      change (String " " (String "s" (String "e" (String "l"
                ("depth" +:+ " " +:+ String c ds')))) +:+ rest)
        with (String " " (String "s" (String "e" (String "l"
                (("depth" +:+ " " +:+ String c ds') +:+ rest))))).
      rewrite !app_assoc_s. reflexivity. }
  do 4 (rewrite find_skip by (apply match_here_Lit_miss; reflexivity)).
  apply yields_eq, find_here. rewrite Hm. eexists. split; reflexivity.
Qed.

(** With a seldepth field before any depth field, the pattern of the
    depth field finds the digits of that seldepth field. *)
Lemma find_depth_behind_seldepth (ds : string) (fs : list field) (tail : string) :
  Forall (fun f => wf_field f = true) fs ->
  depth_first fs = false ->
  (forall f, In f fs -> fieldKey f = Some KSeldepth -> f = IntField KSeldepth ds) ->
  head_not Str.is_digit tail = true ->
  find (fieldRegex "depth") (fieldsText fs +:+ tail)
  = Some ("depth " +:+ ds, [(1%nat, ds)]).
Proof.
  intros Hwf Hdf Huniq Htail.
  induction fs as [|f fs IH]; [discriminate Hdf|].
  inversion Hwf as [|? ? Hf Hfs]; subst.
  rewrite fieldsText_cons.
  assert (Hnext : passes (PField KDepth) f = true -> depth_first fs = false ->
            find (fieldRegex "depth") (fieldText f +:+ fieldsText fs +:+ tail)
            = Some ("depth " +:+ ds, [(1%nat, ds)])).
  { intros Hpass Hdf'.
    change (fieldRegex "depth") with (patRegex (PField KDepth)).
    rewrite find_passes by assumption.
    apply IH; [exact Hfs|exact Hdf'|intros g Hg; apply Huniq; right; exact Hg]. }
  destruct f as [k ds'|eval neg ds']; [destruct k|];
    try (apply Hnext; [reflexivity|exact Hdf]).
  - discriminate Hdf.
  - pose proof (Huniq _ (or_introl eq_refl) eq_refl) as Heq. injection Heq as ->.
    apply find_depth_in_seldepth.
    + simpl in Hf. apply andb_true_iff in Hf. tauto.
    + apply head_fieldsText; [reflexivity|exact Htail].
Qed.

Section RoundTrip.
Variables (d sd mp eval : string) (neg : bool) (sv n np tb ti : string).
Variables (fs : list field) (moves : list string).
Hypothesis Hperm : Permutation fs (canonicalFields d sd mp eval neg sv n np tb ti).
Hypothesis Hwf : Forall (fun f => wf_field f = true) fs.
Hypothesis Hmoves : moves <> [].
Hypothesis Hlex : Forall (fun mv => is_uci_move mv = true) moves.

Lemma line_eq : infoLine fs moves = "info" +:+ fieldsText fs +:+ pvText moves.
Proof. reflexivity. Qed.

Lemma tail_head : head_not Str.is_digit (pvText moves) = true.
Proof. reflexivity. Qed.

Lemma in_canonical (f : field) :
  In f fs -> In f (canonicalFields d sd mp eval neg sv n np tb ti).
Proof. intros H. eapply Permutation_in; [exact Hperm|exact H]. Qed.

Lemma canonical_in (f : field) :
  In f (canonicalFields d sd mp eval neg sv n np tb ti) -> In f fs.
Proof. intros H. eapply Permutation_in; [symmetry; exact Hperm|exact H]. Qed.

Lemma wf_in (f : field) : In f fs -> wf_field f = true.
Proof. intros H. rewrite Forall_forall in Hwf. apply Hwf. apply list_elem_of_In, H. Qed.

Lemma find_int (k : intKey) (ds : string) :
  In (IntField k ds) (canonicalFields d sd mp eval neg sv n np tb ti) ->
  (k = KDepth -> depth_first fs = true) ->
  find (fieldRegex (keyName k)) (infoLine fs moves)
  = Some (keyName k +:+ " " +:+ ds, [(1%nat, ds)])
  /\ Strconv.Atoi ds = Ret (literal ds).
Proof.
  intros Hin Hdf. split.
  - rewrite line_eq.
    change (fieldRegex (keyName k)) with (patRegex (PField k)).
    rewrite find_info_prefix by discriminate.
    apply find_field_in.
    + apply canonical_in, Hin.
    + exact Hwf.
    + intros f Hf. apply in_canonical in Hf. simpl in Hin, Hf.
      destruct Hf as [<-|[<-|[<-|[<-|[<-|[<-|[<-|[<-|[]]]]]]]]];
      destruct Hin as [Hx|[Hx|[Hx|[Hx|[Hx|[Hx|[Hx|[Hx|[]]]]]]]]];
      try discriminate Hx; try (left; exact Hx);
      right; simpl; injection Hx as <- _; discriminate.
    + exact Hdf.
    + exact tail_head.
  - apply canonical_in, wf_in in Hin. simpl in Hin.
    apply andb_true_iff in Hin. destruct Hin as [Hds Hfit].
    apply Atoi_digits; [exact Hds|apply Z.leb_le, Hfit].
Qed.

Lemma find_the_score :
  find scoreRegex (infoLine fs moves)
  = Some ("score " +:+ eval +:+ " " +:+ signText neg +:+ sv,
          [(2%nat, signText neg +:+ sv); (1%nat, eval)])
  /\ Strconv.Atoi (signText neg +:+ sv) = Ret (signed neg sv).
Proof.
  assert (Hin : In (ScoreField eval neg sv) fs)
    by (apply canonical_in; simpl; tauto).
  split.
  - rewrite line_eq. change scoreRegex with (patRegex PScore).
    rewrite find_info_prefix by discriminate.
    apply find_score_in; [exact Hin|exact Hwf| |exact tail_head].
    intros f Hf. apply in_canonical in Hf. simpl in Hf.
    destruct Hf as [<-|[<-|[<-|[<-|[<-|[<-|[<-|[<-|[]]]]]]]]];
      try (right; discriminate). left. reflexivity.
  - apply wf_in in Hin. simpl in Hin.
    apply andb_true_iff in Hin. destruct Hin as [Hin Hhi].
    apply andb_true_iff in Hin. destruct Hin as [Hin Hlo].
    apply andb_true_iff in Hin. destruct Hin as [_ Hds].
    apply Atoi_signed; [exact Hds|]. split; apply Z.leb_le; assumption.
Qed.

Lemma find_the_pv :
  exists m, find PVRegex (infoLine fs moves) = Some m /\ group 1 m = Str.Join moves.
Proof.
  rewrite line_eq. change PVRegex with (patRegex PPv).
  rewrite find_info_prefix by discriminate.
  rewrite find_through_fields;
    [|exact Hwf|apply Forall_forall; intros; apply passes_pv].
  unfold pvText. destruct moves as [|mv ms]; [congruence|].
  apply (find_here (fun m => group 1 m = Str.Join (mv :: ms))).
  apply match_here_pv. exact Hlex.
Qed.

Lemma find_no_notice : find noticeRegex (infoLine fs moves) = None.
Proof.
  rewrite line_eq.
  destruct fs as [|f fs'] eqn:Hfs.
  { apply Permutation_length in Hperm. discriminate Hperm. }
  rewrite fieldsText_cons.
  inversion Hwf as [|? ? Hf Hrest]; subst.
  rewrite find_notice_info by exact Hf.
  change noticeRegex with (patRegex PNotice).
  rewrite find_through_fields;
    [|exact Hrest|apply Forall_forall; intros; apply passes_notice].
  unfold pvText. apply find_notice_pv. exact Hlex.
Qed.

Lemma find_depth_seldepth_first :
  depth_first fs = false ->
  find (fieldRegex "depth") (infoLine fs moves)
  = Some ("depth " +:+ sd, [(1%nat, sd)])
  /\ Strconv.Atoi sd = Ret (literal sd).
Proof.
  intros Hdf. split.
  - rewrite line_eq.
    change (fieldRegex "depth") with (patRegex (PField KDepth)).
    rewrite find_info_prefix by discriminate.
    apply find_depth_behind_seldepth; [exact Hwf|exact Hdf| |exact tail_head].
    intros f Hf Hkey. apply in_canonical in Hf. simpl in Hf.
    destruct Hf as [<-|[<-|[<-|[<-|[<-|[<-|[<-|[<-|[]]]]]]]]];
      try discriminate Hkey. reflexivity.
  - assert (Hin : In (IntField KSeldepth sd) fs)
      by (apply canonical_in; simpl; tauto).
    apply wf_in in Hin. simpl in Hin.
    apply andb_true_iff in Hin. destruct Hin as [Hds Hfit].
    apply Atoi_digits; [exact Hds|apply Z.leb_le, Hfit].
Qed.

(** The record of the line, given the digits [dd] the depth pattern
    finds. *)
Lemma parsed_fields (dd : string) :
  find (fieldRegex "depth") (infoLine fs moves)
  = Some ("depth " +:+ dd, [(1%nat, dd)]) ->
  Strconv.Atoi dd = Ret (literal dd) ->
  ParseInfo (infoLine fs moves)
  = Ret (mkInfo (literal dd) (literal sd) (literal mp)
                (mkScore eval (signed neg sv))
                (literal n) (literal np) (literal tb) (literal ti)
                (Str.Join moves)).
Proof.
  intros H1 A1.
  unfold ParseInfo. rewrite find_no_notice.
  destruct find_the_pv as (mpv & -> & Hpv).
  destruct find_the_score as [-> Hatoi].
  cbn [group snd cap_lookup Nat.eqb]. rewrite Hatoi.
  cbn [parse_fields singleValueFields].
  destruct (find_int KSeldepth sd) as [H2 A2]; [simpl; tauto|discriminate|].
  destruct (find_int KMultipv mp) as [H3 A3]; [simpl; tauto|discriminate|].
  destruct (find_int KNodes n) as [H4 A4]; [simpl; tauto|discriminate|].
  destruct (find_int KNps np) as [H5 A5]; [simpl; tauto|discriminate|].
  destruct (find_int KTbhits tb) as [H6 A6]; [simpl; tauto|discriminate|].
  destruct (find_int KTime ti) as [H7 A7]; [simpl; tauto|discriminate|].
  cbn [keyName] in *.
  rewrite H1. cbn [group snd cap_lookup Nat.eqb]. rewrite A1.
  rewrite H2. cbn [group snd cap_lookup Nat.eqb]. rewrite A2.
  rewrite H3. cbn [group snd cap_lookup Nat.eqb]. rewrite A3.
  rewrite H4. cbn [group snd cap_lookup Nat.eqb]. rewrite A4.
  rewrite H5. cbn [group snd cap_lookup Nat.eqb]. rewrite A5.
  rewrite H6. cbn [group snd cap_lookup Nat.eqb]. rewrite A6.
  rewrite H7. cbn [group snd cap_lookup Nat.eqb]. rewrite A7.
  rewrite Hpv. reflexivity.
Qed.

Lemma round_trip_fields :
  depth_first fs = true ->
  ParseInfo (infoLine fs moves)
  = Ret (mkInfo (literal d) (literal sd) (literal mp)
                (mkScore eval (signed neg sv))
                (literal n) (literal np) (literal tb) (literal ti)
                (Str.Join moves)).
Proof.
  intros Hfirst.
  destruct (find_int KDepth d) as [H1 A1]; [simpl; tauto|intros _; exact Hfirst|].
  exact (parsed_fields d H1 A1).
Qed.

Lemma seldepth_first_fields :
  depth_first fs = false ->
  ParseInfo (infoLine fs moves)
  = Ret (mkInfo (literal sd) (literal sd) (literal mp)
                (mkScore eval (signed neg sv))
                (literal n) (literal np) (literal tb) (literal ti)
                (Str.Join moves)).
Proof.
  intros Hdf. destruct (find_depth_seldepth_first Hdf) as [H1 A1].
  exact (parsed_fields sd H1 A1).
Qed.

End RoundTrip.

(** C1: the round trip fails on well-formed lines.  Take a line made of
    the word info, the seven integer fields and the score field in an
    order in which seldepth comes before depth, every value a run of digits
    that fits an int, and a trailing pv field of one or more moves.
    [ParseInfo] returns the value of the seldepth field as [Depth], and not
    the value written in the depth field: the pattern of the depth field is
    matched first inside the name seldepth.  Every other field has the
    value written in the line. *)
Theorem ParseInfo_depth_read_from_seldepth (d sd mp eval : string) (neg : bool)
    (sv n np tb ti : string) (fs : list field) (moves : list string) :
  Permutation fs (canonicalFields d sd mp eval neg sv n np tb ti) ->
  depth_first fs = false ->
  Forall (fun f => wf_field f = true) fs ->
  moves <> [] ->
  Forall (fun mv => is_uci_move mv = true) moves ->
  ParseInfo (infoLine fs moves)
  = Ret (mkInfo (literal sd) (literal sd) (literal mp)
                (mkScore eval (signed neg sv))
                (literal n) (literal np) (literal tb) (literal ti)
                (Str.Join moves)).
Proof.
  intros Hperm Hfirst Hwf Hmoves Hlex.
  exact (seldepth_first_fields d sd mp eval neg sv n np tb ti fs moves
           Hperm Hwf Hmoves Hlex Hfirst).
Qed.

Lemma ParseInfo_depth_read_from_seldepth_witness :
  infoLine seldepthFirstFields sourceMoves = seldepthFirstLine
  /\ ParseInfo (infoLine seldepthFirstFields sourceMoves)
     = Ret (mkInfo 3 3 1 (mkScore "cp" (-656)) 43 43000 0 1 "g7g6 h3g3 g6f7")
  /\ literal "2" <> literal "3".
Proof.
  split; [reflexivity|]. split.
  - apply (ParseInfo_depth_read_from_seldepth
             "2" "3" "1" "cp" true "656" "43" "43000" "0" "1"
             seldepthFirstFields sourceMoves).
    + unfold seldepthFirstFields, canonicalFields. apply perm_swap.
    + reflexivity.
    + repeat constructor.
    + discriminate.
    + repeat constructor.
  - vm_compute. discriminate.
Defined.

(** X25: with the depth field before the seldepth field the round trip
    holds.  A line made of the word info, the seven integer fields and the
    score field in any such order, every value a run of digits that fits
    an int, and a trailing pv field of one or more moves, parses to the
    record of exactly these values. *)
Theorem ParseInfo_round_trip (d sd mp eval : string) (neg : bool)
    (sv n np tb ti : string) (fs : list field) (moves : list string) :
  Permutation fs (canonicalFields d sd mp eval neg sv n np tb ti) ->
  depth_first fs = true ->
  Forall (fun f => wf_field f = true) fs ->
  moves <> [] ->
  Forall (fun mv => is_uci_move mv = true) moves ->
  ParseInfo (infoLine fs moves)
  = Ret (mkInfo (literal d) (literal sd) (literal mp)
                (mkScore eval (signed neg sv))
                (literal n) (literal np) (literal tb) (literal ti)
                (Str.Join moves)).
Proof.
  intros Hperm Hfirst Hwf Hmoves Hlex.
  exact (round_trip_fields d sd mp eval neg sv n np tb ti fs moves
           Hperm Hwf Hmoves Hlex Hfirst).
Qed.

Lemma shuffledFields_perm :
  Permutation shuffledFields
    (canonicalFields "2" "3" "1" "cp" true "656" "43" "43000" "0" "1").
Proof.
  unfold shuffledFields, canonicalFields. solve_Permutation.
Qed.

Lemma ParseInfo_round_trip_witness :
  infoLine shuffledFields sourceMoves
  = "info time 1 score cp -656 depth 2 nodes 43 seldepth 3 tbhits 0 nps 43000 multipv 1 pv g7g6 h3g3 g6f7"
  /\ ParseInfo (infoLine shuffledFields sourceMoves)
     = Ret (mkInfo 2 3 1 (mkScore "cp" (-656)) 43 43000 0 1 "g7g6 h3g3 g6f7").
Proof.
  split; [reflexivity|].
  apply (ParseInfo_round_trip "2" "3" "1" "cp" true "656" "43" "43000" "0" "1"
           shuffledFields sourceMoves).
  - exact shuffledFields_perm.
  - reflexivity.
  - repeat constructor.
  - discriminate.
  - repeat constructor.
Defined.

(** A depth of 2^63 is a run of digits but not an int: [Atoi] reports it
    and [ParseInfo] returns that error. *)
Example ParseInfo_depth_out_of_range :
  infoLine hugeDepthFields sourceMoves = hugeDepthLine /\
  is_digits "9223372036854775808" = true /\
  ParseInfo hugeDepthLine = Fail (Strconv.range_error "9223372036854775808").
Proof. repeat split; vm_compute; reflexivity. Qed.

(** ** The notice pattern *)

Lemma find_some_later (Q : submatches -> Prop) (r : regex) (pre s : string) :
  yields Q (match_here r s) -> exists m, find r (pre +:+ s) = Some m.
Proof.
  intros Hm. induction pre as [|c pre IH].
  - destruct (find_here Q r s Hm) as (m & Hf & _). exists m. exact Hf.
  - change (String c pre +:+ s) with (String c (pre +:+ s)). cbn [find].
    destruct (match_here r (String c (pre +:+ s))) as [m|]; [exists m; reflexivity|].
    exact IH.
Qed.

Lemma match_here_notice (a b post : string) :
  is_word_run a = true -> is_word_run b = true ->
  yields (fun _ => True)
    (match_here noticeRegex
       ("info string " +:+ a +:+ " evaluation using " +:+ b +:+ " enabled" +:+ post)).
Proof.
  intros Ha Hb.
  destruct a as [|ca a]; [discriminate|]. destruct b as [|cb b]; [discriminate|].
  unfold match_here, noticeRegex.
  apply yields_Cat, yields_Lit. cbv beta.
  apply yields_Cat, run_Plus_Cls; [exact Ha|reflexivity|]. cbv beta.
  apply yields_Cat, yields_Lit. cbv beta.
  apply yields_Cat, run_Plus_Cls; [exact Hb|reflexivity|]. cbv beta.
  apply yields_Lit. eexists. split; [reflexivity|exact I].
Qed.

(** C7 (amended): a line that contains the notice shape, the words info
    string, a run of bytes without a space, the words evaluation using,
    another such run and the word enabled, parses to the empty record,
    whatever stands before and after it; no error is returned. *)
Theorem ParseInfo_notice (pre a b post : string) :
  is_word_run a = true -> is_word_run b = true ->
  ParseInfo (pre +:+ "info string " +:+ a +:+ " evaluation using " +:+ b
             +:+ " enabled" +:+ post)
  = Ret zeroInfo.
Proof.
  intros Ha Hb. unfold ParseInfo.
  destruct (find_some_later _ noticeRegex pre _ (match_here_notice a b post Ha Hb))
    as [m ->].
  reflexivity.
Qed.

Lemma ParseInfo_notice_witness :
  ParseInfo "info string NNUE evaluation using nn-82215d0fd0df.nnue enabled"
  = Ret zeroInfo.
Proof.
  apply (ParseInfo_notice "" "NNUE" "nn-82215d0fd0df.nnue" ""); reflexivity.
Defined.

(** C7 as stated fails: a notice in free form that is not of that shape
    and holds none of the searched fields is not answered with the empty
    record.  [ParseInfo] goes on to look for the pv and returns the pv
    error, for a greeting as for the notice of the classical evaluation. *)
Lemma ParseInfo_notice_fails_as_stated :
  (lacks_fields helloNotice = true /\
   ParseInfo helloNotice = Fail ("Could not parse pv: " +:+ helloNotice)) /\
  (lacks_fields classicalNotice = true /\
   ParseInfo classicalNotice = Fail ("Could not parse pv: " +:+ classicalNotice)).
Proof. repeat split; vm_compute; reflexivity. Qed.

(** ** ParseBestMove on the two shapes of a bestmove line *)

Lemma Split_word (w : string) :
  all_chars Str.not_space w = true -> Str.Split w = [w].
Proof.
  induction w as [|c w IH]; [reflexivity|].
  simpl. intros H. apply andb_true_iff in H. destruct H as [Hc Hw].
  unfold Str.not_space in Hc. apply negb_true_iff in Hc. rewrite Hc.
  rewrite (IH Hw). reflexivity.
Qed.

Lemma Split_word_space (w rest : string) :
  all_chars Str.not_space w = true ->
  Str.Split (w +:+ " " +:+ rest) = w :: Str.Split rest.
Proof.
  induction w as [|c w IH]; [reflexivity|].
  cbn [all_chars]. intros H. apply andb_true_iff in H. destruct H as [Hc Hw].
  unfold Str.not_space in Hc. apply negb_true_iff in Hc.
  change (String c w +:+ " " +:+ rest) with (String c (w +:+ " " +:+ rest)).
  cbn [Str.Split]. rewrite Hc, (IH Hw). reflexivity.
Qed.

(** The part of C6 the code does satisfy: for a move [X] without a space,
    the line bestmove X gives move X and no ponder. *)
Lemma ParseBestMove_move_only (X : string) :
  all_chars Str.not_space X = true ->
  ParseBestMove ("bestmove " +:+ X) = Ret (mkBestMove X "" None).
Proof.
  intros HX. unfold ParseBestMove.
  change ("bestmove " +:+ X) with ("bestmove" +:+ " " +:+ X).
  rewrite (Split_word_space "bestmove" X eq_refl), (Split_word X HX).
  reflexivity.
Qed.

(** And the line bestmove X ponder Y gives move X and ponder Y. *)
Lemma ParseBestMove_move_ponder (X Y : string) :
  all_chars Str.not_space X = true -> all_chars Str.not_space Y = true ->
  ParseBestMove ("bestmove " +:+ X +:+ " ponder " +:+ Y)
  = Ret (mkBestMove X Y None).
Proof.
  intros HX HY. unfold ParseBestMove.
  change ("bestmove " +:+ X +:+ " ponder " +:+ Y)
    with ("bestmove" +:+ " " +:+ X +:+ " " +:+ "ponder" +:+ " " +:+ Y).
  rewrite (Split_word_space "bestmove" _ eq_refl).
  rewrite (Split_word_space X _ HX).
  rewrite (Split_word_space "ponder" Y eq_refl), (Split_word Y HY).
  reflexivity.
Qed.

(** ** Allocation *)

Lemma allocate_above (h : heap) (engine : N) :
  is_Some (h !! engine) -> (engine < allocate h)%N.
Proof.
  unfold allocate. revert engine.
  apply (map_fold_weak_ind
           (fun (top : N) (m : heap) =>
              forall engine, is_Some (m !! engine) -> (engine < N.succ top)%N)).
  - intros engine [e He]. rewrite lookup_empty in He. discriminate.
  - intros i x m top Hi IH engine Hsome.
    destruct (decide (i = engine)) as [->|Hne].
    + lia.
    + rewrite lookup_insert_ne in Hsome by exact Hne.
      specialize (IH engine Hsome). lia.
Qed.

(** The address of a new engine is not nil and not in use. *)
Lemma allocate_fresh (h : heap) : allocate h <> 0%N /\ h !! allocate h = None.
Proof.
  split; [unfold allocate; lia|].
  destruct (h !! allocate h) as [e|] eqn:He; [|reflexivity].
  pose proof (allocate_above h (allocate h) (mk_is_Some _ _ He)). lia.
Qed.

(* ===================================================================== *)
(** * Further properties of the driver *)

(** ** The handshake *)

Lemma await_readyok_chatter (pre lines : list string) :
  forallb is_chatter pre = true ->
  Engine.await_readyok (pre ++ lines) = Engine.await_readyok lines.
Proof.
  induction pre as [|text pre IH]; intros H; [reflexivity|].
  cbn [forallb] in H. apply andb_true_iff in H. destruct H as [Ht Hpre].
  unfold is_chatter, is_diagnostic, is_readyok in Ht.
  apply andb_true_iff in Ht. destruct Ht as [Hd Hr].
  apply negb_true_iff, orb_false_iff in Hd. destruct Hd as [Hd1 Hd2].
  apply negb_true_iff in Hr.
  cbn [app Engine.await_readyok]. rewrite Hd1, Hd2, Hr. exact (IH Hpre).
Qed.

Lemma IsReady_eq (e : Engine) :
  Engine.IsReady e
  = (fst (Engine.await_readyok (Stdout e)),
     advance e ["isready" +:+ newline] (snd (Engine.await_readyok (Stdout e)))).
Proof.
  unfold Engine.IsReady, bind, Engine.Put, advance. cbn [fst snd].
  cbn [set_Stdin Stdout]. destruct (Engine.await_readyok (Stdout e)). reflexivity.
Qed.

(** X1: when the engine prints lines that are neither diagnostics nor the
    acknowledgement and then readyok, [IsReady] writes the probe, returns
    nil, and leaves the lines behind the acknowledgement unread. *)
Theorem IsReady_acknowledged (e : Engine) (pre : list string) (ack : string)
    (rest : list string) :
  Stdout e = pre ++ ack :: rest ->
  forallb is_chatter pre = true ->
  is_readyok ack = true ->
  Engine.IsReady e = (Ret tt, advance e ["isready" +:+ newline] rest).
Proof.
  intros Hout Hpre Hack. rewrite IsReady_eq, Hout, await_readyok_chatter by exact Hpre.
  unfold is_readyok in Hack. cbn [Engine.await_readyok].
  rewrite Hack. apply String.eqb_eq in Hack. rewrite Hack. reflexivity.
Qed.

Lemma IsReady_acknowledged_witness :
  Engine.IsReady (demoEngine ["info string hello"; " readyok "; "bestmove e2e4"])
  = (Ret tt,
     advance (demoEngine ["info string hello"; " readyok "; "bestmove e2e4"])
             ["isready" +:+ newline] ["bestmove e2e4"]).
Proof.
  apply (IsReady_acknowledged _ ["info string hello"] " readyok " ["bestmove e2e4"]);
    reflexivity.
Defined.

(** X2: the first line that contains No such option: or Unknown command:
    ends the handshake: [IsReady] returns that line, trimmed, as the error,
    even when a readyok follows. *)
Theorem IsReady_diagnostic (e : Engine) (pre : list string) (diag : string)
    (rest : list string) :
  Stdout e = pre ++ diag :: rest ->
  forallb is_chatter pre = true ->
  is_diagnostic diag = true ->
  Engine.IsReady e
  = (Fail (Str.TrimSpace diag), advance e ["isready" +:+ newline] rest).
Proof.
  intros Hout Hpre Hd. rewrite IsReady_eq, Hout, await_readyok_chatter by exact Hpre.
  unfold is_diagnostic in Hd. cbn [Engine.await_readyok].
  destruct (Str.Contains (Str.TrimSpace diag) "No such option:"); [reflexivity|].
  simpl in Hd. rewrite Hd. reflexivity.
Qed.

Lemma IsReady_diagnostic_witness :
  Engine.IsReady (demoEngine ["No such option: Foo"; "readyok"])
  = (Fail "No such option: Foo",
     advance (demoEngine ["No such option: Foo"; "readyok"])
             ["isready" +:+ newline] ["readyok"]).
Proof.
  apply (IsReady_diagnostic _ [] "No such option: Foo" ["readyok"]); reflexivity.
Defined.

(** X3: when the output ends without an acknowledgement or a diagnostic,
    [IsReady] returns the end-of-file error, having read everything. *)
Theorem IsReady_end_of_file (e : Engine) :
  forallb is_chatter (Stdout e) = true ->
  Engine.IsReady e = (Fail EOF, advance e ["isready" +:+ newline] []).
Proof.
  intros Hpre. rewrite IsReady_eq.
  rewrite <- (app_nil_r (Stdout e)), await_readyok_chatter by exact Hpre.
  reflexivity.
Qed.

Lemma IsReady_end_of_file_witness :
  Engine.IsReady (demoEngine ["Stockfish 12"; "uciok"])
  = (Fail EOF, advance (demoEngine ["Stockfish 12"; "uciok"]) ["isready" +:+ newline] []).
Proof. apply IsReady_end_of_file. reflexivity. Defined.

(** ** What the methods keep *)

Lemma await_readyok_ends (pre : list string) (stop : string) (rest : list string) :
  forallb is_chatter pre = true -> ends_handshake stop = true ->
  snd (Engine.await_readyok (pre ++ stop :: rest)) = rest.
Proof.
  intros Hpre Hstop. rewrite await_readyok_chatter by exact Hpre.
  unfold ends_handshake, is_diagnostic, is_readyok in Hstop.
  cbn [Engine.await_readyok].
  destruct (Str.Contains (Str.TrimSpace stop) "No such option:"); [reflexivity|].
  destruct (Str.Contains (Str.TrimSpace stop) "Unknown command:"); [reflexivity|].
  simpl in Hstop. rewrite Hstop. reflexivity.
Qed.

Lemma evolves_refl (e : Engine) : evolves e e.
Proof.
  unfold evolves. repeat split; try reflexivity.
  - exists []. rewrite app_nil_r. reflexivity.
  - exists []. reflexivity.
Qed.

Lemma evolves_trans (e1 e2 e3 : Engine) : evolves e1 e2 -> evolves e2 e3 -> evolves e1 e3.
Proof.
  intros (A1 & B1 & C1 & D1 & [w1 W1] & [r1 R1]) (A2 & B2 & C2 & D2 & [w2 W2] & [r2 R2]).
  unfold evolves. repeat split; try congruence.
  - exists (w1 ++ w2). rewrite W2, W1, app_assoc. reflexivity.
  - exists (r1 ++ r2). rewrite R1, R2, app_assoc. reflexivity.
Qed.

Lemma evolves_advance (e : Engine) (writes rest : list string) :
  (exists read, Stdout e = read ++ rest) -> evolves e (advance e writes rest).
Proof.
  intros Hr. unfold evolves, advance. cbn. repeat split; eauto.
Qed.

Lemma Put_evolves (command : string) (e : Engine) :
  evolves e (snd (Engine.Put command e)).
Proof.
  unfold Engine.Put. cbn [snd].
  apply (evolves_advance e [command +:+ newline] (Stdout e)). exists []. reflexivity.
Qed.

Lemma IsReady_evolves (e : Engine) : evolves e (snd (Engine.IsReady e)).
Proof.
  rewrite IsReady_eq. cbn [snd]. apply evolves_advance.
  apply await_readyok_suffix.
Qed.

Lemma handshake_evolves (command : string) (e : Engine) :
  evolves e (snd ((do Engine.Put command then Engine.IsReady) e)).
Proof.
  unfold bind. cbn [Engine.Put].
  pose proof (IsReady_evolves (set_Stdin (Stdin e ++ [command +:+ newline]) e)) as H2.
  destruct (Engine.IsReady _) as [r e2]. cbn [snd] in *.
  eapply evolves_trans; [apply (Put_evolves command e)|exact H2].
Qed.

(** X4: every method of the engine leaves the executable, the depth, the
    ponder flag and the options as they were; it only appends to what has been
    written to the process and only reads on in its output. *)
Theorem methods_keep_configuration (e : Engine) :
  (forall command, evolves e (snd (Engine.Put command e))) /\
  evolves e (snd (Engine.IsReady e)) /\
  (forall name value, evolves e (snd (Engine.SetOption name value e))) /\
  evolves e (snd (Engine.NewGame e)) /\
  (forall moves, evolves e (snd (Engine.SetPosition moves e))) /\
  (forall fen, evolves e (snd (Engine.SetFENPosition fen e))) /\
  evolves e (snd (Engine.Go e)) /\
  evolves e (snd (Engine.BestMove e)).
Proof.
  split; [intros; apply Put_evolves|].
  split; [apply IsReady_evolves|].
  split; [intros; apply handshake_evolves|].
  split; [apply handshake_evolves|].
  split; [intros; apply handshake_evolves|].
  split; [intros; apply handshake_evolves|].
  split; [apply handshake_evolves|].
  rewrite BestMove_eq. cbn [snd].
  apply (evolves_advance e (goCommands e)).
  destruct (await_readyok_suffix (Stdout e)) as [r1 H1].
  destruct (await_bestmove_suffix (snd (Engine.await_readyok (Stdout e))) None) as [r2 H2].
  exists (r1 ++ r2). rewrite H1 at 1. rewrite H2 at 1. rewrite app_assoc. reflexivity.
Qed.

(** ** The search loop of BestMove *)

Lemma index_Split_0 (text : string) :
  index (Str.Split (Str.TrimSpace text)) 0 = Ret (firstToken text).
Proof.
  unfold firstToken, index. pose proof (Split_nonempty (Str.TrimSpace text)) as Hne.
  destruct (Str.Split (Str.TrimSpace text)); [congruence|reflexivity].
Qed.

Lemma info_not_bestmove (text : string) :
  is_info_line text = true -> is_bestmove_line text = false.
Proof.
  unfold is_info_line, is_bestmove_line. intros H.
  apply String.eqb_eq in H. rewrite H. reflexivity.
Qed.

(** One step of the loop on an info line that parses. *)
Lemma await_bestmove_info_line (text : string) (lines : list string)
    (last : option Info) (i : Info) :
  is_info_line text = true -> ParseInfo (Str.TrimSpace text) = Ret i ->
  Engine.await_bestmove (text :: lines) last = Engine.await_bestmove lines (Some i).
Proof.
  intros Hinfo Hparse. pose proof (info_not_bestmove text Hinfo) as Hbm.
  unfold is_info_line in Hinfo. unfold is_bestmove_line in Hbm.
  cbn [Engine.await_bestmove]. rewrite index_Split_0, Hinfo, Hparse, Hbm. reflexivity.
Qed.

(** One step of the loop on a line that is neither info nor bestmove. *)
Lemma await_bestmove_ignored_line (text : string) (lines : list string)
    (last : option Info) :
  is_ignored text = true ->
  Engine.await_bestmove (text :: lines) last = Engine.await_bestmove lines last.
Proof.
  unfold is_ignored, is_info_line, is_bestmove_line. intros H.
  apply andb_true_iff in H. destruct H as [Hbm Hinfo].
  apply negb_true_iff in Hbm. apply negb_true_iff in Hinfo.
  cbn [Engine.await_bestmove]. rewrite index_Split_0, Hinfo, Hbm. reflexivity.
Qed.

Lemma await_bestmove_ignored (pre lines : list string) (last : option Info) :
  forallb is_ignored pre = true ->
  Engine.await_bestmove (pre ++ lines) last = Engine.await_bestmove lines last.
Proof.
  induction pre as [|text pre IH]; intros H; [reflexivity|].
  cbn [forallb] in H. apply andb_true_iff in H. destruct H as [Ht Hpre].
  cbn [app]. rewrite await_bestmove_ignored_line by exact Ht. exact (IH Hpre).
Qed.

(** Lines that are passed leave the loop running, with some info retained. *)
Lemma await_bestmove_passed (pre lines : list string) (last : option Info) :
  forallb is_passed pre = true ->
  exists last', Engine.await_bestmove (pre ++ lines) last
                = Engine.await_bestmove lines last'.
Proof.
  revert last. induction pre as [|text pre IH]; intros last H; [exists last; reflexivity|].
  cbn [forallb] in H. apply andb_true_iff in H. destruct H as [Ht Hpre].
  unfold is_passed in Ht. apply andb_true_iff in Ht. destruct Ht as [Hbm Hi].
  destruct (is_info_line text) eqn:Hinfo.
  - destruct (ParseInfo (Str.TrimSpace text)) as [i|err|p] eqn:Hp; try discriminate.
    cbn [app]. rewrite (await_bestmove_info_line text _ last i Hinfo Hp).
    apply IH, Hpre.
  - cbn [app]. rewrite await_bestmove_ignored_line; [apply IH, Hpre|].
    unfold is_ignored. rewrite Hbm, Hinfo. reflexivity.
Qed.

(** The step on the bestmove line. *)
Lemma await_bestmove_bestmove_line (text : string) (rest : list string)
    (last : option Info) :
  is_bestmove_line text = true ->
  Engine.await_bestmove (text :: rest) last
  = (match ParseBestMove (Str.TrimSpace text) with
     | Ret b => Ret (mkBestMove (Move b) (Ponder b) last)
     | Fail err => Fail err
     | Panic p => Panic p
     end, rest).
Proof.
  intros Hbm. unfold is_bestmove_line in Hbm.
  assert (Hinfo : String.eqb (firstToken text) "info" = false).
  { apply String.eqb_eq in Hbm. rewrite Hbm. reflexivity. }
  cbn [Engine.await_bestmove]. rewrite index_Split_0, Hinfo, Hbm.
  destruct (ParseBestMove (Str.TrimSpace text)); reflexivity.
Qed.

Lemma BestMove_after_handshake (e : Engine) (pre : list string) (stop : string)
    (lines : list string) :
  Stdout e = pre ++ stop :: lines ->
  forallb is_chatter pre = true -> ends_handshake stop = true ->
  Engine.BestMove e
  = (fst (Engine.await_bestmove lines None),
     advance e (goCommands e) (snd (Engine.await_bestmove lines None))).
Proof.
  intros Hout Hpre Hstop. rewrite BestMove_eq, Hout.
  rewrite (await_readyok_ends pre stop lines Hpre Hstop). reflexivity.
Qed.

(** X5: [BestMove] writes the go command and the probe, drops the lines up
    to the end of that handshake, whether it succeeded or not, and then
    reads on to the bestmove line; the result carries the last info line
    read on the way, and the outcome of [ParseBestMove] on the bestmove line
    decides between a result and a panic. *)
Theorem BestMove_retains_last_info (e : Engine) (pre : list string) (stop : string)
    (before : list string) (text : string) (after : list string) (bm : string)
    (rest : list string) (i : Info) :
  Stdout e = pre ++ stop :: before ++ text :: after ++ bm :: rest ->
  forallb is_chatter pre = true -> ends_handshake stop = true ->
  forallb is_passed before = true ->
  is_info_line text = true -> ParseInfo (Str.TrimSpace text) = Ret i ->
  forallb is_ignored after = true ->
  is_bestmove_line bm = true ->
  Engine.BestMove e
  = (match ParseBestMove (Str.TrimSpace bm) with
     | Ret b => Ret (mkBestMove (Move b) (Ponder b) (Some i))
     | Fail err => Fail err
     | Panic p => Panic p
     end, advance e (goCommands e) rest).
Proof.
  intros Hout Hpre Hstop Hbefore Hinfo Hparse Hafter Hbm.
  rewrite (BestMove_after_handshake e pre stop _ Hout Hpre Hstop).
  destruct (await_bestmove_passed before (text :: after ++ bm :: rest) None Hbefore)
    as [last' ->].
  rewrite (await_bestmove_info_line text _ last' i Hinfo Hparse).
  rewrite await_bestmove_ignored by exact Hafter.
  rewrite await_bestmove_bestmove_line by exact Hbm. reflexivity.
Qed.

Lemma BestMove_retains_last_info_witness :
  Engine.BestMove (demoEngine searchOutput)
  = (Ret (mkBestMove "g7g6" "h3g3"
            (Some (mkInfo 2 3 1 (mkScore "cp" (-656)) 43 43000 0 1 "g7g6 h3g3 g6f7"))),
     advance (demoEngine searchOutput)
             ["go depth 2" +:+ newline; "isready" +:+ newline] ["left"]).
Proof.
  etransitivity.
  - apply (BestMove_retains_last_info (demoEngine searchOutput) [] "readyok"
             [firstInfoLine] sourceLine [""] "bestmove g7g6 ponder h3g3" ["left"]
             (mkInfo 2 3 1 (mkScore "cp" (-656)) 43 43000 0 1 "g7g6 h3g3 g6f7"));
      vm_compute; reflexivity.
  - vm_compute. reflexivity.
Defined.

(** X6: info lines that arrive before the end of the handshake of [Go] are
    dropped with it: when no info line follows, the best move is returned
    without an evaluation. *)
Theorem BestMove_info_before_readyok_lost (e : Engine) (pre : list string)
    (stop : string) (after : list string) (bm : string) (rest : list string)
    (b : BestMove) :
  Stdout e = pre ++ stop :: after ++ bm :: rest ->
  forallb is_chatter pre = true -> ends_handshake stop = true ->
  forallb is_ignored after = true ->
  is_bestmove_line bm = true ->
  ParseBestMove (Str.TrimSpace bm) = Ret b ->
  Engine.BestMove e
  = (Ret (mkBestMove (Move b) (Ponder b) None), advance e (goCommands e) rest).
Proof.
  intros Hout Hpre Hstop Hafter Hbm Hb.
  rewrite (BestMove_after_handshake e pre stop _ Hout Hpre Hstop).
  rewrite await_bestmove_ignored by exact Hafter.
  rewrite await_bestmove_bestmove_line by exact Hbm. rewrite Hb. reflexivity.
Qed.

Lemma BestMove_info_before_readyok_lost_witness :
  Engine.BestMove (demoEngine earlyInfoOutput)
  = (Ret (mkBestMove "h3g3" "g6f7" None),
     advance (demoEngine earlyInfoOutput)
             ["go depth 2" +:+ newline; "isready" +:+ newline] []).
Proof.
  etransitivity.
  - apply (BestMove_info_before_readyok_lost (demoEngine earlyInfoOutput)
             [mateInfoLine] "readyok" [] "bestmove h3g3 ponder g6f7" []
             (mkBestMove "h3g3" "g6f7" None));
      vm_compute; reflexivity.
  - vm_compute. reflexivity.
Defined.

(** X7: an info line that does not parse ends [BestMove] with the error of
    [ParseInfo], although a bestmove line may follow. *)
Theorem BestMove_unparsed_info_aborts (e : Engine) (pre : list string)
    (stop : string) (before : list string) (text : string) (rest : list string)
    (err : string) :
  Stdout e = pre ++ stop :: before ++ text :: rest ->
  forallb is_chatter pre = true -> ends_handshake stop = true ->
  forallb is_passed before = true ->
  is_info_line text = true -> ParseInfo (Str.TrimSpace text) = Fail err ->
  Engine.BestMove e = (Fail err, advance e (goCommands e) rest).
Proof.
  intros Hout Hpre Hstop Hbefore Hinfo Hparse.
  rewrite (BestMove_after_handshake e pre stop _ Hout Hpre Hstop).
  destruct (await_bestmove_passed before (text :: rest) None Hbefore) as [last' ->].
  unfold is_info_line in Hinfo.
  cbn [Engine.await_bestmove]. rewrite index_Split_0, Hinfo, Hparse. reflexivity.
Qed.

Lemma BestMove_unparsed_info_aborts_witness :
  Engine.BestMove (demoEngine currmoveOutput)
  = (Fail "Could not parse pv: info depth 20 currmove e2e4 currmovenumber 1",
     advance (demoEngine currmoveOutput)
             ["go depth 2" +:+ newline; "isready" +:+ newline]
             ["bestmove e2e4 ponder e7e5"]).
Proof.
  etransitivity.
  - apply (BestMove_unparsed_info_aborts (demoEngine currmoveOutput) [] "readyok" []
             "info depth 20 currmove e2e4 currmovenumber 1"
             ["bestmove e2e4 ponder e7e5"]
             "Could not parse pv: info depth 20 currmove e2e4 currmovenumber 1");
      vm_compute; reflexivity.
  - vm_compute. reflexivity.
Defined.

(** X8: when the output ends before a bestmove line, [BestMove] returns
    the end-of-file error: after a handshake followed only by lines the loop
    passes, and also when the handshake itself never ends. *)
Theorem BestMove_end_of_file :
  (forall (e : Engine) (pre : list string) (stop : string) (lines : list string),
     Stdout e = pre ++ stop :: lines ->
     forallb is_chatter pre = true -> ends_handshake stop = true ->
     forallb is_passed lines = true ->
     Engine.BestMove e = (Fail EOF, advance e (goCommands e) [])) /\
  (forall (e : Engine),
     forallb is_chatter (Stdout e) = true ->
     Engine.BestMove e = (Fail EOF, advance e (goCommands e) [])).
Proof.
  split.
  - intros e pre stop lines Hout Hpre Hstop Hlines.
    rewrite (BestMove_after_handshake e pre stop _ Hout Hpre Hstop).
    destruct (await_bestmove_passed lines [] None Hlines) as [last' Hl].
    rewrite app_nil_r in Hl. rewrite Hl. reflexivity.
  - intros e Hpre. rewrite BestMove_eq.
    replace (Engine.await_readyok (Stdout e)) with (Fail EOF : result unit, @nil string).
    + reflexivity.
    + rewrite <- (app_nil_r (Stdout e)), await_readyok_chatter by exact Hpre. reflexivity.
Qed.

Lemma BestMove_end_of_file_witness :
  Engine.BestMove (demoEngine ["readyok"; "Stockfish 12"])
  = (Fail EOF,
     advance (demoEngine ["readyok"; "Stockfish 12"])
             ["go depth 2" +:+ newline; "isready" +:+ newline] []).
Proof.
  destruct BestMove_end_of_file as [H _].
  etransitivity.
  - apply (H (demoEngine ["readyok"; "Stockfish 12"]) [] "readyok" ["Stockfish 12"]);
      vm_compute; reflexivity.
  - vm_compute. reflexivity.
Defined.

(* ===================================================================== *)
(** * Further properties of the match *)

(** ** One Move, from the output of the active engine *)

Lemma Move_search (m : Match) (h : heap) (e : Engine)
    (p1 : list string) (s1 : string) (p2 : list string) (s2 : string)
    (lines : list string) :
  length (Moves m) <> MaxMoves ->
  h !! active m = Some e ->
  Stdout e = p1 ++ s1 :: p2 ++ s2 :: lines ->
  forallb is_chatter p1 = true -> ends_handshake s1 = true ->
  forallb is_chatter p2 = true -> ends_handshake s2 = true ->
  Match.Move m h
  = (afterBestMove m (fst (Engine.await_bestmove lines None)),
     <[active m := advance e (moveCommands m e)
                     (snd (Engine.await_bestmove lines None))]> h).
Proof.
  intros Hlen He Hout Hp1 Hs1 Hp2 Hs2.
  rewrite (Move_below_ceiling m h e Hlen He).
  rewrite SetPosition_eq. cbn [snd]. rewrite BestMove_eq.
  cbn [fst snd Stdin Stdout EngineDepth Executable EnginePonder Param].
  rewrite Hout, (await_readyok_ends p1 s1 _ Hp1 Hs1).
  rewrite (await_readyok_ends p2 s2 _ Hp2 Hs2).
  unfold advance, moveCommands. rewrite <- app_assoc. reflexivity.
Qed.

(** X9: below the ceiling, when the last evaluation the active engine
    reports is not a mate score, [Move] appends the engine's move to the
    history, leaves the winner as it was, and continues exactly when the
    ponder token is not the (none) marker.  The two handshakes may end in
    readyok or in a diagnostic: their errors are dropped. *)
Theorem Move_without_mate_score (m : Match) (h : heap) (e : Engine)
    (p1 : list string) (s1 : string) (p2 : list string) (s2 : string)
    (before : list string) (text : string) (after : list string) (bm : string)
    (rest : list string) (i : Info) (b : BestMove) :
  length (Moves m) <> MaxMoves ->
  h !! active m = Some e ->
  Stdout e = p1 ++ s1 :: p2 ++ s2 :: before ++ text :: after ++ bm :: rest ->
  forallb is_chatter p1 = true -> ends_handshake s1 = true ->
  forallb is_chatter p2 = true -> ends_handshake s2 = true ->
  forallb is_passed before = true ->
  is_info_line text = true -> ParseInfo (Str.TrimSpace text) = Ret i ->
  forallb is_ignored after = true ->
  is_bestmove_line bm = true -> ParseBestMove (Str.TrimSpace bm) = Ret b ->
  Eval (InfoScore i) <> "mate" ->
  Match.Move m h
  = (Ret (negb (String.eqb (Ponder b) "(none)")),
     set_Moves (Moves m ++ [Move b]) m,
     <[active m := advance e (moveCommands m e) rest]> h).
Proof.
  intros Hlen He Hout Hp1 Hs1 Hp2 Hs2 Hbefore Hinfo Hparse Hafter Hbm Hb Hmate.
  rewrite (Move_search m h e p1 s1 p2 s2 _ Hlen He Hout Hp1 Hs1 Hp2 Hs2).
  destruct (await_bestmove_passed before (text :: after ++ bm :: rest) None Hbefore)
    as [last' ->].
  rewrite (await_bestmove_info_line text _ last' i Hinfo Hparse).
  rewrite await_bestmove_ignored by exact Hafter.
  rewrite await_bestmove_bestmove_line by exact Hbm. rewrite Hb.
  cbn [fst snd afterBestMove BestInfo Move Ponder].
  destruct (String.eqb_spec (Eval (InfoScore i)) "mate") as [Heq|_]; [contradiction|].
  destruct (String.eqb (Ponder b) "(none)"); reflexivity.
Qed.

Lemma Move_without_mate_score_witness :
  Match.Move (demoMatch []) (demoHeap noReplyLines [])
  = (Ret false, demoMatch ["e2e4"],
     <[1%N := advance (demoEngine noReplyLines)
                ["position startpos moves " +:+ newline; "isready" +:+ newline;
                 "go depth 2" +:+ newline; "isready" +:+ newline] []]>
       (demoHeap noReplyLines [])).
Proof.
  etransitivity.
  - apply (Move_without_mate_score (demoMatch []) (demoHeap noReplyLines [])
             (demoEngine noReplyLines) [] "readyok" [] "readyok" []
             firstInfoLine [] "bestmove e2e4 ponder (none)" []
             (mkInfo 1 1 1 (mkScore "cp" 30) 20 20000 0 1 "e2e4")
             (mkBestMove "e2e4" "(none)" None));
      try (vm_compute; reflexivity); vm_compute; discriminate.
  - reflexivity.
Defined.

(** X10: when the active engine announces its best move and no info line
    has been read for it, [Move] appends the move and then panics on the nil
    evaluation. *)
Theorem Move_without_evaluation_panics (m : Match) (h : heap) (e : Engine)
    (p1 : list string) (s1 : string) (p2 : list string) (s2 : string)
    (after : list string) (bm : string) (rest : list string) (b : BestMove) :
  length (Moves m) <> MaxMoves ->
  h !! active m = Some e ->
  Stdout e = p1 ++ s1 :: p2 ++ s2 :: after ++ bm :: rest ->
  forallb is_chatter p1 = true -> ends_handshake s1 = true ->
  forallb is_chatter p2 = true -> ends_handshake s2 = true ->
  forallb is_ignored after = true ->
  is_bestmove_line bm = true -> ParseBestMove (Str.TrimSpace bm) = Ret b ->
  Match.Move m h
  = (Panic nil_dereference,
     set_Moves (Moves m ++ [Move b]) m,
     <[active m := advance e (moveCommands m e) rest]> h).
Proof.
  intros Hlen He Hout Hp1 Hs1 Hp2 Hs2 Hafter Hbm Hb.
  rewrite (Move_search m h e p1 s1 p2 s2 _ Hlen He Hout Hp1 Hs1 Hp2 Hs2).
  rewrite await_bestmove_ignored by exact Hafter.
  rewrite await_bestmove_bestmove_line by exact Hbm. rewrite Hb. reflexivity.
Qed.

Lemma Move_without_evaluation_panics_witness :
  Match.Move (demoMatch []) (demoHeap bareLines [])
  = (Panic nil_dereference, demoMatch ["e2e4"],
     <[1%N := advance (demoEngine bareLines)
                ["position startpos moves " +:+ newline; "isready" +:+ newline;
                 "go depth 2" +:+ newline; "isready" +:+ newline] []]>
       (demoHeap bareLines [])).
Proof.
  etransitivity.
  - apply (Move_without_evaluation_panics (demoMatch []) (demoHeap bareLines [])
             (demoEngine bareLines) [] "readyok" [] "readyok" []
             "bestmove e2e4 ponder e7e5" [] (mkBestMove "e2e4" "e7e5" None));
      try (vm_compute; reflexivity); vm_compute; discriminate.
  - reflexivity.
Defined.

(** X11: when the search of the active engine ends in an error, [Move]
    returns that error and leaves history and winner as they were. *)
Theorem Move_search_error (m : Match) (h : heap) (e : Engine)
    (p1 : list string) (s1 : string) (p2 : list string) (s2 : string)
    (lines rest : list string) (err : string) :
  length (Moves m) <> MaxMoves ->
  h !! active m = Some e ->
  Stdout e = p1 ++ s1 :: p2 ++ s2 :: lines ->
  forallb is_chatter p1 = true -> ends_handshake s1 = true ->
  forallb is_chatter p2 = true -> ends_handshake s2 = true ->
  Engine.await_bestmove lines None = (Fail err, rest) ->
  Match.Move m h
  = (Fail err, m, <[active m := advance e (moveCommands m e) rest]> h).
Proof.
  intros Hlen He Hout Hp1 Hs1 Hp2 Hs2 Hfail.
  rewrite (Move_search m h e p1 s1 p2 s2 _ Hlen He Hout Hp1 Hs1 Hp2 Hs2).
  rewrite Hfail. reflexivity.
Qed.

Lemma Move_search_error_witness :
  Match.Move (demoMatch ["e2e4"]) (demoHeap [] ["readyok"; "readyok"; "Stockfish 12"])
  = (Fail EOF, demoMatch ["e2e4"],
     <[2%N := advance (demoEngine [])
                ["position startpos moves e2e4" +:+ newline; "isready" +:+ newline;
                 "go depth 2" +:+ newline; "isready" +:+ newline] []]>
       (demoHeap [] ["readyok"; "readyok"; "Stockfish 12"])).
Proof.
  etransitivity.
  - apply (Move_search_error (demoMatch ["e2e4"])
             (demoHeap [] ["readyok"; "readyok"; "Stockfish 12"])
             (demoEngine ["readyok"; "readyok"; "Stockfish 12"])
             [] "readyok" [] "readyok" ["Stockfish 12"] [] EOF);
      try (vm_compute; reflexivity); vm_compute; discriminate.
  - reflexivity.
Defined.

(** ** Run *)

Lemma activeName_cases (m : Match) :
  (activeName m = White m /\ inactiveName m = Black m) \/
  (activeName m = Black m /\ inactiveName m = White m).
Proof.
  unfold activeName, inactiveName, Match.sides.
  destruct (negb (Nat.eqb (length (Moves m) mod 2) 0)); simpl; auto.
Qed.

(** What one [Move] can do to the match. *)
Lemma Move_match (m : Match) (h : heap) (r : result bool) (m' : Match) (h' : heap) :
  Match.Move m h = (r, m', h') ->
  same_sides m m' /\
  (Moves m' = Moves m \/
   (length (Moves m) <> MaxMoves /\ exists mv, Moves m' = Moves m ++ [mv])) /\
  (Winner m' = Winner m \/ Winner m' = White m \/ Winner m' = Black m) /\
  (r = Ret true -> Winner m' = Winner m).
Proof.
  intros HM. unfold same_sides.
  destruct (Nat.eq_dec (length (Moves m)) MaxMoves) as [Hlen|Hlen].
  { rewrite (Move_at_ceiling m h Hlen) in HM. injection HM as _ <- _. tauto. }
  destruct (h !! active m) as [e|] eqn:He.
  2:{ rewrite (Move_nil_engine m h Hlen He) in HM. injection HM as _ <- _. tauto. }
  rewrite (Move_below_ceiling m h e Hlen He) in HM.
  injection HM as Hafter _. unfold afterBestMove in Hafter.
  destruct (fst (Engine.BestMove _)) as [bm|err|p];
    try (injection Hafter as _ <-; tauto).
  assert (Hgrow : length (Moves m) <> MaxMoves /\
                  exists mv, Moves m ++ [Move bm] = Moves m ++ [mv]) by eauto.
  destruct (BestInfo bm) as [info|]; [|injection Hafter as _ <-; simpl; tauto].
  destruct (String.eqb (Eval (InfoScore info)) "mate").
  - injection Hafter as <- <-.
    destruct (activeName_cases m) as [[Ha Hi]|[Ha Hi]];
      destruct (Z.ltb 0 (Value (InfoScore info)));
      try destruct (Z.ltb (Value (InfoScore info)) 0);
      simpl; rewrite ?Ha, ?Hi; repeat split; auto; discriminate.
  - destruct (negb (String.eqb (Ponder bm) "(none)"));
      injection Hafter as _ <-; simpl; tauto.
Qed.

(** X12: a run never takes the history beyond the ceiling it started
    under, only appends to it, and keeps the two sides of the match. *)
Theorem Run_history_bounded (fuel : nat) (m : Match) (h : heap)
    (r : result string) (m' : Match) (h' : heap) :
  (length (Moves m) <= MaxMoves)%nat ->
  Match.Run fuel m h = Some (r, m', h') ->
  (length (Moves m') <= MaxMoves)%nat /\
  (exists played, Moves m' = Moves m ++ played) /\
  same_sides m m'.
Proof.
  revert m h. induction fuel as [|fuel IH]; intros m h Hlen HR; [discriminate|].
  cbn [Match.Run] in HR.
  destruct (Match.Move m h) as [[rm m1] h1] eqn:HM.
  destruct (Move_match m h rm m1 h1 HM) as (Hs & Hmoves & _ & _).
  assert (H1 : (length (Moves m1) <= MaxMoves)%nat /\
               (exists played, Moves m1 = Moves m ++ played)).
  { destruct Hmoves as [-> | (Hne & mv & ->)].
    - split; [exact Hlen|]. exists []. rewrite app_nil_r. reflexivity.
    - split; [rewrite length_app; simpl; lia|]. exists [mv]. reflexivity. }
  destruct H1 as [Hlen1 [pl1 Hpl1]].
  destruct rm as [move|err|p].
  - destruct move; cbn [negb] in HR.
    + destruct (IH m1 h1 Hlen1 HR) as (Hl & [pl Hpl] & Hs').
      split; [exact Hl|]. split.
      * exists (pl1 ++ pl). rewrite Hpl, Hpl1, app_assoc. reflexivity.
      * unfold same_sides in *. intuition congruence.
    + injection HR as _ <- _. split; [exact Hlen1|]. split; [eauto|exact Hs].
  - injection HR as _ <- _. split; [exact Hlen1|]. split; [eauto|exact Hs].
  - injection HR as _ <- _. split; [exact Hlen1|]. split; [eauto|exact Hs].
Qed.

Lemma Run_history_bounded_witness :
  exists r m' h',
    Match.Run 3 (demoMatch (repeat "e2e4" 499)) (demoHeap [] quietLines) = Some (r, m', h')
    /\ length (Moves m') = MaxMoves
    /\ White m' = "deep" /\ Black m' = "shallow".
Proof.
  pose (m := demoMatch (repeat "e2e4" 499)).
  pose (h := demoHeap [] quietLines).
  destruct (Match.Run 3 m h) as [[[r m'] h']|] eqn:HR; [|vm_compute in HR; discriminate].
  assert (Hlen : (length (Moves m) <= MaxMoves)%nat) by (vm_compute; lia).
  destruct (Run_history_bounded 3 m h r m' h' Hlen HR) as (_ & _ & HW & _ & HB & _).
  exists r, m', h'. split; [exact HR|]. split.
  - vm_compute in HR. injection HR as _ <- _. reflexivity.
  - split; [exact HW|exact HB].
Defined.

(** X13: the name a run returns is the winner recorded in the match, and
    it is the winner the match started with or the name of one of its two
    sides. *)
Theorem Run_winner_is_a_side (fuel : nat) (m : Match) (h : heap)
    (w : string) (m' : Match) (h' : heap) :
  Match.Run fuel m h = Some (Ret w, m', h') ->
  w = Winner m' /\ (w = Winner m \/ w = White m \/ w = Black m).
Proof.
  revert m h. induction fuel as [|fuel IH]; intros m h HR; [discriminate|].
  cbn [Match.Run] in HR.
  destruct (Match.Move m h) as [[rm m1] h1] eqn:HM.
  destruct (Move_match m h rm m1 h1 HM) as (Hs & _ & Hw & Hkeep).
  destruct rm as [move|err|p]; try discriminate.
  destruct move; cbn [negb] in HR.
  - destruct (IH m1 h1 HR) as [Hw1 Hor]. split; [exact Hw1|].
    unfold same_sides in Hs. destruct Hs as (HW & _ & HB & _).
    rewrite (Hkeep eq_refl), HW, HB in Hor. exact Hor.
  - injection HR as <- <- _. split; [reflexivity|exact Hw].
Qed.

Lemma Run_winner_is_a_side_witness :
  exists m' h',
    Match.Run 1 (demoMatch ["e2e4"]) (demoHeap [] (mateLines "-1")) = Some (Ret "deep", m', h')
    /\ Winner m' = "deep".
Proof.
  pose (m := demoMatch ["e2e4"]).
  pose (h := demoHeap [] (mateLines "-1")).
  destruct (Match.Run 1 m h) as [[[[w|err|p] m'] h']|] eqn:HR;
    try (vm_compute in HR; discriminate).
  destruct (Run_winner_is_a_side 1 m h w m' h' HR) as [Hw _].
  assert (w = "deep") as -> by (vm_compute in HR; injection HR as <- _ _; reflexivity).
  exists m', h'. split; [exact HR|]. symmetry. exact Hw.
Defined.

(** A [Move] that returns [true] was made below the ceiling and has
    appended one move. *)
Lemma Move_true_appends (m : Match) (h : heap) (m' : Match) (h' : heap) :
  Match.Move m h = (Ret true, m', h') ->
  length (Moves m) <> MaxMoves /\ length (Moves m') = S (length (Moves m)).
Proof.
  intros HM.
  destruct (Nat.eq_dec (length (Moves m)) MaxMoves) as [Hlen|Hlen].
  { rewrite (Move_at_ceiling m h Hlen) in HM. discriminate. }
  split; [exact Hlen|].
  destruct (h !! active m) as [e|] eqn:He.
  2:{ rewrite (Move_nil_engine m h Hlen He) in HM. discriminate. }
  rewrite (Move_below_ceiling m h e Hlen He) in HM.
  injection HM as Hafter _. unfold afterBestMove in Hafter.
  destruct (fst (Engine.BestMove _)) as [bm|err|p]; try discriminate.
  destruct (BestInfo bm) as [info|]; [|discriminate].
  destruct (String.eqb (Eval (InfoScore info)) "mate"); [discriminate|].
  destruct (negb (String.eqb (Ponder bm) "(none)")); [|discriminate].
  injection Hafter as <-. cbn [Moves set_Moves].
  rewrite length_app. cbn [length]. lia.
Qed.

Lemma Run_within (k : nat) :
  forall (m : Match) (h : heap),
    (length (Moves m) <= MaxMoves)%nat ->
    (MaxMoves - length (Moves m) <= k)%nat ->
    exists out, Match.Run (S k) m h = Some out.
Proof.
  induction k as [|k IH]; intros m h Hle Hk.
  - assert (Hlen : length (Moves m) = MaxMoves) by lia.
    cbn [Match.Run]. rewrite (Move_at_ceiling m h Hlen). eexists. reflexivity.
  - change (Match.Run (S (S k)) m h)
      with (match Match.Move m h with
            | (Fail err, m', h') => Some (Fail err, m', h')
            | (Panic p, m', h') => Some (Panic p, m', h')
            | (Ret move, m', h') =>
                if negb move then Some (Ret (Winner m'), m', h')
                else Match.Run (S k) m' h'
            end).
    destruct (Match.Move m h) as [[[move|err|p] m1] h1] eqn:HM;
      try (eexists; reflexivity).
    destruct move; cbn [negb]; [|eexists; reflexivity].
    destruct (Move_true_appends m h m1 h1 HM) as [Hne Hgrow].
    apply IH; lia.
Qed.

(** X14: the ceiling bounds the loop of [Run].  From a history of at most
    MaxMoves moves the loop makes at most MaxMoves - len + 1 calls of
    [Move], whatever the engines print: a call that continues the loop has
    appended a move, and at the ceiling [Move] returns [false]. *)
Theorem Run_iterations_bounded (m : Match) (h : heap) :
  (length (Moves m) <= MaxMoves)%nat ->
  exists out, Match.Run (S (MaxMoves - length (Moves m))) m h = Some out.
Proof.
  intros Hle. apply Run_within; [exact Hle|lia].
Qed.

Lemma Run_iterations_bounded_witness :
  exists out,
    Match.Run 3 (demoMatch (repeat "e2e4" 498)) (demoHeap quietLines quietLines)
    = Some out.
Proof.
  apply (Run_iterations_bounded (demoMatch (repeat "e2e4" 498))
           (demoHeap quietLines quietLines)).
  vm_compute. lia.
Defined.

(** ** NewMatch *)

Lemma NewGame_eq (e : Engine) :
  Engine.NewGame e
  = (fst (Engine.await_readyok (Stdout e)),
     advance e newGameCommands (snd (Engine.await_readyok (Stdout e)))).
Proof.
  unfold Engine.NewGame, bind. cbn [Engine.Put]. rewrite IsReady_eq.
  unfold advance, newGameCommands. cbn. rewrite <- app_assoc. reflexivity.
Qed.

(** X15: when both engines acknowledge the new game, [NewMatch] gives the
    first name and engine the white side for an even coin and the black side
    for an odd one, starts with an empty history and no winner, and has
    written ucinewgame and the probe to each engine, the first one first. *)
Theorem NewMatch_ready (coin : Z) (e1 : string) (engine1 : N) (e2 : string)
    (engine2 : N) (h : heap) (a b : Engine)
    (p1 : list string) (k1 : string) (r1 p2 : list string) (k2 : string)
    (r2 : list string) :
  engine1 <> engine2 ->
  h !! engine1 = Some a -> h !! engine2 = Some b ->
  Stdout a = p1 ++ k1 :: r1 -> forallb is_chatter p1 = true -> is_readyok k1 = true ->
  Stdout b = p2 ++ k2 :: r2 -> forallb is_chatter p2 = true -> is_readyok k2 = true ->
  NewMatch coin e1 engine1 e2 engine2 h
  = (Ret (if Z.eqb (coin mod 2) 0
          then mkMatch e1 engine1 e2 engine2 [] "" 0%N
          else mkMatch e2 engine2 e1 engine1 [] "" 0%N),
     <[engine2 := advance b newGameCommands r2]>
       (<[engine1 := advance a newGameCommands r1]> h)).
Proof.
  intros Hne Ha Hb Ho1 Hp1 Hk1 Ho2 Hp2 Hk2.
  assert (Hready : forall pre k rest, forallb is_chatter pre = true -> is_readyok k = true ->
            Engine.await_readyok (pre ++ k :: rest) = (Ret tt, rest)).
  { intros pre k rest Hpre Hk. rewrite await_readyok_chatter by exact Hpre.
    unfold is_readyok in Hk. cbn [Engine.await_readyok].
    rewrite Hk. apply String.eqb_eq in Hk. rewrite Hk. reflexivity. }
  unfold NewMatch, bind.
  rewrite (call_some engine1 _ h a Ha), NewGame_eq, Ho1, (Hready p1 k1 r1 Hp1 Hk1).
  cbn [fst snd].
  erewrite (call_some engine2 _ _ b) by (rewrite lookup_insert_ne by exact Hne; exact Hb).
  rewrite NewGame_eq, Ho2, (Hready p2 k2 r2 Hp2 Hk2). cbn [fst snd].
  unfold ret. destruct (Z.eqb (coin mod 2) 0); reflexivity.
Qed.

Lemma NewMatch_ready_witness :
  NewMatch 7 "deep" 1%N "shallow" 2%N (demoHeap ["readyok"] ["uciok"; "readyok"])
  = (Ret (mkMatch "shallow" 2%N "deep" 1%N [] "" 0%N),
     <[2%N := advance (demoEngine []) newGameCommands []]>
       (<[1%N := advance (demoEngine []) newGameCommands []]>
          (demoHeap ["readyok"] ["uciok"; "readyok"]))).
Proof.
  etransitivity.
  - apply (NewMatch_ready 7 "deep" 1%N "shallow" 2%N
             (demoHeap ["readyok"] ["uciok"; "readyok"])
             (demoEngine ["readyok"]) (demoEngine ["uciok"; "readyok"])
             [] "readyok" [] ["uciok"] "readyok" []);
      try (vm_compute; reflexivity); discriminate.
  - reflexivity.
Defined.

(** X16: when the handshake of the first engine fails, [NewMatch] returns
    that error and the second engine is not contacted. *)
Theorem NewMatch_first_engine_fails (coin : Z) (e1 : string) (engine1 : N)
    (e2 : string) (engine2 : N) (h : heap) (a : Engine)
    (err : string) (rest : list string) :
  h !! engine1 = Some a ->
  Engine.await_readyok (Stdout a) = (Fail err, rest) ->
  NewMatch coin e1 engine1 e2 engine2 h
  = (Fail err, <[engine1 := advance a newGameCommands rest]> h).
Proof.
  intros Ha Hfail. unfold NewMatch, bind.
  rewrite (call_some engine1 _ h a Ha), NewGame_eq, Hfail. reflexivity.
Qed.

Lemma NewMatch_first_engine_fails_witness :
  NewMatch 0 "deep" 1%N "shallow" 2%N (demoHeap ["Unknown command: ucinewgame"] ["readyok"])
  = (Fail "Unknown command: ucinewgame",
     <[1%N := advance (demoEngine []) newGameCommands []]>
       (demoHeap ["Unknown command: ucinewgame"] ["readyok"])).
Proof.
  etransitivity.
  - apply (NewMatch_first_engine_fails 0 "deep" 1%N "shallow" 2%N
             (demoHeap ["Unknown command: ucinewgame"] ["readyok"])
             (demoEngine ["Unknown command: ucinewgame"])
             "Unknown command: ucinewgame" []); vm_compute; reflexivity.
  - reflexivity.
Defined.

(* ===================================================================== *)
(** * Further properties of the constructor *)

Lemma await_readyok_acknowledged (pre : list string) (ok : string)
    (rest : list string) :
  forallb is_chatter pre = true -> is_readyok ok = true ->
  Engine.await_readyok (pre ++ ok :: rest) = (Ret tt, rest).
Proof.
  intros Hpre Hok. rewrite await_readyok_chatter by exact Hpre.
  unfold is_readyok in Hok. cbn [Engine.await_readyok].
  rewrite Hok. apply String.eqb_eq in Hok. rewrite Hok. reflexivity.
Qed.

Lemma await_readyok_rejected (pre : list string) (diag : string)
    (rest : list string) :
  forallb is_chatter pre = true -> is_diagnostic diag = true ->
  Engine.await_readyok (pre ++ diag :: rest) = (Fail (Str.TrimSpace diag), rest).
Proof.
  intros Hpre Hd. rewrite await_readyok_chatter by exact Hpre.
  unfold is_diagnostic in Hd. cbn [Engine.await_readyok].
  destruct (Str.Contains (Str.TrimSpace diag) "No such option:"); [reflexivity|].
  simpl in Hd. rewrite Hd. reflexivity.
Qed.

Lemma SetOption_eq (name value : string) (e : Engine) :
  Engine.SetOption name value e
  = (fst (Engine.await_readyok (Stdout e)),
     advance e (optionCommands name value) (snd (Engine.await_readyok (Stdout e)))).
Proof.
  unfold Engine.SetOption, bind. cbn [Engine.Put]. rewrite IsReady_eq.
  unfold advance, optionCommands. cbn. rewrite <- app_assoc. reflexivity.
Qed.

Lemma advance_advance (e : Engine) (w1 r1 w2 r2 : list string) :
  advance (advance e w1 r1) w2 r2 = advance e (w1 ++ w2) r2.
Proof. unfold advance. cbn. rewrite <- app_assoc. reflexivity. Qed.

Lemma advance_nil (e : Engine) : advance e [] (Stdout e) = e.
Proof. unfold advance. rewrite app_nil_r. destruct e; reflexivity. Qed.

Lemma setOptions_acknowledged (entries : list (string * string)) :
  forall (blocks : list (list string * string)) (e : Engine) (rest : list string),
    forallb acknowledges blocks = true ->
    length blocks = length entries ->
    Stdout e = blockLines blocks ++ rest ->
    setOptions entries e = (Ret tt, advance e (optionsCommands entries) rest).
Proof.
  induction entries as [|[name value] entries IH]; intros blocks e rest Hack Hlen Hout.
  - destruct blocks; [|discriminate]. cbn in Hout. subst rest.
    cbn. rewrite advance_nil. reflexivity.
  - destruct blocks as [|[pre ok] blocks]; [discriminate|].
    cbn [forallb] in Hack. apply andb_true_iff in Hack. destruct Hack as [Hb Hack].
    unfold acknowledges in Hb. cbn [fst snd] in Hb.
    apply andb_true_iff in Hb. destruct Hb as [Hpre Hok].
    cbn [setOptions]. unfold bind. rewrite SetOption_eq, Hout.
    cbn [blockLines flat_map fst snd]. fold (blockLines blocks).
    rewrite <- !app_assoc. cbn [app].
    rewrite (await_readyok_acknowledged pre ok _ Hpre Hok). cbn [fst snd].
    rewrite (IH blocks _ rest Hack); [|cbn in Hlen; lia|reflexivity].
    rewrite advance_advance. reflexivity.
Qed.

Lemma setOptions_rejected (entries : list (string * string)) :
  forall (blocks : list (list string * string)) (e : Engine)
         (pre : list string) (diag : string) (rest : list string),
    forallb acknowledges blocks = true ->
    (length blocks < length entries)%nat ->
    Stdout e = blockLines blocks ++ pre ++ diag :: rest ->
    forallb is_chatter pre = true -> is_diagnostic diag = true ->
    fst (setOptions entries e) = Fail (Str.TrimSpace diag).
Proof.
  induction entries as [|[name value] entries IH];
    intros blocks e pre diag rest Hack Hlen Hout Hpre Hd.
  - cbn in Hlen. lia.
  - cbn [setOptions]. unfold bind. rewrite SetOption_eq, Hout.
    destruct blocks as [|[pre0 ok] blocks].
    + cbn [blockLines flat_map app].
      rewrite (await_readyok_rejected pre diag rest Hpre Hd). reflexivity.
    + cbn [forallb] in Hack. apply andb_true_iff in Hack. destruct Hack as [Hb Hack].
      unfold acknowledges in Hb. cbn [fst snd] in Hb.
      apply andb_true_iff in Hb. destruct Hb as [Hpre0 Hok].
      cbn [blockLines flat_map fst snd]. fold (blockLines blocks).
      rewrite <- !app_assoc. cbn [app].
      rewrite (await_readyok_acknowledged pre0 ok _ Hpre0 Hok). cbn [fst snd].
      apply (IH blocks _ pre diag rest Hack); [cbn in Hlen; lia|reflexivity|exact Hpre|exact Hd].
Qed.

(** The engine record when the constructor reaches the random statement,
    from what the process has printed. *)
Lemma configure_start (env : Launch) (ponder : bool) (param : gmap string string)
    (random : bool) (randMin randMax : Z) (e : Engine)
    (pre : list string) (stop : string) (lines : list string) :
  Stdout e = ponderLines ponder pre stop ++ lines ->
  (ponder = false -> forallb is_chatter pre = true /\ ends_handshake stop = true) ->
  configure env ponder param random randMin randMax e
  = match randomContempt random randMin randMax (Draw env) baseParam with
    | Panic p => (Panic p, advance e (constructorCommands ponder []) lines)
    | Fail err => (Fail err, advance e (constructorCommands ponder []) lines)
    | Ret bp =>
        setOptions (RangeOrder env (map_to_list (applyOverrides param bp)))
          (set_Param (applyOverrides param bp)
             (advance e (constructorCommands ponder []) lines))
    end.
Proof.
  intros Hout Hp. unfold configure, bind. cbn [Engine.Put].
  destruct ponder; cbn [negb ret ponderLines app] in *.
  - unfold constructorCommands, advance, set_Stdin. cbn. rewrite Hout. reflexivity.
  - destruct (Hp eq_refl) as [Hpre Hstop].
    unfold drop_error. rewrite SetOption_eq.
    cbn [Stdout set_Stdin]. rewrite Hout, <- app_assoc. cbn [app].
    rewrite (await_readyok_ends pre stop lines Hpre Hstop).
    pose proof (await_readyok_no_panic (pre ++ stop :: lines)) as Hnp.
    assert (Heq : advance (set_Stdin (Stdin e ++ ["uci" +:+ newline]) e)
                    (optionCommands "Ponder" "false") lines
                  = advance e (constructorCommands false []) lines).
    { unfold advance, constructorCommands, set_Stdin. cbn.
      rewrite <- app_assoc. reflexivity. }
    destruct (fst (Engine.await_readyok (pre ++ stop :: lines))) as [u|err|p] eqn:Hr;
      cbn [fst snd]; rewrite ?Heq; try reflexivity.
    exfalso. exact (Hnp p eq_refl).
Qed.

(** X17: when both pipes are created, the random statement does not panic,
    and the process acknowledges every option it is sent, the constructor
    returns a new engine that holds the given executable, depth and ponder
    flag and the merged option map, has been written uci, the Ponder option
    unless [ponder] is set, and one setoption with its probe per entry in
    the order of the iteration, and has the remaining lines left to read.
    The handshake of the Ponder option may end in a diagnostic. *)
Theorem NewEngineWithAllOptions_acknowledged (env : Launch) (exe : string)
    (depth : Z) (ponder : bool) (param : gmap string string) (random : bool)
    (randMin randMax : Z) (h : heap) (bp : gmap string string)
    (pre : list string) (stop : string) (blocks : list (list string * string))
    (rest : list string) :
  StdinPipeErr env = None -> StdoutPipeErr env = None ->
  randomContempt random randMin randMax (Draw env) baseParam = Ret bp ->
  Output env = ponderLines ponder pre stop ++ blockLines blocks ++ rest ->
  (ponder = false -> forallb is_chatter pre = true /\ ends_handshake stop = true) ->
  forallb acknowledges blocks = true ->
  length blocks = length (RangeOrder env (map_to_list (applyOverrides param bp))) ->
  NewEngineWithAllOptions env exe depth ponder param random randMin randMax h
  = (Ret (allocate h),
     <[allocate h :=
         mkEngine exe
           (constructorCommands ponder
              (RangeOrder env (map_to_list (applyOverrides param bp))))
           rest depth ponder (applyOverrides param bp)]> h).
Proof.
  intros Hin Hout Hbp Hlines Hp Hack Hlen.
  unfold NewEngineWithAllOptions. rewrite Hin, Hout.
  rewrite (configure_start env ponder param random randMin randMax
             (mkEngine exe [] (Output env) depth ponder param) pre stop
             (blockLines blocks ++ rest) Hlines Hp), Hbp.
  erewrite (setOptions_acknowledged _ blocks _ rest Hack Hlen); [|reflexivity].
  unfold advance, constructorCommands, optionsCommands, set_Param.
  cbn [Executable Stdin Stdout EngineDepth EnginePonder Param flat_map app].
  rewrite app_nil_r. reflexivity.
Qed.

Lemma NewEngineWithAllOptions_acknowledged_witness :
  NewEngineWithAllOptions (demoLaunch 0) "stockfish" 2 false ∅ false (-10) 10 ∅
  = (Ret 1%N,
     <[1%N := mkEngine "stockfish"
                (constructorCommands false (map_to_list baseParam))
                (repeat "readyok" 3) 2 false baseParam]> ∅).
Proof.
  etransitivity.
  - apply (NewEngineWithAllOptions_acknowledged (demoLaunch 0) "stockfish" 2 false ∅
             false (-10) 10 ∅ baseParam [] "readyok"
             (repeat ([], "readyok") 8) (repeat "readyok" 3));
      try (vm_compute; reflexivity).
    intros _. split; vm_compute; reflexivity.
  - vm_compute. reflexivity.
Defined.

(** X18: when the process answers one of the options of the loop with a
    diagnostic, after acknowledging the ones before it, the constructor
    returns that line, trimmed, as the error and no engine. *)
Theorem NewEngineWithAllOptions_option_rejected (env : Launch) (exe : string)
    (depth : Z) (ponder : bool) (param : gmap string string) (random : bool)
    (randMin randMax : Z) (h : heap) (bp : gmap string string)
    (pre : list string) (stop : string) (blocks : list (list string * string))
    (noise : list string) (diag : string) (rest : list string) :
  StdinPipeErr env = None -> StdoutPipeErr env = None ->
  randomContempt random randMin randMax (Draw env) baseParam = Ret bp ->
  Output env
  = ponderLines ponder pre stop ++ blockLines blocks ++ noise ++ diag :: rest ->
  (ponder = false -> forallb is_chatter pre = true /\ ends_handshake stop = true) ->
  forallb acknowledges blocks = true ->
  (length blocks < length (RangeOrder env (map_to_list (applyOverrides param bp))))%nat ->
  forallb is_chatter noise = true -> is_diagnostic diag = true ->
  NewEngineWithAllOptions env exe depth ponder param random randMin randMax h
  = (Fail (Str.TrimSpace diag), h).
Proof.
  intros Hin Hout Hbp Hlines Hp Hack Hlen Hnoise Hd.
  unfold NewEngineWithAllOptions. rewrite Hin, Hout.
  rewrite (configure_start env ponder param random randMin randMax
             (mkEngine exe [] (Output env) depth ponder param) pre stop
             _ Hlines Hp), Hbp.
  pose proof (setOptions_rejected _ blocks
                (set_Param (applyOverrides param bp)
                   (advance (mkEngine exe [] (Output env) depth ponder param)
                      (constructorCommands ponder [])
                      (blockLines blocks ++ noise ++ diag :: rest)))
                noise diag rest Hack Hlen eq_refl Hnoise Hd) as Hfail.
  destruct (setOptions _ _) as [r e']. cbn [fst] in Hfail. subst r. reflexivity.
Qed.

Lemma NewEngineWithAllOptions_option_rejected_witness :
  NewEngineWithAllOptions rejectingLaunch "stockfish" 2 false
    (<["Style" := "Risky"]> ∅) false (-10) 10 ∅
  = (Fail "No such option: Style", ∅).
Proof.
  etransitivity.
  - apply (NewEngineWithAllOptions_option_rejected rejectingLaunch "stockfish" 2 false
             (<["Style" := "Risky"]> ∅) false (-10) 10 ∅ baseParam
             ["Stockfish 12"; "uciok"] "readyok" [([], "readyok")]
             [] "No such option: Style" ["readyok"]);
      try (vm_compute; reflexivity).
    + intros _. split; vm_compute; reflexivity.
    + vm_compute. lia.
  - reflexivity.
Defined.

Lemma SetOption_evolves (name value : string) (e : Engine) :
  evolves e (snd (Engine.SetOption name value e)).
Proof. unfold Engine.SetOption. apply handshake_evolves. Qed.

Lemma setOptions_evolves (entries : list (string * string)) (e : Engine) :
  evolves e (snd (setOptions entries e)).
Proof.
  revert e. induction entries as [|[name value] entries IH]; intros e.
  - apply evolves_refl.
  - cbn [setOptions]. unfold bind.
    pose proof (SetOption_evolves name value e) as H1.
    destruct (Engine.SetOption name value e) as [[u|err|p] e1]; cbn [snd] in *;
      try exact H1.
    eapply evolves_trans; [exact H1|apply IH].
Qed.

(** What the constructor leaves in the engine it returns. *)
Lemma configure_success (env : Launch) (ponder : bool) (param : gmap string string)
    (random : bool) (randMin randMax : Z) (e e' : Engine) :
  configure env ponder param random randMin randMax e = (Ret tt, e') ->
  exists bp,
    randomContempt random randMin randMax (Draw env) baseParam = Ret bp /\
    Executable e' = Executable e /\ EngineDepth e' = EngineDepth e /\
    EnginePonder e' = EnginePonder e /\ Param e' = applyOverrides param bp.
Proof.
  unfold configure, bind. cbn [Engine.Put].
  set (e0 := set_Stdin _ e).
  assert (H0 : evolves e e0) by apply (Put_evolves "uci" e).
  assert (H1 : exists e1, evolves e e1 /\
            (if negb ponder then drop_error (Engine.SetOption "Ponder" "false") else ret tt) e0
            = (Ret tt, e1)).
  { destruct ponder; cbn [negb].
    - exists e0. split; [exact H0|reflexivity].
    - unfold drop_error.
      pose proof (SetOption_evolves "Ponder" "false" e0) as Hev.
      destruct (SetOption_Param "Ponder" "false" e0) as [_ Hnp].
      destruct (Engine.SetOption "Ponder" "false" e0) as [[u|err|p] e1]; cbn [fst snd] in *.
      + exists e1. split; [eapply evolves_trans; eassumption|reflexivity].
      + exists e1. split; [eapply evolves_trans; eassumption|reflexivity].
      + exfalso. exact (Hnp p eq_refl). }
  destruct H1 as (e1 & Hev1 & ->).
  destruct (randomContempt random randMin randMax (Draw env) baseParam) as [bp|err|p];
    try discriminate.
  intros Hset. exists bp. split; [reflexivity|].
  pose proof (setOptions_evolves (RangeOrder env (map_to_list (applyOverrides param bp)))
                (set_Param (applyOverrides param bp) e1)) as Hev2.
  rewrite Hset in Hev2. cbn [snd] in Hev2.
  destruct Hev1 as (Hx & Hd & Hp & _). destruct Hev2 as (Hx2 & Hd2 & Hp2 & HP2 & _).
  cbn [set_Param Executable EngineDepth EnginePonder Param] in *.
  repeat split; congruence.
Qed.

Lemma constructor_success (env : Launch) (exe : string) (depth : Z) (ponder : bool)
    (param : gmap string string) (random : bool) (randMin randMax : Z)
    (h : heap) (p : N) (h' : heap) :
  NewEngineWithAllOptions env exe depth ponder param random randMin randMax h
  = (Ret p, h') ->
  exists bp e,
    randomContempt random randMin randMax (Draw env) baseParam = Ret bp /\
    p = allocate h /\ h' = <[p := e]> h /\
    Executable e = exe /\ EngineDepth e = depth /\ EnginePonder e = ponder /\
    Param e = applyOverrides param bp.
Proof.
  unfold NewEngineWithAllOptions.
  destruct (StdinPipeErr env); [discriminate|].
  destruct (StdoutPipeErr env); [discriminate|].
  destruct (configure env ponder param random randMin randMax _) as [[[]|err|q] e'] eqn:Hc;
    try discriminate.
  intros Heq. injection Heq as <- <-.
  destruct (configure_success _ _ _ _ _ _ _ _ Hc) as (bp & Hbp & Hx & Hd & Hp & HP).
  exists bp, e'. cbn in Hx, Hd, Hp. repeat split; assumption.
Qed.

Lemma randomContempt_lookup (random : bool) (randMin randMax draw : Z)
    (bp : gmap string string) (name : string) :
  randomContempt random randMin randMax draw baseParam = Ret bp ->
  bp !! name
  = if String.eqb name "Contempt"
    then Some (contemptOf random randMin randMax draw)
    else baseParam !! name.
Proof.
  unfold randomContempt, contemptOf, Intn. destruct random.
  - destruct (Z.leb (GoInt.sub randMax randMin) 0); [discriminate|].
    intros Heq. injection Heq as <-.
    destruct (String.eqb_spec name "Contempt") as [->|Hne].
    + rewrite lookup_insert_eq. reflexivity.
    + rewrite lookup_insert_ne by congruence. reflexivity.
  - intros Heq. injection Heq as <-.
    destruct (String.eqb_spec name "Contempt") as [->|Hne]; reflexivity.
Qed.

(** X19: the engine the constructor returns lives at a new address that is
    not nil, the engines already there are untouched, and it holds the given
    executable, depth and ponder flag.  In its option map an entry of the
    caller wins; failing that, Contempt is the random value when [random] is
    set, and every other name has the built-in default.  So a Contempt entry
    of the caller cancels the randomisation. *)
Theorem NewEngineWithAllOptions_result (env : Launch) (exe : string) (depth : Z)
    (ponder : bool) (param : gmap string string) (random : bool)
    (randMin randMax : Z) (h : heap) (p : N) (h' : heap) :
  NewEngineWithAllOptions env exe depth ponder param random randMin randMax h
  = (Ret p, h') ->
  p <> 0%N /\ h !! p = None /\
  (forall q, q <> p -> h' !! q = h !! q) /\
  exists e,
    h' !! p = Some e /\
    Executable e = exe /\ EngineDepth e = depth /\ EnginePonder e = ponder /\
    forall name,
      Param e !! name
      = match param !! name with
        | Some value => Some value
        | None =>
            if String.eqb name "Contempt"
            then Some (contemptOf random randMin randMax (Draw env))
            else baseParam !! name
        end.
Proof.
  intros HN.
  destruct (constructor_success _ _ _ _ _ _ _ _ _ _ _ HN)
    as (bp & e & Hbp & -> & -> & Hx & Hd & Hp & HP).
  destruct (allocate_fresh h) as [Hnil Hfresh].
  split; [exact Hnil|]. split; [exact Hfresh|]. split.
  - intros q Hq. apply lookup_insert_ne. congruence.
  - exists e. rewrite lookup_insert_eq. repeat split; try assumption.
    intros name. rewrite HP, applyOverrides_lookup.
    rewrite (randomContempt_lookup _ _ _ _ _ name Hbp). reflexivity.
Qed.

Lemma NewEngineWithAllOptions_result_witness :
  exists e,
    snd (NewEngineWithAllOptions (demoLaunch 7) "stockfish" 5 true
           (<["Hash" := "64"]> ∅) true (-10) 10 ∅) !! 1%N = Some e /\
    EngineDepth e = 5 /\
    Param e !! "Hash" = Some "64" /\
    Param e !! "Contempt" = Some "-3" /\
    Param e !! "Threads" = Some "1".
Proof.
  destruct (NewEngineWithAllOptions_result (demoLaunch 7) "stockfish" 5 true
              (<["Hash" := "64"]> ∅) true (-10) 10 ∅ 1%N
              (snd (NewEngineWithAllOptions (demoLaunch 7) "stockfish" 5 true
                      (<["Hash" := "64"]> ∅) true (-10) 10 ∅)))
    as (_ & _ & _ & e & He & _ & Hd & _ & HP).
  - vm_compute. reflexivity.
  - exists e. split; [exact He|]. split; [exact Hd|].
    split; [exact (HP "Hash")|]. split; [exact (HP "Contempt")|exact (HP "Threads")].
Defined.

Lemma applyOverrides_empty (bp : gmap string string) : applyOverrides ∅ bp = bp.
Proof. unfold applyOverrides. apply map_fold_empty. Qed.

(** X20: [NewEngineWithDepth] never panics, whatever the process prints;
    the engine it returns runs stockfish at the given depth without
    pondering, and its option map is exactly the eight built-in defaults.
    [NewEngine] is the same constructor at depth 2. *)
Theorem NewEngineWithDepth_defaults (env : Launch) (depth : Z) (h : heap) :
  (forall msg, fst (NewEngineWithDepth env depth h) <> Panic msg) /\
  (forall p h',
     NewEngineWithDepth env depth h = (Ret p, h') ->
     exists e,
       h' = <[p := e]> h /\ h !! p = None /\
       Executable e = "stockfish" /\ EngineDepth e = depth /\
       EnginePonder e = false /\ Param e = baseParam) /\
  NewEngine env h = NewEngineWithDepth env 2 h.
Proof.
  split; [|split; [|reflexivity]].
  - intros msg. unfold NewEngineWithDepth, NewEngineWithAllOptions.
    destruct (StdinPipeErr env); [discriminate|].
    destruct (StdoutPipeErr env); [discriminate|].
    destruct (configure_eq env false ∅ false (-10) 10
                (mkEngine "stockfish" [] (Output env) depth false ∅)) as [e1 ->].
    cbn [randomContempt].
    destruct (setOptions_Param
                (RangeOrder env (map_to_list (applyOverrides ∅ baseParam)))
                (set_Param (applyOverrides ∅ baseParam) e1)) as [_ Hnp].
    destruct (setOptions _ _) as [[u|err|q] e2]; try discriminate.
    exfalso. exact (Hnp q eq_refl).
  - intros p h' HN. unfold NewEngineWithDepth in HN.
    destruct (constructor_success _ _ _ _ _ _ _ _ _ _ _ HN)
      as (bp & e & Hbp & -> & -> & Hx & Hd & Hp & HP).
    exists e. destruct (allocate_fresh h) as [_ Hfresh].
    cbn [randomContempt] in Hbp. injection Hbp as <-.
    rewrite applyOverrides_empty in HP. repeat split; assumption.
Qed.

(* ===================================================================== *)
(** * Further properties of the parsers *)

(** ** ParseBestMove *)

(** Splitting the tokens joined by single spaces gives the tokens back. *)
Lemma Split_Join (toks : list string) :
  forallb (all_chars Str.not_space) toks = true -> toks <> [] ->
  Str.Split (Str.Join toks) = toks.
Proof.
  induction toks as [|t toks IH]; intros Hall Hne; [congruence|].
  cbn [forallb] in Hall. apply andb_true_iff in Hall. destruct Hall as [Ht Hall].
  destruct toks as [|t' toks].
  - cbn [Str.Join]. apply Split_word, Ht.
  - change (Str.Join (t :: t' :: toks)) with (t +:+ " " +:+ Str.Join (t' :: toks)).
    rewrite (Split_word_space t _ Ht), IH; [reflexivity|exact Hall|discriminate].
Qed.

(** X21: what [ParseBestMove] makes of a line, by its tokens (the pieces
    between single spaces, which may be empty).  It never returns an error.
    The second token is the move and the fourth the ponder move; the first
    and the third token are not looked at, and tokens after the fourth are
    ignored.  Two tokens give an empty ponder move; fewer than two, or
    exactly three, panic. *)
Theorem ParseBestMove_tokens (toks : list string) :
  forallb (all_chars Str.not_space) toks = true ->
  ParseBestMove (Str.Join toks)
  = match toks with
    | [] | [_] => Panic (index_out_of_range 1 1)
    | [_; move] => Ret (mkBestMove move "" None)
    | [_; _; _] => Panic (index_out_of_range 3 3)
    | _ :: move :: _ :: ponder :: _ => Ret (mkBestMove move ponder None)
    end.
Proof.
  intros Hall. destruct toks as [|t0 toks]; [reflexivity|].
  unfold ParseBestMove. rewrite (Split_Join _ Hall) by discriminate.
  destruct toks as [|t1 [|t2 [|t3 more]]]; reflexivity.
Qed.

Lemma ParseBestMove_tokens_witness :
  ParseBestMove "info e2e4  e7e5 and more"
  = Ret (mkBestMove "e2e4" "e7e5" None).
Proof.
  apply (ParseBestMove_tokens ["info"; "e2e4"; ""; "e7e5"; "and"; "more"]).
  vm_compute. reflexivity.
Defined.

(** ** ParseInfo *)

Lemma find_Lit_Contains (l : string) (r : regex) (s : string) (m : submatches) :
  find (Cat (Lit l) r) s = Some m -> Str.Contains s l = true.
Proof.
  induction s as [|c s IH]; intros H.
  - destruct (Str.strip_prefix l "") eqn:Hp.
    + cbn [Str.Contains]. rewrite Hp. reflexivity.
    + cbn [find] in H. rewrite (match_here_Lit_miss l r "" Hp) in H. discriminate.
  - destruct (Str.strip_prefix l (String c s)) eqn:Hp.
    + cbn [Str.Contains]. rewrite Hp. reflexivity.
    + rewrite (find_Lit_skip l r c s Hp) in H.
      cbn [Str.Contains]. rewrite Hp. exact (IH H).
Qed.

Lemma find_Lit_absent (l : string) (r : regex) (s : string) :
  Str.Contains s l = false -> find (Cat (Lit l) r) s = None.
Proof.
  intros Hc. destruct (find (Cat (Lit l) r) s) as [m|] eqn:Hf; [|reflexivity].
  rewrite (find_Lit_Contains l r s m Hf) in Hc. discriminate.
Qed.

(** X22: a line that is not an evaluation notice and has no pv part is
    rejected with the pv error, whatever else it holds; the lines an engine
    prints for the move it is searching are of this kind. *)
Theorem ParseInfo_without_pv (line : string) :
  Str.Contains line "info string " = false ->
  Str.Contains line " pv " = false ->
  ParseInfo line = Fail ("Could not parse pv: " +:+ line).
Proof.
  intros Hnotice Hpv. unfold ParseInfo, noticeRegex, PVRegex.
  rewrite (find_Lit_absent _ _ _ Hnotice), (find_Lit_absent _ _ _ Hpv).
  reflexivity.
Qed.

Lemma ParseInfo_without_pv_witness :
  ParseInfo currmoveLine
  = Fail "Could not parse pv: info depth 20 currmove e2e4 currmovenumber 1".
Proof.
  apply (ParseInfo_without_pv currmoveLine); vm_compute; reflexivity.
Defined.

Lemma Atoi_no_panic (s : string) (p : string) : Strconv.Atoi s <> Panic p.
Proof.
  unfold Strconv.Atoi.
  match goal with |- context [let '(_, _) := ?M in _] => destruct M as [neg body] end.
  destruct body; [discriminate|].
  destruct (Strconv.digits_val _ 0); [|discriminate].
  destruct (_ && _); discriminate.
Qed.

Lemma parse_fields_requires (line : string) (fields : list string) :
  forall (res : Info),
    (forall p, parse_fields fields line res <> Panic p) /\
    (forall i, parse_fields fields line res = Ret i ->
       forallb (fun field => Str.Contains line (field +:+ " ")) fields = true).
Proof.
  induction fields as [|field fields IH]; intros res.
  - split; [discriminate|reflexivity].
  - cbn [parse_fields forallb]. unfold fieldRegex.
    destruct (find _ line) as [m|] eqn:Hf; [|split; discriminate].
    rewrite (find_Lit_Contains _ _ _ _ Hf).
    pose proof (Atoi_no_panic (group 1 m)) as Hnp.
    destruct (Strconv.Atoi (group 1 m)) as [v|err|p]; [|split; discriminate|].
    + apply IH.
    + exfalso. exact (Hnp p eq_refl).
Qed.

(** X23: [ParseInfo] never panics, and it accepts a line only in two
    cases.  Either the line holds an evaluation notice, and the result is
    the zero value; or the line holds the marker of the pv, of the score and
    of each of the seven counters, each followed by a space. *)
Theorem ParseInfo_accepts_only (line : string) :
  (forall p, ParseInfo line <> Panic p) /\
  (forall i, ParseInfo line = Ret i ->
     (i = zeroInfo /\ Str.Contains line "info string " = true) \/
     (Str.Contains line " pv " = true /\
      Str.Contains line "score " = true /\
      forallb (fun field => Str.Contains line (field +:+ " ")) singleValueFields
      = true)).
Proof.
  unfold ParseInfo.
  destruct (find noticeRegex line) as [mn|] eqn:Hn.
  { split; [discriminate|]. intros i Hi. injection Hi as <-. left.
    split; [reflexivity|]. exact (find_Lit_Contains _ _ _ _ Hn). }
  destruct (find PVRegex line) as [mpv|] eqn:Hpv; [|split; discriminate].
  destruct (find scoreRegex line) as [msc|] eqn:Hsc; [|split; discriminate].
  pose proof (Atoi_no_panic (group 2 msc)) as Hnp.
  destruct (Strconv.Atoi (group 2 msc)) as [v|err|p]; [|split; discriminate|].
  - destruct (parse_fields_requires line singleValueFields
                (set_Score (mkScore (group 1 msc) v) (set_Pv (group 1 mpv) zeroInfo)))
      as [Hpanic Hret].
    split; [exact Hpanic|]. intros i Hi. right.
    split; [exact (find_Lit_Contains _ _ _ _ Hpv)|].
    split; [exact (find_Lit_Contains _ _ _ _ Hsc)|]. exact (Hret i Hi).
  - exfalso. exact (Hnp p eq_refl).
Qed.

(** ** The range of the numbers *)

Lemma star_Cls_inv {A : Type} (p : ascii -> bool) (cs : caps) (out : A) :
  forall (n : nat) (s : string) (k : @cont A),
    star_loop (run (Cls p)) n s cs k = Some out ->
    exists ds s', all_chars p ds = true /\ k ds s' cs = Some out.
Proof.
  induction n as [|n IH]; intros s k H; cbn [star_loop] in H.
  - exists EmptyString, s. split; [reflexivity|exact H].
  - unfold orelse in H.
    destruct (run (Cls p) s cs _) as [a|] eqn:Hstep.
    + injection H as ->. cbn [run] in Hstep.
      destruct s as [|c s1]; [discriminate|].
      destruct (p c) eqn:Hp; [|discriminate].
      destruct (Nat.ltb _ _); [|discriminate].
      apply IH in Hstep. destruct Hstep as (ds & s' & Hds & Hk).
      exists (String c ds), s'. split; [cbn; rewrite Hp; exact Hds|exact Hk].
    + exists EmptyString, s. split; [reflexivity|exact H].
Qed.

(** A group of one or more bytes of a class captures such bytes. *)
Lemma run_Grp_Plus_Cls_inv {A : Type} (i : nat) (p : ascii -> bool) (s : string)
    (cs : caps) (k : @cont A) (out : A) :
  run (Grp i (Plus (Cls p))) s cs k = Some out ->
  exists c ds s',
    p c = true /\ all_chars p ds = true /\
    k (String c ds) s' ((i, String c ds) :: cs) = Some out.
Proof.
  unfold Plus. cbn [run]. destruct s as [|c s1]; [discriminate|].
  destruct (p c) eqn:Hp; [|discriminate].
  intros H. apply star_Cls_inv in H. destruct H as (ds & s' & Hds & Hk).
  exists c, ds, s'. split; [exact Hp|]. split; [exact Hds|exact Hk].
Qed.

Lemma find_inv (r : regex) (s : string) (m : submatches) :
  find r s = Some m -> exists s', match_here r s' = Some m.
Proof.
  induction s as [|c s IH]; cbn [find]; intros H.
  - destruct (match_here r "") as [m'|] eqn:Hm; [|discriminate].
    exists EmptyString. congruence.
  - destruct (match_here r (String c s)) as [m'|] eqn:Hm.
    + exists (String c s). congruence.
    + exact (IH H).
Qed.

Lemma find_field_digits (field line : string) (m : submatches) :
  find (fieldRegex field) line = Some m -> is_digits (group 1 m) = true.
Proof.
  intros Hf. apply find_inv in Hf. destruct Hf as [s Hm].
  unfold match_here, fieldRegex in Hm. cbn [run] in Hm.
  destruct (Str.strip_prefix (field +:+ " ") s) as [s1|]; [|discriminate].
  change (run (Grp 1 (Plus (Cls Str.is_digit))) s1 []
            (fun c2 _ cs2 => Some ((field +:+ " ") +:+ c2, cs2)) = Some m) in Hm.
  apply run_Grp_Plus_Cls_inv in Hm. destruct Hm as (c & ds & s' & Hc & Hds & Hk).
  injection Hk as <-. unfold group. cbn. rewrite Hc. exact Hds.
Qed.

Lemma Atoi_digits_count (ds : string) (v : Z) :
  is_digits ds = true -> Strconv.Atoi ds = Ret v -> is_count v.
Proof.
  intros Hds HA. pose proof Hds as Hds0.
  apply is_digits_inv in Hds. destruct Hds as (c & ds' & -> & Hc & Hds').
  assert (Hall : all_chars Str.is_digit (String c ds') = true)
    by (simpl; rewrite Hc; exact Hds').
  pose proof (literal_from_mono (String c ds') 0 Hall ltac:(lia)) as Hpos.
  fold (literal (String c ds')) in Hpos.
  destruct (Z_le_gt_dec (literal (String c ds')) GoInt.maxInt) as [Hfit|Hbig].
  - rewrite (Atoi_digits _ Hds0 Hfit) in HA. injection HA as <-.
    unfold is_count. lia.
  - exfalso.
    assert (Hbody : Strconv.Atoi (String c ds')
                    = match Strconv.digits_val (String c ds') 0 with
                      | None => Fail (Strconv.syntax_error (String c ds'))
                      | Some v =>
                          if Z.leb GoInt.minInt v && Z.leb v GoInt.maxInt then Ret v
                          else Fail (Strconv.range_error (String c ds'))
                      end).
    { destruct c as [[] [] [] [] [] [] [] []]; try discriminate Hc; reflexivity. }
    rewrite Hbody, (digits_val_literal _ 0 Hall) in HA.
    fold (literal (String c ds')) in HA.
    replace (Z.leb (literal (String c ds')) GoInt.maxInt) with false in HA
      by (symmetry; apply Z.leb_gt; lia).
    rewrite andb_false_r in HA. discriminate.
Qed.

Lemma Atoi_in_range (s : string) (v : Z) :
  Strconv.Atoi s = Ret v -> GoInt.in_range v.
Proof.
  unfold Strconv.Atoi.
  match goal with |- context [let '(_, _) := ?M in _] => destruct M as [neg body] end.
  destruct body; [discriminate|].
  destruct (Strconv.digits_val _ 0); [|discriminate].
  destruct (_ && _) eqn:Hr; [|discriminate].
  intros H. injection H as <-. apply andb_true_iff in Hr. destruct Hr as [H1 H2].
  apply Z.leb_le in H1, H2. split; assumption.
Qed.

Lemma assign_field_counts (field : string) (value : Z) (i : Info) :
  counts_in_range i -> is_count value ->
  counts_in_range (assign_field field value i) /\
  InfoScore (assign_field field value i) = InfoScore i /\
  Pv (assign_field field value i) = Pv i.
Proof.
  unfold counts_in_range, assign_field. intros H Hv.
  repeat match goal with
         | |- context [String.eqb ?a ?b] => destruct (String.eqb a b)
         end; cbn; tauto.
Qed.

Lemma parse_fields_counts (line : string) (fields : list string) :
  forall (res i : Info),
    counts_in_range res -> parse_fields fields line res = Ret i ->
    counts_in_range i /\ InfoScore i = InfoScore res /\ Pv i = Pv res.
Proof.
  induction fields as [|field fields IH]; intros res i Hres HP; cbn [parse_fields] in HP.
  - injection HP as <-. tauto.
  - destruct (find (fieldRegex field) line) as [m|] eqn:Hf; [|discriminate].
    destruct (Strconv.Atoi (group 1 m)) as [v|err|p] eqn:HA; try discriminate.
    pose proof (Atoi_digits_count _ v (find_field_digits _ _ _ Hf) HA) as Hv.
    destruct (assign_field_counts field v res Hres Hv) as (H1 & H2 & H3).
    destruct (IH _ i H1 HP) as (H4 & H5 & H6).
    split; [exact H4|]. split; congruence.
Qed.

(** X24: the numbers of an evaluation [ParseInfo] returns: each of the
    seven counters is at least zero and at most the largest [int], and the
    value of the score is an [int]. *)
Theorem ParseInfo_numbers_in_range (line : string) (i : Info) :
  ParseInfo line = Ret i ->
  counts_in_range i /\ GoInt.in_range (Value (InfoScore i)).
Proof.
  assert (Hzero : counts_in_range zeroInfo /\ GoInt.in_range 0).
  { unfold counts_in_range, is_count, GoInt.in_range. vm_compute.
    repeat split; discriminate. }
  unfold ParseInfo.
  destruct (find noticeRegex line); [intros H; injection H as <-; exact Hzero|].
  destruct (find PVRegex line) as [mpv|]; [|discriminate].
  destruct (find scoreRegex line) as [msc|]; [|discriminate].
  destruct (Strconv.Atoi (group 2 msc)) as [v|err|p] eqn:HA; try discriminate.
  intros HP. apply parse_fields_counts in HP; [|exact (proj1 Hzero)].
  destruct HP as (Hc & Hs & _). split; [exact Hc|].
  rewrite Hs. cbn. exact (Atoi_in_range _ _ HA).
Qed.

Lemma ParseInfo_numbers_in_range_witness :
  counts_in_range (mkInfo 2 3 1 (mkScore "cp" (-656)) 43 43000 0 1 "g7g6 h3g3 g6f7")
  /\ GoInt.in_range (-656).
Proof.
  apply (ParseInfo_numbers_in_range sourceLine
           (mkInfo 2 3 1 (mkScore "cp" (-656)) 43 43000 0 1 "g7g6 h3g3 g6f7")).
  vm_compute. reflexivity.
Defined.
